(** * CrossCloudSync: the S3 -> GCS replication protocol of [app/replicator.py]

  A shallow embedding of [replicate_file] together with the library
  behaviour it relies on (byte strings, [bytes.hex], [base64.b64decode],
  the two storage clients, [tenacity.retry]), and the properties of the
  replication protocol proved over it. *)

From Stdlib Require Import NArith ZArith Lia Ascii String List Bool.
From Stdlib.Strings Require Import Byte.
From stdpp Require Import gmap strings list.

Set Default Proof Using "Type".

(** Python [bytes] values. *)
Abbreviation bytes := (list byte).

(* ===================================================================== *)
(** * Text helpers: [str.strip], [in], [bytes.hex] *)
(* ===================================================================== *)

Module Text.

(** The double-quote character, which S3 wraps around every ETag. *)
Definition dquote : ascii := Eval cbv in ascii_of_nat 34.
Definition dash : ascii := "-"%char.

(** [s.lstrip(c)] for a single character [c]. *)
Fixpoint lstrip (c : ascii) (s : string) : string :=
  match s with
  | EmptyString => EmptyString
  | String a s' => if Ascii.eqb a c then lstrip c s' else s
  end.

(** [s.strip(c)]: drop every leading and every trailing [c]. *)
Definition strip (c : ascii) (s : string) : string :=
  String.rev (lstrip c (String.rev (lstrip c s))).

(** [c in s] for a single character [c]. *)
Fixpoint contains (c : ascii) (s : string) : bool :=
  match s with
  | EmptyString => false
  | String a s' => Ascii.eqb a c || contains c s'
  end.

(** [s.startswith(p)]. *)
Fixpoint starts_with (p s : string) : bool :=
  match p, s with
  | EmptyString, _ => true
  | String _ _, EmptyString => false
  | String a p', String b s' => Ascii.eqb a b && starts_with p' s'
  end.

Definition hex_digit (n : N) : ascii :=
  match n with
  | 0 => "0" | 1 => "1" | 2 => "2" | 3 => "3" | 4 => "4" | 5 => "5"
  | 6 => "6" | 7 => "7" | 8 => "8" | 9 => "9" | 10 => "a" | 11 => "b"
  | 12 => "c" | 13 => "d" | 14 => "e" | _ => "f"
  end%N%char.

(** [bytes.hex()]: two lowercase hexadecimal digits per byte. *)
Fixpoint hex (bs : bytes) : string :=
  match bs with
  | [] => EmptyString
  | b :: bs' =>
      let n := Byte.to_N b in
      String (hex_digit (n / 16)) (String (hex_digit (n mod 16)) (hex bs'))
  end.

End Text.

(* ===================================================================== *)
(** * Base64, as [base64.b64decode] reads what the store reports *)
(* ===================================================================== *)

Module Base64.

Definition alphabet : list ascii :=
  list_ascii_of_string
    "ABCDEFGHIJKLMNOPQRSTUVWXYZabcdefghijklmnopqrstuvwxyz0123456789+/".

Definition pad : ascii := "="%char.

Definition char_of_sextet (n : N) : ascii := nth (N.to_nat n) alphabet pad.

Fixpoint index_from (c : ascii) (l : list ascii) (i : N) : option N :=
  match l with
  | [] => None
  | a :: l' => if Ascii.eqb a c then Some i else index_from c l' (N.succ i)
  end.

(** The decoding table: the value of an alphabet character, [None] for
    every other character. *)
Definition sextet_of_char (c : ascii) : option N := index_from c alphabet 0.

Definition byte_of_N (n : N) : byte :=
  match Byte.of_N (n mod 256) with Some b => b | None => x00 end.

(** Standard encoding with padding: what the destination store reports
    in a blob's [md5_hash] field. *)
Fixpoint b64encode_chars (bs : bytes) : list ascii :=
  match bs with
  | [] => []
  | [b0] =>
      let n0 := Byte.to_N b0 in
      [char_of_sextet (n0 / 4); char_of_sextet ((n0 mod 4) * 16); pad; pad]
  | [b0; b1] =>
      let n0 := Byte.to_N b0 in
      let n1 := Byte.to_N b1 in
      [char_of_sextet (n0 / 4);
       char_of_sextet ((n0 mod 4) * 16 + n1 / 16);
       char_of_sextet ((n1 mod 16) * 4); pad]
  | b0 :: b1 :: b2 :: rest =>
      let n0 := Byte.to_N b0 in
      let n1 := Byte.to_N b1 in
      let n2 := Byte.to_N b2 in
      char_of_sextet (n0 / 4)
        :: char_of_sextet ((n0 mod 4) * 16 + n1 / 16)
        :: char_of_sextet ((n1 mod 16) * 4 + n2 / 64)
        :: char_of_sextet (n2 mod 64)
        :: b64encode_chars rest
  end.

Definition b64encode (bs : bytes) : string :=
  string_of_list_ascii (b64encode_chars bs).

(** The non-strict decoder behind [base64.b64decode]: characters outside
    the alphabet are skipped, a complete run of padding ends the input,
    and an incomplete final quad is an error ([None]). [quad_pos] is the
    position inside the current group of four, [leftchar] the bits not
    yet written out, [pads] the padding characters seen in a row. *)
Fixpoint a2b_base64 (quad_pos : nat) (leftchar : N) (pads : nat)
    (s : list ascii) : option bytes :=
  match s with
  | [] => if Nat.eqb quad_pos 0 then Some [] else None
  | c :: s' =>
      if Ascii.eqb c pad then
        if Nat.leb 2 quad_pos then
          if Nat.leb 4 (quad_pos + S pads) then Some []
          else a2b_base64 quad_pos leftchar (S pads) s'
        else a2b_base64 quad_pos leftchar pads s'
      else
        match sextet_of_char c with
        | None => a2b_base64 quad_pos leftchar pads s'
        | Some v =>
            match quad_pos with
            | 0 => a2b_base64 1 v 0 s'
            | 1 =>
                cons (byte_of_N (N.lor (N.shiftl leftchar 2) (N.shiftr v 4)))
                  <$> a2b_base64 2 (N.land v 15) 0 s'
            | 2 =>
                cons (byte_of_N (N.lor (N.shiftl leftchar 4) (N.shiftr v 2)))
                  <$> a2b_base64 3 (N.land v 3) 0 s'
            | _ =>
                cons (byte_of_N (N.lor (N.shiftl leftchar 6) v))
                  <$> a2b_base64 0 0 0 s'
            end
        end
  end.

Definition is_ascii (c : ascii) : bool := N.ltb (N_of_ascii c) 128.

(** [base64.b64decode(s)] for a [str] argument: [None] stands for the
    exception raised on a non-ASCII character or on bad padding. *)
Definition b64decode (s : string) : option bytes :=
  let cs := list_ascii_of_string s in
  if forallb is_ascii cs then a2b_base64 0 0 0 cs else None.

(** The check run over the 64 sextets: the decoding table inverts the
    alphabet, whose characters are ASCII and are not the padding. *)
Definition sextet_ok (n : N) : bool :=
  match sextet_of_char (char_of_sextet n) with
  | Some m => N.eqb m n
  | None => false
  end
  && negb (Ascii.eqb (char_of_sextet n) pad)
  && is_ascii (char_of_sextet n).

End Base64.

(* ===================================================================== *)
(** * MD5, the function behind [hashlib.md5] *)
(* ===================================================================== *)

Module MD5.

Definition mask32 (x : N) : N := N.land x 0xffffffff.
Definition add32 (x y : N) : N := mask32 (x + y)%N.
Definition not32 (x : N) : N := N.lxor (mask32 x) 0xffffffff.
Definition rotl32 (x s : N) : N :=
  mask32 (N.lor (N.shiftl x s) (N.shiftr x (32 - s))).

(** [K i = floor (2^32 * |sin (i + 1)|)]. *)
Definition K : list N := [
  0xd76aa478; 0xe8c7b756; 0x242070db; 0xc1bdceee;
  0xf57c0faf; 0x4787c62a; 0xa8304613; 0xfd469501;
  0x698098d8; 0x8b44f7af; 0xffff5bb1; 0x895cd7be;
  0x6b901122; 0xfd987193; 0xa679438e; 0x49b40821;
  0xf61e2562; 0xc040b340; 0x265e5a51; 0xe9b6c7aa;
  0xd62f105d; 0x02441453; 0xd8a1e681; 0xe7d3fbc8;
  0x21e1cde6; 0xc33707d6; 0xf4d50d87; 0x455a14ed;
  0xa9e3e905; 0xfcefa3f8; 0x676f02d9; 0x8d2a4c8a;
  0xfffa3942; 0x8771f681; 0x6d9d6122; 0xfde5380c;
  0xa4beea44; 0x4bdecfa9; 0xf6bb4b60; 0xbebfbc70;
  0x289b7ec6; 0xeaa127fa; 0xd4ef3085; 0x04881d05;
  0xd9d4d039; 0xe6db99e5; 0x1fa27cf8; 0xc4ac5665;
  0xf4292244; 0x432aff97; 0xab9423a7; 0xfc93a039;
  0x655b59c3; 0x8f0ccc92; 0xffeff47d; 0x85845dd1;
  0x6fa87e4f; 0xfe2ce6e0; 0xa3014314; 0x4e0811a1;
  0xf7537e82; 0xbd3af235; 0x2ad7d2bb; 0xeb86d391 ]%N.

(** Per-round rotation amounts. *)
Definition R : list N := [
  7; 12; 17; 22; 7; 12; 17; 22; 7; 12; 17; 22; 7; 12; 17; 22;
  5; 9; 14; 20; 5; 9; 14; 20; 5; 9; 14; 20; 5; 9; 14; 20;
  4; 11; 16; 23; 4; 11; 16; 23; 4; 11; 16; 23; 4; 11; 16; 23;
  6; 10; 15; 21; 6; 10; 15; 21; 6; 10; 15; 21; 6; 10; 15; 21 ]%N.

Record state := { sa : N; sb : N; sc : N; sd : N }.

Definition init : state :=
  {| sa := 0x67452301; sb := 0xefcdab89; sc := 0x98badcfe; sd := 0x10325476 |}%N.

(** Round [i] on a 16-word block. *)
Definition round (block : list N) (st : state) (i : nat) : state :=
  let '(a, b, c, d) := (sa st, sb st, sc st, sd st) in
  let '(f, g) :=
    if Nat.ltb i 16 then
      (N.lor (N.land b c) (N.land (not32 b) d), i)
    else if Nat.ltb i 32 then
      (N.lor (N.land d b) (N.land (not32 d) c), (5 * i + 1) mod 16)
    else if Nat.ltb i 48 then
      (N.lxor (N.lxor b c) d, (3 * i + 5) mod 16)
    else
      (N.lxor c (N.lor b (not32 d)), (7 * i) mod 16) in
  let f' := add32 (add32 (add32 f a) (nth i K 0%N)) (nth g block 0%N) in
  {| sa := d; sd := c; sc := b; sb := add32 b (rotl32 f' (nth i R 0%N)) |}.

Definition compress (st : state) (block : list N) : state :=
  let st' := fold_left (round block) (seq 0 64) st in
  {| sa := add32 (sa st) (sa st'); sb := add32 (sb st) (sb st');
     sc := add32 (sc st) (sc st'); sd := add32 (sd st) (sd st') |}.

(** [n] as [k] little-endian bytes. *)
Fixpoint le_bytes (k : nat) (n : N) : list N :=
  match k with
  | O => []
  | S k' => (n mod 256)%N :: le_bytes k' (n / 256)%N
  end.

(** Little-endian 32-bit words of a byte sequence. *)
Fixpoint words (bs : list N) : list N :=
  match bs with
  | b0 :: b1 :: b2 :: b3 :: rest =>
      (b0 + 256 * (b1 + 256 * (b2 + 256 * b3)))%N :: words rest
  | _ => []
  end.

Fixpoint blocks (fuel : nat) (ws : list N) : list (list N) :=
  match fuel, ws with
  | S fuel', _ :: _ => firstn 16 ws :: blocks fuel' (skipn 16 ws)
  | _, _ => []
  end.

(** The message followed by [0x80], zeros up to 56 modulo 64, and the bit
    length on 8 bytes. *)
Definition padded (msg : bytes) : list N :=
  let len := length msg in
  map Byte.to_N msg ++ [128%N]
    ++ repeat 0%N ((119 - len mod 64) mod 64)
    ++ le_bytes 8 (8 * N.of_nat len)%N.

Definition digest (msg : bytes) : bytes :=
  let ws := words (padded msg) in
  let st := fold_left compress (blocks (length ws) ws) init in
  map Base64.byte_of_N
    (le_bytes 4 (sa st) ++ le_bytes 4 (sb st)
       ++ le_bytes 4 (sc st) ++ le_bytes 4 (sd st)).

End MD5.

(* ===================================================================== *)
(** * The outside world: both stores, their failures, the log *)
(* ===================================================================== *)

(** An object of the source store: the [ETag] header exactly as
    [head_object] returns it (S3 wraps it in double quotes), the payload
    and the declared content type, if any. The ETag is whatever the store
    declares; nothing ties it to the MD5 of the payload. *)
Record S3Object := {
  s3_etag : string;
  s3_body : bytes;
  s3_content_type : option string;
}.

(** A blob of the destination bucket. [gcs_md5_hash] is the base64 text of
    the [md5_hash] property; the store leaves it out for some blobs. *)
Record GcsBlob := {
  gcs_data : bytes;
  gcs_content_type : string;
  gcs_md5_hash : option string;
}.

(** What a client call can raise instead of answering: the failure of
    the request, or what the client library raises before it sends one
    (botocore's check of the parameters, for one). *)
Inductive fault :=
| FClientError (code message : string)   (* botocore.exceptions.ClientError *)
| FGoogleAPIError (message : string)     (* google.api_core.exceptions.GoogleAPIError *)
| FOther (message : string).             (* any other exception class *)

(** Python exceptions, as far as [replicate_file] tells them apart. *)
Inductive exn :=
| ClientError (code message : string)
| GoogleAPIError (message : string)
| ValueError (message : string)
| OtherException (message : string)
| RetryError (last : exn).               (* tenacity.RetryError *)

Definition exn_of_fault (f : fault) : exn :=
  match f with
  | FClientError code msg => ClientError code msg
  | FGoogleAPIError msg => GoogleAPIError msg
  | FOther msg => OtherException msg
  end.

(** [str(e)]. *)
Fixpoint exn_str (e : exn) : string :=
  match e with
  | ClientError _ msg => msg
  | GoogleAPIError msg => msg
  | ValueError msg => msg
  | OtherException msg => msg
  | RetryError last => "RetryError[" +:+ exn_str last +:+ "]"
  end.

(** The calls [replicate_file] makes on the two clients and on the
    response stream. *)
Inductive call :=
| HeadObject (bucket key : string)
| GetObject (bucket key : string)
| BodyRead (amt : N)
| BlobExists (key : string)
| BlobReload (key : string)
| BlobUpload (key content_type : string) (data : bytes)
| BlobDelete (key : string).

Inductive level := INFO | WARNING | ERROR.

(** Everything one run does that can be observed: client calls when they
    are issued, log records, the chunks fed to the hasher and to the spool
    file, and what the retry wrapper does around the attempts. *)
Inductive event :=
| EvCall (c : call)
| EvLog (lvl : level) (msg : string)
| EvHashUpdate (chunk : bytes)
| EvSpoolWrite (chunk : bytes)
| EvAttempt (attempt_number : nat)
| EvSleep (seconds : N).

(** The state a run starts from. [faults] schedules the failures of the
    client calls to come: every call consumes the head of the list and
    raises it if it is [Some]; once the list is empty no call fails.
    [uuid_source] stands for the randomness behind [uuid4]. *)
Record World := {
  s3_objects : gmap (string * string) S3Object;
  gcs_bucket_name : string;
  gcs_objects : gmap string GcsBlob;
  faults : list (option fault);
  uuid_source : nat -> string;
  uuid_count : nat;
}.

Definition set_gcs_objects (m : gmap string GcsBlob) (w : World) : World :=
  {| s3_objects := s3_objects w; gcs_bucket_name := gcs_bucket_name w;
     gcs_objects := m; faults := faults w;
     uuid_source := uuid_source w; uuid_count := uuid_count w |}.

Definition set_faults (fs : list (option fault)) (w : World) : World :=
  {| s3_objects := s3_objects w; gcs_bucket_name := gcs_bucket_name w;
     gcs_objects := gcs_objects w; faults := fs;
     uuid_source := uuid_source w; uuid_count := uuid_count w |}.

Definition set_uuid_count (n : nat) (w : World) : World :=
  {| s3_objects := s3_objects w; gcs_bucket_name := gcs_bucket_name w;
     gcs_objects := gcs_objects w; faults := faults w;
     uuid_source := uuid_source w; uuid_count := n |}.

(* ===================================================================== *)
(** * The monad of runs: state, exceptions and a trace *)
(* ===================================================================== *)

Inductive outcome (A : Type) :=
| Return (a : A)
| Raise (e : exn).
Arguments Return {A} a.
Arguments Raise {A} e.

Definition M (A : Type) : Type := World -> outcome A * World * list event.

Definition ret {A} (a : A) : M A := fun w => (Return a, w, []).

Definition raise {A} (e : exn) : M A := fun w => (Raise e, w, []).

Definition bind {A B} (m : M A) (f : A -> M B) : M B := fun w =>
  match m w with
  | (Return a, w1, ev1) =>
      match f a w1 with (r, w2, ev2) => (r, w2, ev1 ++ ev2) end
  | (Raise e, w1, ev1) => (Raise e, w1, ev1)
  end.

Declare Scope run_scope.
Delimit Scope run_scope with run.
Notation "x <- m ;; k" := (bind m (fun x => k))
  (at level 100, m at next level, right associativity) : run_scope.
Notation "m ;; k" := (bind m (fun _ => k))
  (at level 100, right associativity) : run_scope.
Open Scope run_scope.

(** [try: m  except Exception as e: h e]. *)
Definition try_except {A} (m : M A) (h : exn -> M A) : M A := fun w =>
  match m w with
  | (Raise e, w1, ev1) =>
      match h e w1 with (r, w2, ev2) => (r, w2, ev1 ++ ev2) end
  | done => done
  end.

(** [try: m  except ClientError as e: h e]; anything else passes through. *)
Definition try_except_ClientError {A} (m : M A) (h : string -> string -> M A)
    : M A :=
  try_except m (fun e =>
    match e with
    | ClientError code msg => h code msg
    | _ => raise e
    end).

Definition tell (ev : event) : M unit := fun w => (Return tt, w, [ev]).

Definition get_world : M World := fun w => (Return w, w, []).

Definition put_world (w' : World) : M unit := fun _ => (Return tt, w', []).

Definition log (lvl : level) (msg : string) : M unit := tell (EvLog lvl msg).

(** [str(uuid4())]. *)
Definition uuid4 : M string :=
  w <- get_world ;;
  put_world (set_uuid_count (S (uuid_count w)) w) ;;
  ret (uuid_source w (uuid_count w)).

(** The failure scheduled for the next client call, and the world once
    that call has used up its slot of the schedule. *)
Definition next_fault (w : World) : option fault :=
  match faults w with
  | Some f :: _ => Some f
  | _ => None
  end.

Definition consume (w : World) : World := set_faults (tail (faults w)) w.

(** A call on either client: it is traced, then fails if the schedule
    says so, and otherwise answers with [answer]. *)
Definition client_call {A} (c : call) (answer : M A) : M A :=
  tell (EvCall c) ;;
  w <- get_world ;;
  put_world (consume w) ;;
  match next_fault w with
  | Some f => raise (exn_of_fault f)
  | None => answer
  end.

(* ===================================================================== *)
(** * The two clients *)
(* ===================================================================== *)

(** [s3_client.head_object(Bucket=bucket, Key=key)]; the answer is the
    response's ['ETag'] entry. A missing object is reported by a
    [ClientError] with code ["404"]. The answer is what the store gives
    to a request that was sent; what the client raises without sending
    one, as botocore does for parameters that fail its check (see
    [validate_key] below), comes from the schedule, like every failure
    of a call. *)
Definition head_object (bucket key : string) : M string :=
  client_call (HeadObject bucket key)
    (w <- get_world ;;
     match s3_objects w !! (bucket, key) with
     | Some o => ret (s3_etag o)
     | None => raise (ClientError "404" "An error occurred (404) when calling the HeadObject operation: Not Found")
     end).

(** [s3_client.get_object(Bucket=bucket, Key=key)]: the bytes the
    ["Body"] stream will deliver and the ["ContentType"] entry, if any. *)
Definition get_object (bucket key : string) : M (bytes * option string) :=
  client_call (GetObject bucket key)
    (w <- get_world ;;
     match s3_objects w !! (bucket, key) with
     | Some o => ret (s3_body o, s3_content_type o)
     | None => raise (ClientError "NoSuchKey" "An error occurred (NoSuchKey) when calling the GetObject operation: The specified key does not exist.")
     end).

(** [body.read(amt)] on a stream with [body] still to deliver: the chunk
    returned and what is left of the stream. *)
Definition body_read (amt : N) (body : bytes) : M (bytes * bytes) :=
  client_call (BodyRead amt)
    (ret (firstn (N.to_nat amt) body, skipn (N.to_nat amt) body)).

(** [gcs_blob.exists()]. *)
Definition blob_exists (key : string) : M bool :=
  client_call (BlobExists key)
    (w <- get_world ;;
     ret (match gcs_objects w !! key with Some _ => true | None => false end)).

(** [gcs_blob.reload()]; the answer is the [md5_hash] property the blob
    handle holds afterwards. *)
Definition blob_reload (key : string) : M (option string) :=
  client_call (BlobReload key)
    (w <- get_world ;;
     match gcs_objects w !! key with
     | Some blob => ret (gcs_md5_hash blob)
     | None => raise (GoogleAPIError "404 No such object")
     end).

Definition blob_delete (key : string) : M unit :=
  client_call (BlobDelete key)
    (w <- get_world ;;
     match gcs_objects w !! key with
     | Some _ => put_world (set_gcs_objects (delete key (gcs_objects w)) w)
     | None => raise (GoogleAPIError "404 No such object")
     end).

(* ===================================================================== *)
(** * Local objects: the spool file *)
(* ===================================================================== *)

(** [tempfile.SpooledTemporaryFile(max_size=...)]: the bytes written, the
    file position, and whether the contents have been rolled over from
    memory to a file on disk. *)
Record Spool := {
  spool_data : bytes;
  spool_pos : nat;
  spool_max_size : N;
  spool_rolled : bool;
}.

Definition SpooledTemporaryFile (max_size : N) : Spool :=
  {| spool_data := []; spool_pos := 0; spool_max_size := max_size;
     spool_rolled := false |}.

(** [spool.write(chunk)]: write at the position, then roll over when the
    position has passed [max_size]. *)
Definition spool_write (sp : Spool) (chunk : bytes) : Spool :=
  let pos' := spool_pos sp + length chunk in
  {| spool_data :=
       firstn (spool_pos sp) (spool_data sp) ++ chunk
         ++ skipn pos' (spool_data sp);
     spool_pos := pos';
     spool_max_size := spool_max_size sp;
     spool_rolled :=
       spool_rolled sp || N.ltb (spool_max_size sp) (N.of_nat pos') |}.

(** [spool.seek(pos)]. *)
Definition spool_seek (sp : Spool) (pos : nat) : Spool :=
  {| spool_data := spool_data sp; spool_pos := pos;
     spool_max_size := spool_max_size sp; spool_rolled := spool_rolled sp |}.

(** What a reader of the file gets: everything from the position on. *)
Definition spool_read_all (sp : Spool) : bytes :=
  skipn (spool_pos sp) (spool_data sp).

(* ===================================================================== *)
(** * tenacity's retry wrapper *)
(* ===================================================================== *)

(** [wait_exponential(multiplier, min, max)] after attempt
    [attempt_number], in seconds. *)
Definition wait_exponential (multiplier min max : N) (attempt_number : nat)
    : N :=
  N.max (N.max 0 min)
        (N.min (multiplier * 2 ^ (N.of_nat attempt_number - 1)) max).

(** [retry_if_exception_type((ClientError, GoogleAPIError))]. *)
Definition retry_if_exception_type (e : exn) : bool :=
  match e with
  | ClientError _ _ | GoogleAPIError _ => true
  | _ => false
  end.

Definition sleep (seconds : N) : M unit := tell (EvSleep seconds).

Section Retrying.

Context {A : Type}.
Variable wait : nat -> N.
Variable retry : exn -> bool.
Variable fn : M A.

(** The loop of the wrapper from attempt [attempt_number] on, when
    [attempts_left] more attempts may follow it. An exception that
    [retry] rejects is re-raised as it is; one it accepts leads to a sleep
    and a new attempt, or to [RetryError] when none is left. *)
Fixpoint retrying (attempts_left : nat) (attempt_number : nat) : M A :=
  tell (EvAttempt attempt_number) ;;
  try_except fn (fun e =>
    if retry e then
      match attempts_left with
      | O => raise (RetryError e)
      | S more => sleep (wait attempt_number) ;; retrying more (S attempt_number)
      end
    else raise e).

End Retrying.

(** [@retry(stop=stop_after_attempt(n), wait=..., retry=...)]. *)
Definition retry_decorator {A} (stop_after_attempt : nat) (wait : nat -> N)
    (retry : exn -> bool) (fn : M A) : M A :=
  retrying wait retry fn (stop_after_attempt - 1) 1.

(* ===================================================================== *)
(** * [replicate_file] *)
(* ===================================================================== *)

Definition CHUNK_SIZE : N := 64 * 1024.
Definition SPOOL_MAX_SIZE : N := 5 * 1024 * 1024.

Definition msg_skip : string := "File already replicated (idempotent skip)".

Definition msg_replicated (s3_key bucket_name : string) : string :=
  "Successfully replicated " +:+ s3_key +:+ " to GCS " +:+ bucket_name.

Definition SourceNotFound : exn := ValueError "S3 object not found".
Definition UploadFailed (e : exn) : exn :=
  ValueError ("Upload error: " +:+ exn_str e).
Definition IntegrityMismatch : exn :=
  ValueError "Checksum mismatch after upload".

Definition tag (corr_id : string) (msg : string) : string :=
  "[" +:+ corr_id +:+ "] " +:+ msg.

Section Replicator.

(** [hashlib.md5]: the 16-byte digest of a byte string. The protocol does
    not depend on which function it is. *)
Variable md5 : bytes -> bytes.

(** [gcs_blob.upload_from_file(spool, content_type=...)]: the blob is
    replaced by what is read from the file, and the store records the MD5
    of those bytes. *)
Definition blob_upload_from_file (key : string) (sp : Spool)
    (content_type : string) : M unit :=
  let data := spool_read_all sp in
  client_call (BlobUpload key content_type data)
    (w <- get_world ;;
     put_world
       (set_gcs_objects
          (<[key := {| gcs_data := data; gcs_content_type := content_type;
                       gcs_md5_hash := Some (Base64.b64encode (md5 data)) |}]>
             (gcs_objects w)) w)).

(** [base64.b64decode(gcs_blob.md5_hash).hex()]. [None] is what the store
    reports for a blob without MD5 (a composed one); [b64decode] rejects
    it with a [TypeError]. For a text that does not decode the model
    keeps one exception, whatever the text: CPython raises
    [binascii.Error], with a message that depends on the text, or
    [ValueError] when the text is not ASCII. The code catches and retries
    none of them. *)
Definition decode_md5_hash (md5_hash : option string) : M string :=
  match md5_hash with
  | None => raise (OtherException "TypeError: argument should be a bytes-like object or ASCII string, not 'NoneType'")
  | Some s =>
      match Base64.b64decode s with
      | Some raw => ret (Text.hex raw)
      | None => raise (OtherException "binascii.Error: Incorrect padding")
      end
  end.

(** [for chunk in iter(lambda: body.read(amt), b""): hasher.update(chunk);
    spool.write(chunk)]. The hasher is the byte string fed to it so far.
    [fuel] bounds the number of reads; [read_chunks] below supplies more
    than the loop can use. *)
Fixpoint read_loop (fuel : nat) (amt : N) (body hasher : bytes)
    (spool : Spool) : M (bytes * Spool) :=
  match fuel with
  | O => raise (OtherException "read_loop: out of fuel")
  | S fuel' =>
      r <- body_read amt body ;;
      match fst r with
      | [] => ret (hasher, spool)
      | chunk =>
          tell (EvHashUpdate chunk) ;;
          tell (EvSpoolWrite chunk) ;;
          read_loop fuel' amt (snd r) (hasher ++ chunk) (spool_write spool chunk)
      end
  end.

Definition read_chunks (amt : N) (body hasher : bytes) (spool : Spool)
    : M (bytes * Spool) :=
  read_loop (S (length body)) amt body hasher spool.

(** Lines 43-69: download, hash and spool, upload, verify. *)
Definition transfer (corr_id s3_bucket s3_key s3_etag : string) : M string :=
  response <- get_object s3_bucket s3_key ;;
  let body := fst response in
  let content_type := default "application/octet-stream" (snd response) in
  hs <- read_chunks CHUNK_SIZE body [] (SpooledTemporaryFile SPOOL_MAX_SIZE) ;;
  let hasher := fst hs in
  let spool := spool_seek (snd hs) 0 in
  try_except (blob_upload_from_file s3_key spool content_type) (fun e =>
    log ERROR (tag corr_id ("Upload failed: " +:+ exn_str e)) ;;
    raise (UploadFailed e)) ;;
  log INFO (tag corr_id ("Uploaded " +:+ s3_key +:+ " to GCS")) ;;
  let computed_md5_hex := Text.hex (md5 hasher) in
  if negb (String.eqb computed_md5_hex s3_etag)
     && negb (Text.contains Text.dash s3_etag)
  then
    log ERROR (tag corr_id "Checksum mismatch: Deleting corrupt GCS file") ;;
    blob_delete s3_key ;;
    raise IntegrityMismatch
  else
    log INFO (tag corr_id "Replication complete") ;;
    w <- get_world ;;
    ret (msg_replicated s3_key (gcs_bucket_name w)).

(** The body of [replicate_file]: one attempt. *)
Definition replicate_file_attempt (s3_bucket s3_key : string) : M string :=
  corr_id <- uuid4 ;;
  w <- get_world ;;
  log INFO (tag corr_id ("Starting replication: S3 " +:+ s3_bucket +:+ "/"
                         +:+ s3_key +:+ " to GCS " +:+ gcs_bucket_name w
                         +:+ "/" +:+ s3_key)) ;;
  s3_etag <-
    try_except_ClientError
      (etag_header <- head_object s3_bucket s3_key ;;
       let s3_etag := Text.strip Text.dquote etag_header in
       (if Text.contains Text.dash s3_etag
        then log WARNING (tag corr_id "Multi-part ETag detected; using existence check only")
        else ret tt) ;;
       ret s3_etag)
      (fun code msg =>
         if String.eqb code "404" then raise SourceNotFound
         else raise (ClientError code msg)) ;;
  present <- blob_exists s3_key ;;
  skip <-
    (if present then
       md5_hash <- blob_reload s3_key ;;
       gcs_md5_hex <- decode_md5_hash md5_hash ;;
       ret (String.eqb gcs_md5_hex s3_etag || Text.contains Text.dash s3_etag)
     else ret false) ;;
  if skip then
    log INFO (tag corr_id "Idempotent skip: File already exists with matching hash") ;;
    ret msg_skip
  else transfer corr_id s3_bucket s3_key s3_etag.

(** [replicate_file] as the module exports it, under
    [@retry(stop=stop_after_attempt(3),
            wait=wait_exponential(multiplier=1, min=2, max=10),
            retry=retry_if_exception_type((ClientError, GoogleAPIError)))]. *)
Definition replicate_file (s3_bucket s3_key : string) : M string :=
  retry_decorator 3 (wait_exponential 1 2 10) retry_if_exception_type
    (replicate_file_attempt s3_bucket s3_key).

End Replicator.

(* ===================================================================== *)
(** * Observations on runs *)
(* ===================================================================== *)

(** The client calls of a trace, in order. *)
Fixpoint calls (evs : list event) : list call :=
  match evs with
  | [] => []
  | EvCall c :: evs' => c :: calls evs'
  | _ :: evs' => calls evs'
  end.

(** The chunks fed to the hasher, in order. *)
Fixpoint hash_updates (evs : list event) : list bytes :=
  match evs with
  | [] => []
  | EvHashUpdate c :: evs' => c :: hash_updates evs'
  | _ :: evs' => hash_updates evs'
  end.

(** The chunks written to the spool file, in order. *)
Fixpoint spool_writes (evs : list event) : list bytes :=
  match evs with
  | [] => []
  | EvSpoolWrite c :: evs' => c :: spool_writes evs'
  | _ :: evs' => spool_writes evs'
  end.

(** The attempt numbers the retry wrapper went through. *)
Fixpoint attempts (evs : list event) : list nat :=
  match evs with
  | [] => []
  | EvAttempt n :: evs' => n :: attempts evs'
  | _ :: evs' => attempts evs'
  end.

(** The back-off delays the retry wrapper slept. *)
Fixpoint sleeps (evs : list event) : list N :=
  match evs with
  | [] => []
  | EvSleep s :: evs' => s :: sleeps evs'
  | _ :: evs' => sleeps evs'
  end.

Definition is_delete (c : call) : bool :=
  match c with BlobDelete _ => true | _ => false end.

(** No failure is left in the schedule. *)
Definition calm (w : World) : bool :=
  forallb (fun x => match x with None => true | Some _ => false end) (faults w).

(** [frame w w']: [w'] has the source store and the bucket name of [w],
    and its schedule is what the calls made since [w] have left of it. *)
Definition frame (w w' : World) : Prop :=
  s3_objects w' = s3_objects w
  /\ gcs_bucket_name w' = gcs_bucket_name w
  /\ exists n, faults w' = drop n (faults w).

(** Some call made from [w] on meets the scheduled failure [f]. *)
Definition faulted (w : World) (f : fault) : Prop :=
  exists w1, frame w w1 /\ next_fault w1 = Some f.

(** [wp m w Q]: the run of [m] from [w] ends in a result, a world and a
    trace that satisfy [Q]. *)
Definition wp {A} (m : M A) (w : World)
    (Q : outcome A -> World -> list event -> Prop) : Prop :=
  match m w with (r, w', evs) => Q r w' evs end.

(** [quiet m]: no run of [m] records an attempt or a sleep; only the
    retry wrapper does. *)
Definition quiet {A} (m : M A) : Prop :=
  forall w, wp m w (fun _ _ evs => attempts evs = [] /\ sleeps evs = []).

(** The source digest as [replicate_file] compares it. *)
Definition etag_of (o : S3Object) : string :=
  Text.strip Text.dquote (s3_etag o).

(** A composite (multi-part) digest: it contains a dash. *)
Definition composite (etag : string) : bool := Text.contains Text.dash etag.

Definition content_type_of (o : S3Object) : string :=
  default "application/octet-stream" (s3_content_type o).

(** The digest of a destination blob as [replicate_file] reads it, when
    the property is there and decodes. *)
Definition digest_hex (blob : GcsBlob) : option string :=
  match gcs_md5_hash blob with
  | Some s => Text.hex <$> Base64.b64decode s
  | None => None
  end.

(** What [replicate_file] raises when [head_object] raises [f]. *)
Definition head_exn (f : fault) : exn :=
  match f with
  | FClientError code msg =>
      if String.eqb code "404" then SourceNotFound else ClientError code msg
  | _ => exn_of_fault f
  end.

(* ===================================================================== *)
(** * The paths of one attempt *)
(* ===================================================================== *)

Section Paths.

Variable md5 : bytes -> bytes.

(** The blob an upload of the source object's bytes leaves behind. *)
Definition uploaded_blob (o : S3Object) : GcsBlob :=
  {| gcs_data := s3_body o;
     gcs_content_type := content_type_of o;
     gcs_md5_hash := Some (Base64.b64encode (md5 (s3_body o))) |}.

(** The test of line 63 on what was read from the source object. *)
Definition mismatch (o : S3Object) : bool :=
  negb (String.eqb (Text.hex (md5 (s3_body o))) (etag_of o))
  && negb (composite (etag_of o)).

(** The test of line 38 on a destination blob. *)
Definition already_there (o : S3Object) (hex : string) : bool :=
  String.eqb hex (etag_of o) || composite (etag_of o).

(** The calls of a transfer up to and including the upload, after the
    calls [pre] of the checks: [n] reads, then the upload of the whole
    payload. *)
Definition transfer_calls (b k : string) (o : S3Object) (pre : list call)
    (n : nat) : list call :=
  pre ++ GetObject b k :: repeat (BodyRead CHUNK_SIZE) n
    ++ [BlobUpload k (content_type_of o) (s3_body o)].

(** The hasher and the spool file were fed the same chunks, which make up
    the payload. *)
Definition streamed (o : S3Object) (evs : list event) : Prop :=
  hash_updates evs = spool_writes evs
  /\ concat (hash_updates evs) = s3_body o.

(** How lines 43-69 can go for the source object [o], started in a world
    that has the stores of [w], after the calls [pre]. *)
Inductive transfer_path (b k : string) (o : S3Object) (pre : list call)
    (w : World) : outcome string -> World -> list event -> Prop :=
| TP_get_fault f w' evs :
    faulted w f -> frame w w' -> gcs_objects w' = gcs_objects w ->
    calls evs = pre ++ [GetObject b k] ->
    transfer_path b k o pre w (Raise (exn_of_fault f)) w' evs
| TP_read_fault f n w' evs :
    faulted w f -> frame w w' -> gcs_objects w' = gcs_objects w ->
    calls evs = pre ++ GetObject b k :: repeat (BodyRead CHUNK_SIZE) n ->
    transfer_path b k o pre w (Raise (exn_of_fault f)) w' evs
| TP_upload_fault f n w' evs :
    faulted w f -> frame w w' -> gcs_objects w' = gcs_objects w ->
    calls evs = transfer_calls b k o pre n -> streamed o evs ->
    transfer_path b k o pre w (Raise (UploadFailed (exn_of_fault f))) w' evs
| TP_delete_fault f n w' evs :
    mismatch o = true -> faulted w f -> frame w w' ->
    gcs_objects w' = <[k := uploaded_blob o]> (gcs_objects w) ->
    calls evs = transfer_calls b k o pre n ++ [BlobDelete k] ->
    streamed o evs ->
    transfer_path b k o pre w (Raise (exn_of_fault f)) w' evs
| TP_mismatch n w' evs :
    mismatch o = true -> frame w w' ->
    gcs_objects w' = delete k (<[k := uploaded_blob o]> (gcs_objects w)) ->
    calls evs = transfer_calls b k o pre n ++ [BlobDelete k] ->
    streamed o evs ->
    transfer_path b k o pre w (Raise IntegrityMismatch) w' evs
| TP_replicated n w' evs :
    mismatch o = false -> frame w w' ->
    gcs_objects w' = <[k := uploaded_blob o]> (gcs_objects w) ->
    calls evs = transfer_calls b k o pre n -> streamed o evs ->
    transfer_path b k o pre w
      (Return (msg_replicated k (gcs_bucket_name w))) w' evs.

(** The checks let the transfer start: nothing at the destination key, or
    a blob whose digest does not settle the matter. [pre] is the calls
    made up to there. *)
Definition proceeds (b k : string) (o : S3Object) (w : World)
    (pre : list call) : Prop :=
  (gcs_objects w !! k = None /\ pre = [HeadObject b k; BlobExists k])
  \/ (exists blob hex,
        gcs_objects w !! k = Some blob /\ digest_hex blob = Some hex
        /\ already_there o hex = false
        /\ pre = [HeadObject b k; BlobExists k; BlobReload k]).

(** How one attempt can go from [w]. *)
Inductive attempt_path (b k : string) (w : World)
    : outcome string -> World -> list event -> Prop :=
| AP_head_fault f w' evs :
    next_fault w = Some f ->
    frame w w' -> gcs_objects w' = gcs_objects w ->
    calls evs = [HeadObject b k] ->
    attempt_path b k w (Raise (head_exn f)) w' evs
| AP_not_found w' evs :
    next_fault w = None -> s3_objects w !! (b, k) = None ->
    frame w w' -> gcs_objects w' = gcs_objects w ->
    calls evs = [HeadObject b k] ->
    attempt_path b k w (Raise SourceNotFound) w' evs
| AP_exists_fault o f w' evs :
    next_fault w = None -> s3_objects w !! (b, k) = Some o ->
    faulted w f ->
    frame w w' -> gcs_objects w' = gcs_objects w ->
    calls evs = [HeadObject b k; BlobExists k] ->
    attempt_path b k w (Raise (exn_of_fault f)) w' evs
| AP_reload_fault o blob f w' evs :
    next_fault w = None -> s3_objects w !! (b, k) = Some o ->
    gcs_objects w !! k = Some blob -> faulted w f ->
    frame w w' -> gcs_objects w' = gcs_objects w ->
    calls evs = [HeadObject b k; BlobExists k; BlobReload k] ->
    attempt_path b k w (Raise (exn_of_fault f)) w' evs
| AP_bad_digest o blob msg w' evs :
    next_fault w = None -> s3_objects w !! (b, k) = Some o ->
    gcs_objects w !! k = Some blob -> digest_hex blob = None ->
    frame w w' -> gcs_objects w' = gcs_objects w ->
    calls evs = [HeadObject b k; BlobExists k; BlobReload k] ->
    attempt_path b k w (Raise (OtherException msg)) w' evs
| AP_skip o blob hex w' evs :
    next_fault w = None -> s3_objects w !! (b, k) = Some o ->
    gcs_objects w !! k = Some blob -> digest_hex blob = Some hex ->
    already_there o hex = true ->
    frame w w' -> gcs_objects w' = gcs_objects w ->
    calls evs = [HeadObject b k; BlobExists k; BlobReload k] ->
    hash_updates evs = [] -> spool_writes evs = [] ->
    attempt_path b k w (Return msg_skip) w' evs
| AP_transfer o pre r w' evs :
    next_fault w = None -> s3_objects w !! (b, k) = Some o ->
    proceeds b k o w pre ->
    transfer_path b k o pre w r w' evs ->
    attempt_path b k w r w' evs.

End Paths.

(* ===================================================================== *)
(** * Notions the properties are stated with *)
(* ===================================================================== *)

(** The payloads of the uploads among some calls, in order. *)
Fixpoint uploaded_to (k : string) (cs : list call) : list bytes :=
  match cs with
  | [] => []
  | BlobUpload k' _ data :: cs' =>
      if String.eqb k' k then data :: uploaded_to k cs' else uploaded_to k cs'
  | _ :: cs' => uploaded_to k cs'
  end.

(** Some upload was issued. *)
Definition transfers (cs : list call) : bool :=
  existsb (fun c => match c with BlobUpload _ _ _ => true | _ => false end) cs.

(** Some delete was issued. *)
Definition deletes (cs : list call) : bool := existsb is_delete cs.

(** The result is the failure of a client call: the call's own exception,
    or the upload handler's wrapping of one. *)
Definition client_failure (r : outcome string) : bool :=
  match r with
  | Raise (ClientError _ _) | Raise (GoogleAPIError _)
  | Raise (OtherException _) => true
  | Raise (ValueError msg) => Text.starts_with "Upload error: " msg
  | _ => false
  end.

(** The source metadata lookup of a run from [w] reports not-found: the
    object is missing, or the client raises its 404 error. *)
Definition source_not_found (b k : string) (w : World) : Prop :=
  (next_fault w = None /\ s3_objects w !! (b, k) = None)
  \/ (exists msg, next_fault w = Some (FClientError "404" msg)).


Definition newline : ascii := Eval cbv in ascii_of_nat 10.

Definition ParamValidationError (report : string) : fault :=
  FOther ("Parameter validation failed:" +:+ String newline report).


(** The reads the loop of lines 49-51 makes on a payload: one for each
    chunk of [amt] bytes, the last chunk possibly shorter, and the read
    that returns no bytes and ends the loop. *)
Definition reads_of (amt : N) (body : bytes) : nat :=
  S (N.to_nat ((N.of_nat (length body) + amt - 1) / amt)).

(** The number of calls an attempt makes before the upload of the source
    object [o], after the calls [pre] of the checks: the download and the
    reads. *)
Definition upload_slot (pre : list call) (o : S3Object) : nat :=
  length pre + S (reads_of CHUNK_SIZE (s3_body o)).

(** The destination holds a blob for [k] that line 38 accepts for the
    source object: the state in which a run skips. *)
Definition settled (b k : string) (w : World) : Prop :=
  exists o blob hex,
    s3_objects w !! (b, k) = Some o
    /\ gcs_objects w !! k = Some blob
    /\ digest_hex blob = Some hex
    /\ already_there o hex = true.

(* ===================================================================== *)
(** * Sample worlds *)
(* ===================================================================== *)

Module Demo.

(** An ETag as S3 sends it: wrapped in double quotes. *)
Definition quoted (s : string) : string :=
  String Text.dquote (s +:+ String Text.dquote "").

(** A small object whose ETag is the MD5 of its bytes. *)
Definition logo : S3Object :=
  {| s3_etag := quoted "900150983cd24fb0d6963f7d28e17f72";
     s3_body := list_byte_of_string "abc";
     s3_content_type := Some "image/png" |}.

(** Another payload under a plain ETag. *)
Definition greeting : S3Object :=
  {| s3_etag := quoted "5eb63bbbe01eeed093cb22bb8f5acdc3";
     s3_body := list_byte_of_string "hello world";
     s3_content_type := Some "text/plain" |}.

(** An object uploaded in two parts: its ETag is composite. *)
Definition report : S3Object :=
  {| s3_etag := quoted "0f343b0931126a20f133d67c2b018a3b-2";
     s3_body := list_byte_of_string "hello world";
     s3_content_type := None |}.

(** An object whose ETag is not the MD5 of the bytes the stream delivers. *)
Definition damaged : S3Object :=
  {| s3_etag := quoted "ffffffffffffffffffffffffffffffff";
     s3_body := list_byte_of_string "abc";
     s3_content_type := Some "text/csv" |}.

Definition source : gmap (string * string) S3Object :=
  <[("src", "img/logo.png") := logo]>
    (<[("src", "reports/q1.csv") := report]>
       (<[("src", "tmp/damaged.bin") := damaged]> ∅)).

Definition world_of (src : gmap (string * string) S3Object)
    (dst : gmap string GcsBlob) (schedule : list (option fault)) : World :=
  {| s3_objects := src; gcs_bucket_name := "dst"; gcs_objects := dst;
     faults := schedule;
     uuid_source := fun _ => "1b4e28ba-2fa1-4d3b-a3f5-ef19b5a7633b";
     uuid_count := 0 |}.

(** The sample source store, an empty destination bucket and the given
    schedule of failures. *)
Definition world (schedule : list (option fault)) : World :=
  world_of source ∅ schedule.

Definition unavailable : fault := FGoogleAPIError "503 Service Unavailable".
Definition slow_down : fault :=
  FClientError "SlowDown" "An error occurred (SlowDown) when calling the HeadObject operation: Please reduce your request rate.".

(** The client rejects the empty key of the first call, as botocore
    does. *)
Definition validating : World :=
  world [Some (ParamValidationError
                 "Invalid length for parameter Key, value: 0, valid min length: 1")].

(** The destination answers the upload with a 503, after five calls that
    go through (lookup, existence check, download, two reads). *)
Definition upload_outage : World :=
  world [None; None; None; None; None; Some unavailable].

(** The same 503, met by the existence check of each attempt instead. *)
Definition exists_outage : World :=
  world [None; Some unavailable; None; Some unavailable;
         None; Some unavailable].

(** Two worlds that differ only in the payload stored under one key. *)
Definition world_a : World :=
  world_of (<[("src", "k") := logo]> ∅) ∅ [].
Definition world_b : World :=
  world_of (<[("src", "k") := greeting]> ∅) ∅ [].

Definition run_logo := replicate_file_attempt MD5.digest "src" "img/logo.png" (world []).
Definition run_damaged := replicate_file_attempt MD5.digest "src" "tmp/damaged.bin" (world []).
Definition run_report := replicate_file_attempt MD5.digest "src" "reports/q1.csv" (world []).
Definition run_outage := replicate_file_attempt MD5.digest "src" "img/logo.png" upload_outage.
Definition call_logo := replicate_file MD5.digest "src" "img/logo.png" (world []).
Definition call_logo_again := replicate_file MD5.digest "src" "img/logo.png" (call_logo.1.2).
Definition call_missing := replicate_file MD5.digest "src" "no/such/key" (world []).
Definition call_outage := replicate_file MD5.digest "src" "img/logo.png" upload_outage.
Definition call_exists_outage := replicate_file MD5.digest "src" "img/logo.png" exists_outage.
Definition call_empty_key_rejected :=
  replicate_file MD5.digest "src" "" validating.
Definition call_report := replicate_file MD5.digest "src" "reports/q1.csv" (world []).
Definition run_a := replicate_file_attempt MD5.digest "src" "k" world_a.
Definition run_b := replicate_file_attempt MD5.digest "src" "k" world_b.

End Demo.

(* ===================================================================== *)
(** * More notions: chunks, lookups, what a run leaves behind *)
(* ===================================================================== *)

(** The source metadata lookups among some calls. *)
Fixpoint lookups (cs : list call) : nat :=
  match cs with
  | [] => 0
  | HeadObject _ _ :: cs' => S (lookups cs')
  | _ :: cs' => lookups cs'
  end.

(** The messages logged, in order. *)
Fixpoint logs (evs : list event) : list string :=
  match evs with
  | [] => []
  | EvLog _ msg :: evs' => msg :: logs evs'
  | _ :: evs' => logs evs'
  end.

(** The log message carries the correlation id [corr_id]. *)
Definition tagged (corr_id : string) (ev : event) : Prop :=
  match ev with
  | EvLog _ msg => exists text, msg = tag corr_id text
  | _ => True
  end.

(** A chunk as the read loop hands it on: not empty, at most [amt] bytes. *)
Definition chunk_ok (amt : N) (chunk : bytes) : Prop :=
  chunk <> [] /\ length chunk <= N.to_nat amt.

(** [emits P m]: every event of every run of [m], whatever fails,
    satisfies [P]. *)
Definition emits {A} (P : event -> Prop) (m : M A) : Prop :=
  forall w, wp m w (fun _ _ evs => Forall P evs).

(** The call is made on the source object [b]/[k], on its body, or on
    the destination blob [k]. *)
Definition concerns (b k : string) (c : call) : Prop :=
  match c with
  | HeadObject b' k' | GetObject b' k' => b' = b /\ k' = k
  | BodyRead _ => True
  | BlobExists k' | BlobReload k' | BlobDelete k' => k' = k
  | BlobUpload k' _ _ => k' = k
  end.

(** What a call of [replicate_file] on [b]/[k] may do: calls that concern
    [b]/[k], and proper chunks of at most [amt] bytes to the hasher and
    the spool file. *)
Definition proper_event (b k : string) (amt : N) (ev : event) : Prop :=
  match ev with
  | EvCall c => concerns b k c
  | EvHashUpdate chunk | EvSpoolWrite chunk => chunk_ok amt chunk
  | _ => True
  end.

(** The calls of the checks that come before a transfer. *)
Definition is_check (c : call) : bool :=
  match c with
  | HeadObject _ _ | BlobExists _ | BlobReload _ => true
  | _ => false
  end.

(** What [base64.b64decode] raises for [None]. *)
Definition TypeError_NoneType : exn :=
  OtherException "TypeError: argument should be a bytes-like object or ASCII string, not 'NoneType'".

(** The exception classes the retry wrapper lets through to the caller
    as they are. *)
Definition terminal (r : outcome string) : bool :=
  match r with
  | Return _ => true
  | Raise e => negb (retry_if_exception_type e)
  end.

Section RetryPaths.

Context {A : Type}.
Variable wait : nat -> N.
Variable retry : exn -> bool.
Variable fn : M A.

(** How the loop of the retry wrapper can go from attempt [n] on, when
    [more] attempts may follow it: it ends with the attempt, gives up
    after it, or sleeps and goes on. *)
Inductive retry_path
    : nat -> nat -> World -> outcome A -> World -> list event -> Prop :=
| RP_return more n w a w1 evs :
    fn w = (Return a, w1, evs) ->
    retry_path more n w (Return a) w1 (EvAttempt n :: evs)
| RP_reraise more n w e w1 evs :
    fn w = (Raise e, w1, evs) -> retry e = false ->
    retry_path more n w (Raise e) w1 (EvAttempt n :: evs)
| RP_exhausted n w e w1 evs :
    fn w = (Raise e, w1, evs) -> retry e = true ->
    retry_path 0 n w (Raise (RetryError e)) w1 (EvAttempt n :: evs)
| RP_again more n w e w1 evs r w2 evs2 :
    fn w = (Raise e, w1, evs) -> retry e = true ->
    retry_path more (S n) w1 r w2 evs2 ->
    retry_path (S more) n w r w2
      (EvAttempt n :: evs ++ EvSleep (wait n) :: evs2).

End RetryPaths.

(* ===================================================================== *)
(** * [app/config.py]: the checks made when the module is imported *)
(* ===================================================================== *)

Module Config.

Definition REQUIRED_VARS : list string :=
  ["AWS_ACCESS_KEY_ID"; "AWS_SECRET_ACCESS_KEY"; "AWS_REGION";
   "GCP_SERVICE_ACCOUNT_JSON"; "TARGET_GCS_BUCKET"].

(** [load_dotenv()] with its defaults: the variables of the [.env] file
    enter the environment, except those the environment already sets. *)
Definition load_dotenv (dotenv environ : gmap string string)
    : gmap string string :=
  environ ∪ dotenv.

(** [os.getenv(var)]. *)
Definition getenv (environ : gmap string string) (var : string)
    : option string :=
  environ !! var.

(** Truth value of an optional string: [None] and [""] are false. *)
Definition truthy (v : option string) : bool :=
  match v with
  | Some (String _ _) => true
  | _ => false
  end.

Definition missing_var (var : string) : exn :=
  ValueError ("Missing required env var: " +:+ var +:+ ". Check .env file.").

(** Lines 13-15: the loop over the required variables, which raises at
    the first one that is unset or empty. *)
Fixpoint check_required (environ : gmap string string) (vars : list string)
    : outcome unit :=
  match vars with
  | [] => Return tt
  | var :: vars' =>
      if negb (truthy (getenv environ var)) then Raise (missing_var var)
      else check_required environ vars'
  end.

(** What the module hands to the client constructors. *)
Record Settings := {
  aws_access_key_id : option string;
  aws_secret_access_key : option string;
  region_name : option string;
  gcp_creds_path : string;
  target_bucket : option string;
}.

Definition creds_not_found (path : string) : exn :=
  ValueError ("GCP service account JSON not found at: " +:+ path).

(** The calls of lines 18-31 into the client libraries. Each of them
    either returns, [None] here, or raises (boto3 for a region name it
    rejects, the credentials loader for a file it cannot parse, the
    bucket constructor for a name it rejects); the module catches
    nothing. *)
Record Libraries := {
  (** [boto3.client('s3', aws_access_key_id=..., aws_secret_access_key=...,
      region_name=...)] *)
  boto3_client : option string -> option string -> option string
                 -> option exn;
  (** [Credentials.from_service_account_file(path)] *)
  from_service_account_file : string -> option exn;
  (** [storage.Client(credentials=credentials)], for the credentials of
      the file at the path *)
  storage_client : string -> option exn;
  (** [gcs_client.bucket(name)] *)
  bucket : option string -> option exn;
}.

(** The module body: [dotenv] is the content of the [.env] file,
    [environ] the process environment, [files] the paths that exist.
    [Return] carries the arguments the clients were built from. *)
Definition load (lib : Libraries) (dotenv environ : gmap string string)
    (files : gset string) : outcome Settings :=
  let environ := load_dotenv dotenv environ in
  match check_required environ REQUIRED_VARS with
  | Raise e => Raise e
  | Return _ =>
      match boto3_client lib (getenv environ "AWS_ACCESS_KEY_ID")
              (getenv environ "AWS_SECRET_ACCESS_KEY")
              (getenv environ "AWS_REGION") with
      | Some e => Raise e
      | None =>
          match getenv environ "GCP_SERVICE_ACCOUNT_JSON" with
          | None =>
              Raise (OtherException "TypeError: stat: path should be string, bytes, os.PathLike or integer, not NoneType")
          | Some path =>
              if negb (bool_decide (path ∈ files))
              then Raise (creds_not_found path)
              else
                match from_service_account_file lib path with
                | Some e => Raise e
                | None =>
                    match storage_client lib path with
                    | Some e => Raise e
                    | None =>
                        match bucket lib (getenv environ "TARGET_GCS_BUCKET")
                        with
                        | Some e => Raise e
                        | None =>
                            Return
                              {| aws_access_key_id :=
                                   getenv environ "AWS_ACCESS_KEY_ID";
                                 aws_secret_access_key :=
                                   getenv environ "AWS_SECRET_ACCESS_KEY";
                                 region_name := getenv environ "AWS_REGION";
                                 gcp_creds_path := path;
                                 target_bucket :=
                                   getenv environ "TARGET_GCS_BUCKET" |}
                        end
                    end
                end
          end
      end
  end.

(** The value the import sees for [var]: the one the environment sets,
    or else the one of the [.env] file. *)
Definition setting (dotenv environ : gmap string string) (var : string)
    : option string :=
  match environ !! var with
  | Some v => Some v
  | None => dotenv !! var
  end.

End Config.

(* ===================================================================== *)
(** * More sample worlds *)
(* ===================================================================== *)

Module Tour.

(** The source store answers the first lookup with a throttling error and
    works from then on. *)
Definition flaky : World := Demo.world [Some Demo.slow_down].

(** A blob left at the destination by an earlier copy of other bytes. *)
Definition stale_blob : GcsBlob :=
  {| gcs_data := list_byte_of_string "hello world";
     gcs_content_type := "text/plain";
     gcs_md5_hash := Some "XrY7u+Ae7tCTyyK7j1rNww==" |}.

(** A composite blob of the destination: the store reports no MD5. *)
Definition composed_blob : GcsBlob :=
  {| gcs_data := list_byte_of_string "hello world";
     gcs_content_type := "text/plain";
     gcs_md5_hash := None |}.

Definition neighbour : GcsBlob :=
  {| gcs_data := list_byte_of_string "keep me";
     gcs_content_type := "text/plain";
     gcs_md5_hash := Some "PXi9cJl7PP10lKHDzl5kYw==" |}.

(** The sample source store and a destination that holds stale blobs
    under two of its keys and a blob of its own under a third. *)
Definition stale : World :=
  Demo.world_of Demo.source
    (<["img/logo.png" := stale_blob]>
       (<["tmp/damaged.bin" := stale_blob]>
          (<["other/key" := neighbour]> ∅))) [].

Definition composed : World :=
  Demo.world_of Demo.source (<["reports/q1.csv" := composed_blob]> ∅) [].

(** A blob of other bytes under the key of a source object whose digest
    is composite. *)
Definition outdated : World :=
  Demo.world_of Demo.source (<["reports/q1.csv" := neighbour]> ∅) [].


Definition call_flaky := replicate_file MD5.digest "src" "img/logo.png" flaky.
Definition call_stale := replicate_file MD5.digest "src" "img/logo.png" stale.
Definition run_stale := replicate_file_attempt MD5.digest "src" "img/logo.png" stale.
Definition run_stale_damaged :=
  replicate_file_attempt MD5.digest "src" "tmp/damaged.bin" stale.
Definition call_outdated :=
  replicate_file MD5.digest "src" "reports/q1.csv" outdated.
Definition call_composed :=
  replicate_file MD5.digest "src" "reports/q1.csv" composed.

(** A payload of five bytes read two bytes at a time. *)
Definition read_five :=
  read_chunks 2 (list_byte_of_string "abcde") []
    (SpooledTemporaryFile 4) (Demo.world []).

Definition dotenv : gmap string string :=
  <["AWS_ACCESS_KEY_ID" := "AKIAEXAMPLE"]>
    (<["AWS_SECRET_ACCESS_KEY" := "secret"]>
       (<["AWS_REGION" := "eu-west-1"]>
          (<["GCP_SERVICE_ACCOUNT_JSON" := "/etc/sync/sa.json"]>
             (<["TARGET_GCS_BUCKET" := "dst"]> ∅)))).

Definition files : gset string := {["/etc/sync/sa.json"]}.

(** An environment that overrides the bucket of the [.env] file, and one
    that blanks its region. *)
Definition environ : gmap string string :=
  {["TARGET_GCS_BUCKET" := "mirror"]}.
Definition blank_region : gmap string string := {["AWS_REGION" := ""]}.

(** Libraries that accept whatever they are given. *)
Definition libraries : Config.Libraries :=
  {| Config.boto3_client := fun _ _ _ => None;
     Config.from_service_account_file := fun _ => None;
     Config.storage_client := fun _ => None;
     Config.bucket := fun _ => None |}.

(** The same, with a boto3 that rejects the region name of [spaced]. *)
Definition invalid_region : exn :=
  OtherException "InvalidRegionError: Provided region_name 'us east 1' doesn't match a supported format.".

Definition picky : Config.Libraries :=
  {| Config.boto3_client := fun _ _ region =>
       match region with
       | Some "us east 1" => Some invalid_region
       | _ => None
       end;
     Config.from_service_account_file := fun _ => None;
     Config.storage_client := fun _ => None;
     Config.bucket := fun _ => None |}.

Definition spaced : gmap string string := {["AWS_REGION" := "us east 1"]}.

Definition settings : Config.Settings :=
  {| Config.aws_access_key_id := Some "AKIAEXAMPLE";
     Config.aws_secret_access_key := Some "secret";
     Config.region_name := Some "eu-west-1";
     Config.gcp_creds_path := "/etc/sync/sa.json";
     Config.target_bucket := Some "mirror" |}.

End Tour.

(* ===================================================================== *)
(** * The library models on known values *)
(* ===================================================================== *)

Example hex_example : Text.hex [x00; xff; x1a] = "00ff1a".
Proof. reflexivity. Qed.

Example strip_example :
  Text.strip Text.dquote (Demo.quoted "ab-2") = "ab-2"
  /\ Text.contains Text.dash "ab-2" = true.
Proof. split; reflexivity. Qed.

Example b64_example :
  Base64.b64encode [x68; x69; x21; x0a] = "aGkhCg=="
  /\ Base64.b64decode "aGkhCg==" = Some [x68; x69; x21; x0a]
  /\ Base64.b64decode "aGk hCg==" = Some [x68; x69; x21; x0a]
  /\ Base64.b64decode "aGk hCg" = None.
Proof. repeat split; reflexivity. Qed.

Example md5_vectors :
  Text.hex (MD5.digest []) = "d41d8cd98f00b204e9800998ecf8427e"
  /\ Text.hex (MD5.digest (list_byte_of_string "abc"))
     = "900150983cd24fb0d6963f7d28e17f72"
  /\ Text.hex (MD5.digest (list_byte_of_string "hello world"))
     = "5eb63bbbe01eeed093cb22bb8f5acdc3"
  /\ Text.hex (MD5.digest (repeat "a"%byte 56))
     = "3b0c8ac703f828b04c6c197006d17218"
  /\ Text.hex (MD5.digest (repeat "x"%byte 130))
     = "cfc92f41305ca00c9f9584bf67ae1b54"
  /\ Base64.b64encode (MD5.digest (list_byte_of_string "abc"))
     = "kAFQmDzST7DWlj99KOF/cg==".
Proof. repeat split; vm_compute; reflexivity. Qed.

Example wait_exponential_example :
  map (wait_exponential 1 2 10) [1; 2; 3; 4; 5] = [2; 2; 4; 8; 10]%N.
Proof. reflexivity. Qed.

(* ===================================================================== *)
(** * Base64: decoding what the store encoded *)
(* ===================================================================== *)

Section Base64Facts.

Import Base64.

Local Open Scope N_scope.

Lemma sextets_ok : forallb sextet_ok (map N.of_nat (seq 0 64)) = true.
Proof. vm_compute. reflexivity. Qed.

Lemma sextet_ok_lt n : n < 64 -> sextet_ok n = true.
Proof.
  intros Hn. pose proof sextets_ok as H. rewrite forallb_forall in H.
  apply H. apply in_map_iff. exists (N.to_nat n). split; [lia|].
  apply in_seq. lia.
Qed.

Lemma sextet_of_char_of_sextet n :
  n < 64 -> sextet_of_char (char_of_sextet n) = Some n.
Proof.
  intros Hn. pose proof (sextet_ok_lt n Hn) as H. unfold sextet_ok in H.
  apply andb_prop in H as [H _]. apply andb_prop in H as [H _].
  destruct (sextet_of_char (char_of_sextet n)); [|discriminate].
  apply N.eqb_eq in H. now subst.
Qed.

Lemma char_of_sextet_not_pad n :
  n < 64 -> Ascii.eqb (char_of_sextet n) pad = false.
Proof.
  intros Hn. pose proof (sextet_ok_lt n Hn) as H. unfold sextet_ok in H.
  apply andb_prop in H as [H _]. apply andb_prop in H as [_ H].
  now apply negb_true_iff in H.
Qed.

Lemma char_of_sextet_ascii n : n < 64 -> is_ascii (char_of_sextet n) = true.
Proof.
  intros Hn. pose proof (sextet_ok_lt n Hn) as H. unfold sextet_ok in H.
  now apply andb_prop in H as [_ H].
Qed.

(** Bits that do not overlap add up. *)
Lemma lor_shiftl_low a b k : b < 2 ^ k -> N.lor (N.shiftl a k) b = a * 2 ^ k + b.
Proof.
  intros Hb. rewrite <- N.shiftl_mul_pow2.
  rewrite <- N.lxor_lor, <- N.add_nocarry_lxor; trivial.
  all: apply N.bits_inj; intros i; rewrite N.land_spec, N.bits_0.
  all: destruct (N.lt_ge_cases i k) as [Hi|Hi].
  all: try (rewrite N.shiftl_spec_low by trivial; reflexivity).
  all: rewrite <- (N.mod_small b (2 ^ k)) by trivial.
  all: rewrite N.mod_pow2_bits_high by trivial; apply andb_false_r.
Qed.

Lemma byte_of_to_N b : byte_of_N (Byte.to_N b) = b.
Proof.
  unfold byte_of_N. pose proof (Byte.to_N_bounded b).
  rewrite N.mod_small by lia. now rewrite Byte.of_to_N.
Qed.


Ltac b64_arith := zify; Z.to_euclidean_division_equations; lia.

Lemma decode_first n0 s1 :
  n0 <= 255 -> s1 / 16 = n0 mod 4 ->
  N.lor (N.shiftl (n0 / 4) 2) (N.shiftr s1 4) = n0.
Proof.
  intros H0 H1. rewrite N.shiftr_div_pow2, lor_shiftl_low.
  all: change (2 ^ 4) with 16; change (2 ^ 2) with 4; rewrite H1; b64_arith.
Qed.

Lemma decode_second s1 s2 n1 :
  n1 <= 255 -> s1 mod 16 = n1 / 16 -> s2 / 4 = n1 mod 16 ->
  N.lor (N.shiftl (N.land s1 15) 4) (N.shiftr s2 2) = n1.
Proof.
  intros H1 Hs1 Hs2. change 15 with (N.ones 4).
  rewrite N.land_ones, N.shiftr_div_pow2, lor_shiftl_low.
  all: change (2 ^ 4) with 16; change (2 ^ 2) with 4; rewrite ?Hs1, Hs2; b64_arith.
Qed.

Lemma decode_third s2 n2 :
  n2 <= 255 -> s2 mod 4 = n2 / 64 ->
  N.lor (N.shiftl (N.land s2 3) 6) (n2 mod 64) = n2.
Proof.
  intros H2 Hs2. change 3 with (N.ones 2).
  rewrite N.land_ones, lor_shiftl_low.
  all: change (2 ^ 6) with 64; change (2 ^ 2) with 4; rewrite ?Hs2; b64_arith.
Qed.

(** One step of the decoder on an alphabet character. *)
Lemma a2b_base64_sextet q l p n s :
  n < 64 ->
  a2b_base64 q l p (char_of_sextet n :: s) =
  match q with
  | 0%nat => a2b_base64 1 n 0 s
  | 1%nat =>
      cons (byte_of_N (N.lor (N.shiftl l 2) (N.shiftr n 4)))
        <$> a2b_base64 2 (N.land n 15) 0 s
  | 2%nat =>
      cons (byte_of_N (N.lor (N.shiftl l 4) (N.shiftr n 2)))
        <$> a2b_base64 3 (N.land n 3) 0 s
  | _ => cons (byte_of_N (N.lor (N.shiftl l 6) n)) <$> a2b_base64 0 0 0 s
  end.
Proof.
  intros Hn. cbn [a2b_base64].
  now rewrite char_of_sextet_not_pad, sextet_of_char_of_sextet.
Qed.

Lemma bytes_ind3 (P : bytes -> Prop) :
  P [] -> (forall a, P [a]) -> (forall a b, P [a; b]) ->
  (forall a b c l, P l -> P (a :: b :: c :: l)) ->
  forall l, P l.
Proof.
  intros H0 H1 H2 H3.
  fix IH 1. intros [|a [|b [|c l]]]; [exact H0 | exact (H1 a) | exact (H2 a b) |].
  apply H3. apply IH.
Qed.

Lemma a2b_base64_encode bs l :
  a2b_base64 0 l 0 (b64encode_chars bs) = Some bs.
Proof.
  revert l. induction bs as [|a|a b|a b c rest IH] using bytes_ind3; intros l.
  - reflexivity.
  - cbn [b64encode_chars]. pose proof (Byte.to_N_bounded a) as Ha.
    rewrite !a2b_base64_sextet by b64_arith.
    cbn. rewrite decode_first by b64_arith. now rewrite byte_of_to_N.
  - cbn [b64encode_chars]. pose proof (Byte.to_N_bounded a) as Ha.
    pose proof (Byte.to_N_bounded b) as Hb.
    rewrite !a2b_base64_sextet by b64_arith.
    cbn. rewrite decode_first, (decode_second _ _ (Byte.to_N b)) by b64_arith.
    now rewrite !byte_of_to_N.
  - cbn [b64encode_chars]. pose proof (Byte.to_N_bounded a) as Ha.
    pose proof (Byte.to_N_bounded b) as Hb. pose proof (Byte.to_N_bounded c) as Hc.
    rewrite !a2b_base64_sextet by b64_arith.
    rewrite IH. cbn.
    rewrite decode_first, (decode_second _ _ (Byte.to_N b)), decode_third
      by b64_arith.
    now rewrite !byte_of_to_N.
Qed.

Lemma b64encode_chars_ascii bs : forallb is_ascii (b64encode_chars bs) = true.
Proof.
  induction bs as [|a|a b|a b c rest IH] using bytes_ind3.
  - reflexivity.
  - cbn [b64encode_chars forallb]. pose proof (Byte.to_N_bounded a).
    rewrite !char_of_sextet_ascii by b64_arith. reflexivity.
  - cbn [b64encode_chars forallb]. pose proof (Byte.to_N_bounded a).
    pose proof (Byte.to_N_bounded b).
    rewrite !char_of_sextet_ascii by b64_arith. reflexivity.
  - cbn [b64encode_chars forallb]. pose proof (Byte.to_N_bounded a).
    pose proof (Byte.to_N_bounded b). pose proof (Byte.to_N_bounded c).
    rewrite !char_of_sextet_ascii by b64_arith. now rewrite IH.
Qed.

(** [base64.b64decode] gives back the bytes the store encoded. *)
Lemma b64decode_b64encode bs : b64decode (b64encode bs) = Some bs.
Proof.
  unfold b64decode, b64encode. rewrite list_ascii_of_string_of_list_ascii.
  rewrite b64encode_chars_ascii. apply a2b_base64_encode.
Qed.

End Base64Facts.

(* ===================================================================== *)
(** * Reasoning about runs *)
(* ===================================================================== *)

Lemma wp_run {A} (m : M A) w Q r w' evs :
  wp m w Q -> m w = (r, w', evs) -> Q r w' evs.
Proof. unfold wp. intros H E. now rewrite E in H. Qed.

Lemma wp_intro {A} (m : M A) w (Q : outcome A -> World -> list event -> Prop) :
  (forall r w' evs, m w = (r, w', evs) -> Q r w' evs) -> wp m w Q.
Proof. unfold wp. intros H. destruct (m w) as [[r w'] evs]. now apply H. Qed.

Lemma wp_mono {A} (m : M A) w (Q Q' : outcome A -> World -> list event -> Prop) :
  wp m w Q -> (forall r w' evs, Q r w' evs -> Q' r w' evs) -> wp m w Q'.
Proof. unfold wp. destruct (m w) as [[r w'] evs]. auto. Qed.

Lemma wp_ret {A} (a : A) w Q : Q (Return a) w [] -> wp (ret a) w Q.
Proof. exact id. Qed.

Lemma wp_raise {A} e w (Q : outcome A -> World -> list event -> Prop) :
  Q (Raise e) w [] -> wp (raise e) w Q.
Proof. exact id. Qed.

Lemma wp_tell ev w Q : Q (Return tt) w [ev] -> wp (tell ev) w Q.
Proof. exact id. Qed.

Lemma wp_log lvl msg w Q : Q (Return tt) w [EvLog lvl msg] -> wp (log lvl msg) w Q.
Proof. exact id. Qed.

Lemma wp_get_world w Q : Q (Return w) w [] -> wp get_world w Q.
Proof. exact id. Qed.

Lemma wp_put_world w1 w Q : Q (Return tt) w1 [] -> wp (put_world w1) w Q.
Proof. exact id. Qed.

Lemma wp_bind {A B} (m : M A) (f : A -> M B) w Q :
  wp m w (fun r w1 ev1 =>
    match r with
    | Return a => wp (f a) w1 (fun r2 w2 ev2 => Q r2 w2 (ev1 ++ ev2))
    | Raise e => Q (Raise e) w1 ev1
    end) ->
  wp (bind m f) w Q.
Proof.
  unfold wp, bind. destruct (m w) as [[[a|e] w1] ev1]; [|exact id].
  destruct (f a w1) as [[r2 w2] ev2]. exact id.
Qed.

Lemma wp_try_except {A} (m : M A) (h : exn -> M A) w Q :
  wp m w (fun r w1 ev1 =>
    match r with
    | Return a => Q (Return a) w1 ev1
    | Raise e => wp (h e) w1 (fun r2 w2 ev2 => Q r2 w2 (ev1 ++ ev2))
    end) ->
  wp (try_except m h) w Q.
Proof.
  unfold wp, try_except. destruct (m w) as [[[a|e] w1] ev1]; [exact id|].
  destruct (h e w1) as [[r2 w2] ev2]. exact id.
Qed.

Lemma wp_client_call {A} c (answer : M A) w Q :
  (forall f, next_fault w = Some f ->
             Q (Raise (exn_of_fault f)) (consume w) [EvCall c]) ->
  (next_fault w = None ->
   wp answer (consume w) (fun r w2 ev2 => Q r w2 (EvCall c :: ev2))) ->
  wp (client_call c answer) w Q.
Proof.
  intros Hf Hok. unfold client_call.
  apply wp_bind, wp_tell, wp_bind, wp_get_world, wp_bind, wp_put_world.
  destruct (next_fault w) as [f|].
  - apply wp_raise. cbn. now apply Hf.
  - eapply wp_mono; [now apply Hok|]. now intros.
Qed.

Lemma wp_uuid4 w Q :
  Q (Return (uuid_source w (uuid_count w)))
    (set_uuid_count (S (uuid_count w)) w) [] ->
  wp uuid4 w Q.
Proof. exact id. Qed.

(** ** Frames and schedules *)

Lemma tail_drop {A} n (l : list A) : tail (drop n l) = drop (S n) l.
Proof.
  revert l. induction n as [|n IH]; intros [|a l]; try reflexivity.
  cbn [drop]. rewrite IH. now destruct l.
Qed.

Lemma frame_refl w : frame w w.
Proof. repeat split. now exists 0. Qed.

Lemma frame_trans w1 w2 w3 : frame w1 w2 -> frame w2 w3 -> frame w1 w3.
Proof.
  intros (Hs & Hn & n & Hf) (Hs' & Hn' & n' & Hf'). repeat split; try congruence.
  exists (n + n'). now rewrite Hf', Hf, drop_drop.
Qed.

Lemma frame_consume w w1 : frame w w1 -> frame w (consume w1).
Proof.
  intros (Hs & Hn & n & Hf). repeat split; trivial.
  exists (S n). cbn. now rewrite Hf, tail_drop.
Qed.

Lemma frame_set_uuid_count w w1 c :
  frame w w1 -> frame w (set_uuid_count c w1).
Proof. intros (Hs & Hn & n & Hf). repeat split; trivial. now exists n. Qed.

Lemma frame_set_gcs_objects w w1 m :
  frame w w1 -> frame w (set_gcs_objects m w1).
Proof. intros (Hs & Hn & n & Hf). repeat split; trivial. now exists n. Qed.

Lemma calm_drop n (l : list (option fault)) :
  forallb (fun x => match x with None => true | Some _ => false end) l = true ->
  forallb (fun x => match x with None => true | Some _ => false end) (drop n l)
  = true.
Proof.
  revert l. induction n as [|n IH]; intros [|a l]; cbn; trivial.
  intros H. apply andb_prop in H as [_ H]. now apply IH.
Qed.

Lemma calm_frame w w' : frame w w' -> calm w = true -> calm w' = true.
Proof.
  intros (_ & _ & n & Hf) H. unfold calm in *. rewrite Hf. now apply calm_drop.
Qed.

Lemma calm_next_fault w : calm w = true -> next_fault w = None.
Proof.
  unfold calm, next_fault. destruct (faults w) as [|[f|] fs]; cbn; congruence.
Qed.

Lemma calm_not_faulted w f : calm w = true -> faulted w f -> False.
Proof.
  intros Hc (w1 & Hfr & Hf).
  rewrite (calm_next_fault w1) in Hf by now apply (calm_frame w). discriminate.
Qed.

Ltac frames :=
  repeat lazymatch goal with
  | H : frame ?w ?w1 |- frame ?w ?w1 => exact H
  | |- frame ?w ?w => apply frame_refl
  | |- frame _ (consume _) => apply frame_consume
  | |- frame _ (set_uuid_count _ _) => apply frame_set_uuid_count
  | |- frame _ (set_gcs_objects _ _) => apply frame_set_gcs_objects
  end.

(** ** Projections of traces *)

Lemma calls_app e1 e2 : calls (e1 ++ e2) = calls e1 ++ calls e2.
Proof. induction e1 as [|[] e1 IH]; cbn; congruence. Qed.

Lemma hash_updates_app e1 e2 :
  hash_updates (e1 ++ e2) = hash_updates e1 ++ hash_updates e2.
Proof. induction e1 as [|[] e1 IH]; cbn; congruence. Qed.

Lemma spool_writes_app e1 e2 :
  spool_writes (e1 ++ e2) = spool_writes e1 ++ spool_writes e2.
Proof. induction e1 as [|[] e1 IH]; cbn; congruence. Qed.

Lemma attempts_app e1 e2 : attempts (e1 ++ e2) = attempts e1 ++ attempts e2.
Proof. induction e1 as [|[] e1 IH]; cbn; congruence. Qed.

Lemma sleeps_app e1 e2 : sleeps (e1 ++ e2) = sleeps e1 ++ sleeps e2.
Proof. induction e1 as [|[] e1 IH]; cbn; congruence. Qed.

(** Unfold the projections over the part of a trace that is known. *)
Ltac trace_simpl :=
  repeat (progress
    (cbn [calls hash_updates spool_writes attempts sleeps app];
     rewrite ?calls_app, ?hash_updates_app, ?spool_writes_app,
       ?attempts_app, ?sleeps_app)).

(** ** The spool file *)

Lemma spool_write_end sp chunk :
  spool_pos sp = length (spool_data sp) ->
  spool_data (spool_write sp chunk) = spool_data sp ++ chunk
  /\ spool_pos (spool_write sp chunk) = length (spool_data sp ++ chunk).
Proof.
  intros Hp. unfold spool_write. cbn. rewrite Hp.
  rewrite firstn_all, skipn_all2 by lia.
  rewrite app_nil_r, length_app. auto.
Qed.

Lemma spool_writes_end chunks : forall sp,
  spool_pos sp = length (spool_data sp) ->
  spool_data (fold_left spool_write chunks sp) = spool_data sp ++ concat chunks
  /\ spool_pos (fold_left spool_write chunks sp)
     = length (spool_data sp ++ concat chunks).
Proof.
  induction chunks as [|c cs IH]; intros sp Hp; cbn [fold_left concat].
  - now rewrite app_nil_r.
  - destruct (spool_write_end sp c Hp) as [Hd Hp'].
    destruct (IH (spool_write sp c)) as [Hd2 Hp2]; [congruence|].
    rewrite Hd2, Hp2, Hd, <- !app_assoc. auto.
Qed.

(** Rewinding and reading a fresh spool file gives back all that was
    written to it. *)
Lemma spool_rewind_read chunks max_size :
  spool_read_all
    (spool_seek (fold_left spool_write chunks (SpooledTemporaryFile max_size)) 0)
  = concat chunks.
Proof.
  unfold spool_read_all. cbn [spool_seek spool_pos spool_data drop].
  now destruct (spool_writes_end chunks (SpooledTemporaryFile max_size)).
Qed.

Ltac wp_step :=
  lazymatch goal with
  | |- wp (bind _ _) _ _ => apply wp_bind
  | |- wp (ret _) _ _ => apply wp_ret
  | |- wp (raise _) _ _ => apply wp_raise
  | |- wp (tell _) _ _ => apply wp_tell
  | |- wp (log _ _) _ _ => apply wp_log
  | |- wp (sleep _) _ _ => apply wp_tell
  | |- wp get_world _ _ => apply wp_get_world
  | |- wp (put_world _) _ _ => apply wp_put_world
  | |- wp uuid4 _ _ => apply wp_uuid4
  | |- wp (try_except _ _) _ _ => apply wp_try_except
  end; cbn beta iota.

Ltac wp_steps := repeat wp_step.

(** ** The client calls *)

Lemma wp_head_object b k w Q :
  (forall f, next_fault w = Some f ->
     Q (Raise (exn_of_fault f)) (consume w) [EvCall (HeadObject b k)]) ->
  (next_fault w = None ->
     match s3_objects w !! (b, k) with
     | Some o => Q (Return (s3_etag o)) (consume w) [EvCall (HeadObject b k)]
     | None => forall msg,
         Q (Raise (ClientError "404" msg)) (consume w) [EvCall (HeadObject b k)]
     end) ->
  wp (head_object b k) w Q.
Proof.
  intros Hf Hok. apply wp_client_call; [exact Hf|]. intros Hn.
  specialize (Hok Hn). wp_steps. cbn [s3_objects consume set_faults].
  destruct (s3_objects w !! (b, k)); wp_steps; auto.
Qed.

Lemma wp_get_object b k w Q :
  (forall f, next_fault w = Some f ->
     Q (Raise (exn_of_fault f)) (consume w) [EvCall (GetObject b k)]) ->
  (next_fault w = None ->
     match s3_objects w !! (b, k) with
     | Some o => Q (Return (s3_body o, s3_content_type o)) (consume w)
                   [EvCall (GetObject b k)]
     | None => forall msg,
         Q (Raise (ClientError "NoSuchKey" msg)) (consume w)
           [EvCall (GetObject b k)]
     end) ->
  wp (get_object b k) w Q.
Proof.
  intros Hf Hok. apply wp_client_call; [exact Hf|]. intros Hn.
  specialize (Hok Hn). wp_steps. cbn [s3_objects consume set_faults].
  destruct (s3_objects w !! (b, k)); wp_steps; auto.
Qed.

Lemma wp_blob_exists k w Q :
  (forall f, next_fault w = Some f ->
     Q (Raise (exn_of_fault f)) (consume w) [EvCall (BlobExists k)]) ->
  (next_fault w = None ->
     Q (Return (match gcs_objects w !! k with Some _ => true | None => false end))
       (consume w) [EvCall (BlobExists k)]) ->
  wp (blob_exists k) w Q.
Proof.
  intros Hf Hok. apply wp_client_call; [exact Hf|]. intros Hn.
  specialize (Hok Hn). wp_steps. exact Hok.
Qed.

Lemma wp_blob_reload k w Q :
  (forall f, next_fault w = Some f ->
     Q (Raise (exn_of_fault f)) (consume w) [EvCall (BlobReload k)]) ->
  (next_fault w = None ->
     match gcs_objects w !! k with
     | Some blob => Q (Return (gcs_md5_hash blob)) (consume w)
                      [EvCall (BlobReload k)]
     | None => forall msg,
         Q (Raise (GoogleAPIError msg)) (consume w) [EvCall (BlobReload k)]
     end) ->
  wp (blob_reload k) w Q.
Proof.
  intros Hf Hok. apply wp_client_call; [exact Hf|]. intros Hn.
  specialize (Hok Hn). wp_steps. cbn [gcs_objects consume set_faults].
  destruct (gcs_objects w !! k); wp_steps; auto.
Qed.

Lemma wp_blob_delete k w Q :
  (forall f, next_fault w = Some f ->
     Q (Raise (exn_of_fault f)) (consume w) [EvCall (BlobDelete k)]) ->
  (next_fault w = None ->
     match gcs_objects w !! k with
     | Some blob =>
         Q (Return tt)
           (set_gcs_objects (delete k (gcs_objects w)) (consume w))
           [EvCall (BlobDelete k)]
     | None => forall msg,
         Q (Raise (GoogleAPIError msg)) (consume w) [EvCall (BlobDelete k)]
     end) ->
  wp (blob_delete k) w Q.
Proof.
  intros Hf Hok. apply wp_client_call; [exact Hf|]. intros Hn.
  specialize (Hok Hn). wp_steps. cbn [gcs_objects consume set_faults].
  destruct (gcs_objects w !! k); wp_steps; auto.
Qed.

Lemma wp_blob_upload_from_file md5 k sp ct w Q :
  (forall f, next_fault w = Some f ->
     Q (Raise (exn_of_fault f)) (consume w)
       [EvCall (BlobUpload k ct (spool_read_all sp))]) ->
  (next_fault w = None ->
     Q (Return tt)
       (set_gcs_objects
          (<[k := {| gcs_data := spool_read_all sp; gcs_content_type := ct;
                     gcs_md5_hash :=
                       Some (Base64.b64encode (md5 (spool_read_all sp))) |}]>
             (gcs_objects w)) (consume w))
       [EvCall (BlobUpload k ct (spool_read_all sp))]) ->
  wp (blob_upload_from_file md5 k sp ct) w Q.
Proof.
  intros Hf Hok. apply wp_client_call; [exact Hf|]. intros Hn.
  specialize (Hok Hn). wp_steps. exact Hok.
Qed.

(** ** The read loop *)

Lemma wp_read_loop amt : (0 < amt)%N -> forall fuel body h sp w,
  length body < fuel ->
  wp (read_loop fuel amt body h sp) w (fun r w' evs =>
    frame w w' /\ gcs_objects w' = gcs_objects w
    /\ (exists n, calls evs = repeat (BodyRead amt) n)
    /\ match r with
       | Return hs =>
           hash_updates evs = spool_writes evs
           /\ concat (hash_updates evs) = body
           /\ fst hs = h ++ body
           /\ snd hs = fold_left spool_write (hash_updates evs) sp
       | Raise e => exists f, faulted w f /\ e = exn_of_fault f
       end).
Proof.
  intros Hamt. induction fuel as [|fuel IH]; intros body h sp w Hlen; [lia|].
  cbn [read_loop]. wp_step. unfold body_read. apply wp_client_call.
  - intros f Hf. refine (conj _ (conj _ (conj _ _))); auto; try solve [frames].
    + now exists 1.
    + exists f. split; [|reflexivity]. exists w. split; [frames|exact Hf].
  - intros _. wp_step. cbn [fst snd].
    destruct (take (N.to_nat amt) body) as [|c chunk] eqn:E.
    + wp_step. apply take_nil_inv in E as [E| ->]; [lia|].
      refine (conj _ (conj _ (conj _ _))); auto; try solve [frames].
      * now exists 1.
      * cbn. now rewrite app_nil_r.
    + assert (Hne : body <> []) by (intros ->; now rewrite take_nil in E).
      wp_steps. eapply wp_mono.
      { apply (IH (drop (N.to_nat amt) body)).
        rewrite length_drop. destruct body; [congruence|cbn in *; lia]. }
      cbn beta. intros r w' evs (Hfr & Hg & (n & Hc) & Hr).
      refine (conj _ (conj _ (conj _ _))).
      * eapply frame_trans; [|exact Hfr]. frames.
      * rewrite Hg. reflexivity.
      * exists (S n). trace_simpl. now rewrite Hc.
      * destruct r as [hs|e].
        -- destruct Hr as (Hhs & Hcat & Hh & Hs). trace_simpl.
           refine (conj _ (conj _ (conj _ _))).
           ++ now rewrite Hhs.
           ++ cbn [concat]. rewrite Hcat, <- E. apply take_drop.
           ++ rewrite Hh, <- app_assoc, <- E, take_drop. reflexivity.
           ++ exact Hs.
        -- destruct Hr as (f & (w1 & Hw1 & Hf) & ->). exists f. split; [|reflexivity].
           exists w1. split; [|exact Hf].
           eapply frame_trans; [|exact Hw1]. frames.
Qed.

Lemma CHUNK_SIZE_pos : (0 < CHUNK_SIZE)%N.
Proof. reflexivity. Qed.

Lemma faulted_frame w0 w f : frame w0 w -> faulted w f -> faulted w0 f.
Proof.
  intros Hfr (w1 & Hw1 & Hf). exists w1. split; [|exact Hf].
  now apply (frame_trans w0 w w1).
Qed.

Lemma faulted_here w0 w f : frame w0 w -> next_fault w = Some f -> faulted w0 f.
Proof. intros Hfr Hf. now exists w. Qed.

Section PathsOfRuns.

Variable md5 : bytes -> bytes.

(** ** Lines 43-69 follow one of the transfer paths *)

Lemma wp_transfer corr_id b k o pre w0 w evs0 :
  s3_objects w0 !! (b, k) = Some o ->
  frame w0 w -> gcs_objects w = gcs_objects w0 ->
  calls evs0 = pre -> hash_updates evs0 = [] -> spool_writes evs0 = [] ->
  wp (transfer md5 corr_id b k (etag_of o)) w (fun r w' evs =>
    transfer_path md5 b k o pre w0 r w' (evs0 ++ evs)).
Proof.
  intros Ho Hfr Hg Hpre Hh0 Hs0. unfold transfer.
  assert (Hs3 : s3_objects w !! (b, k) = Some o)
    by (destruct Hfr as (-> & _); exact Ho).
  wp_step. apply wp_get_object.
  { intros f Hf. apply TP_get_fault.
    - now apply (faulted_here w0 w).
    - frames.
    - exact Hg.
    - trace_simpl. now rewrite Hpre. }
  intros _. rewrite Hs3. cbn [fst snd].
  wp_step. unfold read_chunks. eapply wp_mono.
  { apply (wp_read_loop CHUNK_SIZE CHUNK_SIZE_pos). lia. }
  cbn beta. intros r w1 evs1 (Hfr1 & Hg1 & (n & Hc1) & Hr).
  cbn [gcs_objects consume set_faults] in Hg1. rewrite Hg in Hg1.
  assert (Hfr01 : frame w0 w1).
  { eapply frame_trans; [|exact Hfr1]. frames. }
  destruct r as [hs|e].
  2:{ destruct Hr as (f & Hf & ->). apply (TP_read_fault _ _ _ _ _ _ f n).
      - eapply faulted_frame; [|exact Hf]. frames.
      - exact Hfr01.
      - exact Hg1.
      - trace_simpl. now rewrite Hpre, Hc1. }
  destruct Hr as (Hhs & Hcat & Hh & Hsp). cbn [app] in Hh.
  assert (Hdata : spool_read_all (spool_seek (snd hs) 0) = s3_body o).
  { rewrite Hsp, spool_rewind_read. exact Hcat. }
  assert (Hstreamed : forall tl,
    hash_updates tl = [] -> spool_writes tl = [] ->
    streamed o (evs0 ++ [EvCall (GetObject b k)] ++ evs1 ++ tl)).
  { intros tl Ht1 Ht2. unfold streamed. trace_simpl.
    rewrite Hh0, Hs0, Ht1, Ht2, !app_nil_r. cbn [app]. now split. }
  wp_step. apply wp_try_except. apply wp_blob_upload_from_file.
  { intros f Hf. wp_steps. rewrite Hdata.
    apply (TP_upload_fault _ _ _ _ _ _ f n).
    - now apply (faulted_here w0 w1).
    - frames.
    - exact Hg1.
    - unfold transfer_calls. trace_simpl. now rewrite Hpre, Hc1.
    - now apply Hstreamed. }
  intros Hnf. rewrite Hdata. wp_steps.
  fold (content_type_of o). fold (uploaded_blob md5 o). rewrite Hh.
  change (negb (String.eqb (Text.hex (md5 (s3_body o))) (etag_of o))
          && negb (Text.contains Text.dash (etag_of o)))
    with (mismatch md5 o).
  destruct (mismatch md5 o) eqn:Hmis.
  - wp_steps. apply wp_blob_delete.
    + intros f Hf. apply (TP_delete_fault _ _ _ _ _ _ f n); trivial.
      * eapply (faulted_here w0); [|exact Hf]. frames.
      * frames.
      * cbn. now rewrite Hg1.
      * unfold transfer_calls. trace_simpl. rewrite Hpre, Hc1.
        now rewrite <- app_assoc, <- app_comm_cons, <- app_assoc.
      * now apply Hstreamed.
    + intros _. cbn [gcs_objects set_gcs_objects]. rewrite lookup_insert_eq.
      wp_steps. apply (TP_mismatch _ _ _ _ _ _ n); trivial.
      * frames.
      * cbn. now rewrite Hg1.
      * unfold transfer_calls. trace_simpl. rewrite Hpre, Hc1.
        now rewrite <- app_assoc, <- app_comm_cons, <- app_assoc.
      * now apply Hstreamed.
  - wp_steps. cbn [gcs_bucket_name set_gcs_objects consume set_faults].
    replace (gcs_bucket_name w1) with (gcs_bucket_name w0)
      by (symmetry; apply Hfr01).
    apply (TP_replicated _ _ _ _ _ _ n); trivial.
    + frames.
    + cbn. now rewrite Hg1.
    + unfold transfer_calls. trace_simpl. now rewrite Hpre, Hc1.
    + now apply Hstreamed.
Qed.

(** ** One attempt follows one of the attempt paths *)

Lemma wp_head_handler f w Q :
  Q (Raise (head_exn f)) w [] ->
  wp (match exn_of_fault f with
      | ClientError code msg =>
          if String.eqb code "404" then raise SourceNotFound
          else raise (ClientError code msg)
      | _ => raise (exn_of_fault f)
      end : M string) w Q.
Proof.
  destruct f as [code msg|msg|msg]; cbn [exn_of_fault head_exn]; trivial.
  now destruct (String.eqb code "404").
Qed.

Lemma attempt_path_complete b k w :
  wp (replicate_file_attempt md5 b k) w (attempt_path md5 b k w).
Proof.
  unfold replicate_file_attempt. wp_steps.
  set (corr_id := uuid_source w (uuid_count w)).
  set (w0 := set_uuid_count (S (uuid_count w)) w).
  assert (Hfr0 : frame w w0) by (subst w0; frames).
  unfold try_except_ClientError. wp_steps. apply wp_head_object.
  { intros f Hf. apply wp_head_handler.
    apply AP_head_fault; [exact Hf | frames | reflexivity | reflexivity]. }
  intros Hnf. change (next_fault w = None) in Hnf.
  change (s3_objects w0) with (s3_objects w).
  destruct (s3_objects w !! (b, k)) as [o|] eqn:Ho.
  2:{ intros msg. cbn [String.eqb Ascii.eqb Bool.eqb]. wp_steps.
      apply AP_not_found; [exact Hnf | exact Ho | frames | reflexivity
                          | reflexivity]. }
  fold (etag_of o).
  assert (Hlog : forall Q : outcome unit -> World -> list event -> Prop,
    (forall evs, calls evs = [] -> hash_updates evs = [] ->
                 spool_writes evs = [] -> Q (Return tt) (consume w0) evs) ->
    wp (if Text.contains Text.dash (etag_of o)
        then log WARNING (tag corr_id "Multi-part ETag detected; using existence check only")
        else ret tt) (consume w0) Q).
  { intros Q HQ. destruct (Text.contains Text.dash (etag_of o)); wp_steps;
      now apply HQ. }
  wp_step. apply Hlog. intros evl Hl1 Hl2 Hl3. wp_steps.
  apply wp_blob_exists.
  { intros f Hf. apply (AP_exists_fault md5 b k w o f); trivial.
    - eapply faulted_here; [|exact Hf]. frames.
    - frames.
    - trace_simpl. now rewrite Hl1. }
  intros _. change (gcs_objects (consume w0)) with (gcs_objects w).
  destruct (gcs_objects w !! k) as [blob|] eqn:Hblob.
  - wp_steps. apply wp_blob_reload.
    { intros f Hf. apply (AP_reload_fault md5 b k w o blob f); trivial.
      - eapply faulted_here; [|exact Hf]. frames.
      - frames.
      - trace_simpl. now rewrite Hl1. }
    intros _. change (gcs_objects (consume (consume w0))) with (gcs_objects w).
    rewrite Hblob. wp_step. unfold decode_md5_hash.
    destruct (gcs_md5_hash blob) as [s|] eqn:Hm.
    2:{ wp_steps. apply (AP_bad_digest md5 b k w o blob); trivial.
        - unfold digest_hex. now rewrite Hm.
        - frames.
        - trace_simpl. now rewrite Hl1. }
    destruct (Base64.b64decode s) as [raw|] eqn:Hraw.
    2:{ wp_steps. apply (AP_bad_digest md5 b k w o blob); trivial.
        - unfold digest_hex. now rewrite Hm, Hraw.
        - frames.
        - trace_simpl. now rewrite Hl1. }
    assert (Hd : digest_hex blob = Some (Text.hex raw)).
    { unfold digest_hex. now rewrite Hm, Hraw. }
    wp_steps.
    change (String.eqb (Text.hex raw) (etag_of o)
            || Text.contains Text.dash (etag_of o))
      with (already_there o (Text.hex raw)).
    destruct (already_there o (Text.hex raw)) eqn:Hthere.
    + wp_steps. apply (AP_skip md5 b k w o blob (Text.hex raw)); trivial.
      * frames.
      * trace_simpl. now rewrite Hl1.
      * trace_simpl. now rewrite Hl2.
      * trace_simpl. now rewrite Hl3.
    + eapply wp_mono; cycle 1.
      { intros r w' evs H.
        apply (AP_transfer md5 b k w o
                 [HeadObject b k; BlobExists k; BlobReload k]); trivial.
        - right. exists blob, (Text.hex raw). auto.
        - rewrite !app_assoc. exact H. }
      apply wp_transfer; trivial.
      * frames.
      * trace_simpl. now rewrite Hl1.
      * trace_simpl. now rewrite Hl2.
      * trace_simpl. now rewrite Hl3.
  - wp_steps. eapply wp_mono; cycle 1.
    { intros r w' evs H.
      apply (AP_transfer md5 b k w o [HeadObject b k; BlobExists k]); trivial.
      - now left.
      - rewrite !app_assoc. exact H. }
    apply wp_transfer; trivial.
    * frames.
    * trace_simpl. now rewrite Hl1.
    * trace_simpl. now rewrite Hl2.
    * trace_simpl. now rewrite Hl3.
Qed.

(** Every run of one attempt is one of the paths. *)
Lemma attempt_path_run b k w r w' evs :
  replicate_file_attempt md5 b k w = (r, w', evs) ->
  attempt_path md5 b k w r w' evs.
Proof. apply wp_run, attempt_path_complete. Qed.

End PathsOfRuns.

(* ===================================================================== *)
(** * The retry wrapper *)
(* ===================================================================== *)

Section RetryingFacts.

Context {A : Type}.
Variable wait : nat -> N.
Variable retry : exn -> bool.
Variable fn : M A.

Lemma retrying_return more n w a w1 evs :
  fn w = (Return a, w1, evs) ->
  retrying wait retry fn more n w = (Return a, w1, EvAttempt n :: evs).
Proof.
  intros E. destruct more; cbn [retrying]; unfold bind, tell, try_except;
    now rewrite E.
Qed.

Lemma retrying_reraise more n w e w1 evs :
  fn w = (Raise e, w1, evs) -> retry e = false ->
  retrying wait retry fn more n w = (Raise e, w1, EvAttempt n :: evs).
Proof.
  intros E Hr. destruct more; cbn [retrying]; unfold bind, tell, try_except;
    rewrite E, Hr; unfold raise; now rewrite app_nil_r.
Qed.

Lemma retrying_exhausted n w e w1 evs :
  fn w = (Raise e, w1, evs) -> retry e = true ->
  retrying wait retry fn 0 n w
  = (Raise (RetryError e), w1, EvAttempt n :: evs).
Proof.
  intros E Hr. cbn [retrying]. unfold bind, tell, try_except.
  rewrite E, Hr. unfold raise. now rewrite app_nil_r.
Qed.

Lemma retrying_again more n w e w1 evs r w2 evs2 :
  fn w = (Raise e, w1, evs) -> retry e = true ->
  retrying wait retry fn more (S n) w1 = (r, w2, evs2) ->
  retrying wait retry fn (S more) n w
  = (r, w2, EvAttempt n :: evs ++ EvSleep (wait n) :: evs2).
Proof.
  intros E Hr E2. cbn [retrying]. unfold bind at 1. unfold tell at 1.
  unfold try_except. rewrite E, Hr. unfold bind at 1. unfold sleep, tell.
  now rewrite E2.
Qed.

(** What holds after every attempt holds after the wrapped call: an
    invariant [I] of the world, and a property [P] of the result of the
    last attempt, which the wrapper passes on or wraps in [RetryError]. *)
Lemma retrying_last_attempt (I : World -> Prop)
    (P : outcome A -> World -> Prop) :
  (forall w r w' evs, I w -> fn w = (r, w', evs) -> I w' /\ P r w') ->
  forall more n w r w' evs,
    I w -> retrying wait retry fn more n w = (r, w', evs) ->
    I w' /\ (P r w'
             \/ exists e, r = Raise (RetryError e) /\ retry e = true
                          /\ P (Raise e) w').
Proof.
  intros Hfn. induction more as [|more IH]; intros n w r w' evs HI E.
  - destruct (fn w) as [[[a|e] w1] evs1] eqn:Efn.
    + rewrite (retrying_return _ _ _ _ _ _ Efn) in E. injection E as <- <- <-.
      destruct (Hfn _ _ _ _ HI Efn). auto.
    + destruct (Hfn _ _ _ _ HI Efn) as [HI1 HP]. destruct (retry e) eqn:Hr.
      * rewrite (retrying_exhausted _ _ _ _ _ Efn Hr) in E.
        injection E as <- <- <-. split; [trivial|]. right. now exists e.
      * rewrite (retrying_reraise _ _ _ _ _ _ Efn Hr) in E.
        injection E as <- <- <-. auto.
  - destruct (fn w) as [[[a|e] w1] evs1] eqn:Efn.
    + rewrite (retrying_return _ _ _ _ _ _ Efn) in E. injection E as <- <- <-.
      destruct (Hfn _ _ _ _ HI Efn). auto.
    + destruct (Hfn _ _ _ _ HI Efn) as [HI1 HP]. destruct (retry e) eqn:Hr.
      * destruct (retrying wait retry fn more (S n) w1) as [[r2 w2] evs2] eqn:E2.
        rewrite (retrying_again _ _ _ _ _ _ _ _ _ Efn Hr E2) in E.
        injection E as <- <- <-. now apply (IH (S n) w1 r2 w2 evs2).
      * rewrite (retrying_reraise _ _ _ _ _ _ Efn Hr) in E.
        injection E as <- <- <-. auto.
Qed.

End RetryingFacts.

(* ===================================================================== *)
(** * Telling the outcomes apart *)
(* ===================================================================== *)

Lemma exn_of_fault_not_ValueError f msg : exn_of_fault f <> ValueError msg.
Proof. destruct f; discriminate. Qed.

Lemma head_exn_ValueError f msg :
  head_exn f = ValueError msg -> ValueError msg = SourceNotFound.
Proof.
  destruct f as [code m|m|m]; cbn; try discriminate.
  destruct (String.eqb code "404"); [now intros <- | discriminate].
Qed.

Lemma UploadFailed_not_IntegrityMismatch e : UploadFailed e <> IntegrityMismatch.
Proof. unfold UploadFailed, IntegrityMismatch. cbn. discriminate. Qed.

Lemma UploadFailed_not_SourceNotFound e : UploadFailed e <> SourceNotFound.
Proof. unfold UploadFailed, SourceNotFound. cbn. discriminate. Qed.

Lemma SourceNotFound_not_IntegrityMismatch : SourceNotFound <> IntegrityMismatch.
Proof. discriminate. Qed.

Lemma msg_replicated_not_skip k name : msg_replicated k name <> msg_skip.
Proof. unfold msg_replicated, msg_skip. cbn. discriminate. Qed.

Lemma retry_ValueError msg : retry_if_exception_type (ValueError msg) = false.
Proof. reflexivity. Qed.

Lemma retry_exn_of_fault_other msg :
  retry_if_exception_type (exn_of_fault (FOther msg)) = false.
Proof. reflexivity. Qed.

(** ** Calls of a transfer *)

Lemma uploaded_to_app k cs1 cs2 :
  uploaded_to k (cs1 ++ cs2) = uploaded_to k cs1 ++ uploaded_to k cs2.
Proof.
  induction cs1 as [|c cs1 IH]; [reflexivity|]. destruct c; cbn; trivial.
  destruct (String.eqb key k); cbn; now rewrite IH.
Qed.

Lemma uploaded_to_reads k amt n : uploaded_to k (repeat (BodyRead amt) n) = [].
Proof. induction n; cbn; trivial. Qed.

Lemma deletes_app cs1 cs2 : deletes (cs1 ++ cs2) = deletes cs1 || deletes cs2.
Proof. apply existsb_app. Qed.

Lemma deletes_reads amt n : deletes (repeat (BodyRead amt) n) = false.
Proof. induction n; cbn; trivial. Qed.

Lemma transfers_app cs1 cs2 :
  transfers (cs1 ++ cs2) = transfers cs1 || transfers cs2.
Proof. apply existsb_app. Qed.

Lemma transfers_reads amt n : transfers (repeat (BodyRead amt) n) = false.
Proof. induction n; cbn; trivial. Qed.

Section Inversions.

Variable md5 : bytes -> bytes.

(** The calls made before a transfer starts are the checks. *)
Lemma proceeds_pre b k o w pre :
  proceeds b k o w pre ->
  uploaded_to k pre = [] /\ deletes pre = false /\ transfers pre = false
  /\ exists rest, pre = HeadObject b k :: rest.
Proof.
  intros [[_ ->]|(blob & hex & _ & _ & _ & ->)]; repeat split; eauto.
Qed.

Lemma transfer_calls_uploaded b k o pre n :
  uploaded_to k pre = [] ->
  uploaded_to k (transfer_calls b k o pre n) = [s3_body o].
Proof.
  intros Hpre. unfold transfer_calls.
  rewrite uploaded_to_app, Hpre. cbn [app uploaded_to].
  rewrite uploaded_to_app, uploaded_to_reads. cbn.
  now rewrite String.eqb_refl.
Qed.

Lemma transfer_calls_deletes b k o pre n :
  deletes pre = false -> deletes (transfer_calls b k o pre n) = false.
Proof.
  intros Hpre. unfold transfer_calls.
  rewrite deletes_app, Hpre. cbn [orb]. change (deletes (?c :: ?l)) with (is_delete c || deletes l).
  cbn [is_delete orb]. now rewrite deletes_app, deletes_reads.
Qed.

Lemma transfer_calls_transfers b k o pre n :
  transfers (transfer_calls b k o pre n) = true.
Proof.
  unfold transfer_calls. rewrite transfers_app.
  change (transfers (?c :: ?l)) with
    (match c with BlobUpload _ _ _ => true | _ => false end || transfers l).
  cbn [orb]. rewrite transfers_app. cbn. now rewrite !orb_true_r.
Qed.

(** A run that returns has skipped or has replicated. *)
Lemma attempt_path_return b k w s w' evs :
  attempt_path md5 b k w (Return s) w' evs ->
  exists o, s3_objects w !! (b, k) = Some o /\ frame w w' /\
  ((s = msg_skip
    /\ (exists blob hex, gcs_objects w !! k = Some blob
          /\ digest_hex blob = Some hex /\ already_there o hex = true)
    /\ gcs_objects w' = gcs_objects w
    /\ calls evs = [HeadObject b k; BlobExists k; BlobReload k]
    /\ hash_updates evs = [] /\ spool_writes evs = [])
   \/ (s = msg_replicated k (gcs_bucket_name w)
       /\ mismatch md5 o = false
       /\ gcs_objects w' = <[k := uploaded_blob md5 o]> (gcs_objects w)
       /\ (exists pre n, proceeds b k o w pre
                         /\ calls evs = transfer_calls b k o pre n)
       /\ streamed o evs)).
Proof.
  intros H. inversion H; subst.
  - eexists. split; [eassumption|]. split; [trivial|]. left. eauto 10.
  - eexists. split; [eassumption|].
    match goal with
    | Ht : transfer_path _ _ _ _ _ _ _ _ _ |- _ => inversion Ht; subst
    end.
    split; [trivial|]. right. eauto 10.
Qed.

End Inversions.

Lemma mismatch_false_digest md5 o :
  mismatch md5 o = false -> composite (etag_of o) = false ->
  Text.hex (md5 (s3_body o)) = etag_of o.
Proof.
  unfold mismatch. intros H Hc. rewrite Hc in H. cbn in H.
  rewrite andb_true_r in H. apply negb_false_iff in H.
  now apply String.eqb_eq.
Qed.

Lemma mismatch_false_already_there md5 o :
  mismatch md5 o = false ->
  already_there o (Text.hex (md5 (s3_body o))) = true.
Proof.
  unfold mismatch, already_there.
  destruct (String.eqb _ _), (composite _); cbn; congruence.
Qed.

Lemma digest_hex_uploaded_blob md5 o :
  digest_hex (uploaded_blob md5 o) = Some (Text.hex (md5 (s3_body o))).
Proof. unfold digest_hex. cbn. now rewrite b64decode_b64encode. Qed.

(** Close a goal whose hypotheses equate two outcomes that differ. *)
Ltac absurd_exn :=
  exfalso;
  match goal with
  | H : _ = head_exn _ |- _ =>
      symmetry in H; apply head_exn_ValueError in H;
      unfold IntegrityMismatch, SourceNotFound, UploadFailed in H;
      cbn in H; discriminate H
  | H : head_exn _ = _ |- _ =>
      apply head_exn_ValueError in H;
      unfold IntegrityMismatch, SourceNotFound, UploadFailed in H;
      cbn in H; discriminate H
  | H : _ = exn_of_fault _ |- _ =>
      symmetry in H; now apply exn_of_fault_not_ValueError in H
  | H : exn_of_fault _ = _ |- _ =>
      now apply exn_of_fault_not_ValueError in H
  | H : UploadFailed _ = _ |- _ =>
      unfold IntegrityMismatch, SourceNotFound, UploadFailed in H;
      cbn in H; discriminate H
  | H : _ = UploadFailed _ |- _ =>
      unfold IntegrityMismatch, SourceNotFound, UploadFailed in H;
      cbn in H; discriminate H
  | H : _ = _ |- _ => discriminate H
  end.

Section MoreInversions.

Variable md5 : bytes -> bytes.

Lemma transfer_path_frame b k o pre w r w' evs :
  transfer_path md5 b k o pre w r w' evs -> frame w w'.
Proof. now inversion 1. Qed.

Lemma attempt_path_frame b k w r w' evs :
  attempt_path md5 b k w r w' evs -> frame w w'.
Proof. inversion 1; subst; eauto using transfer_path_frame. Qed.

(** The first call of every attempt is the source metadata lookup. *)
Lemma attempt_path_first_call b k w r w' evs :
  attempt_path md5 b k w r w' evs ->
  exists rest, calls evs = HeadObject b k :: rest.
Proof.
  inversion 1; subst; eauto.
  match goal with
  | Hp : proceeds _ _ _ _ _ |- _ =>
      destruct (proceeds_pre _ _ _ _ _ Hp) as (_ & _ & _ & rest & ->)
  end.
  match goal with
  | Ht : transfer_path _ _ _ _ _ _ _ _ _ |- _ => inversion Ht; subst
  end; unfold transfer_calls in *; cbn [app] in *; eauto.
Qed.

(** A run that raises the integrity error took the mismatch path. *)
Lemma attempt_path_mismatch b k w w' evs :
  attempt_path md5 b k w (Raise IntegrityMismatch) w' evs ->
  exists o pre n,
    s3_objects w !! (b, k) = Some o /\ proceeds b k o w pre
    /\ mismatch md5 o = true
    /\ gcs_objects w' = delete k (<[k := uploaded_blob md5 o]> (gcs_objects w))
    /\ calls evs = transfer_calls b k o pre n ++ [BlobDelete k]
    /\ streamed o evs.
Proof.
  intros H. inversion H; subst; try absurd_exn.
  match goal with
  | Ht : transfer_path _ _ _ _ _ _ _ _ _ |- _ => inversion Ht; subst
  end; try absurd_exn.
  eauto 12.
Qed.

End MoreInversions.

Lemma client_failure_fault f : client_failure (Raise (exn_of_fault f)) = true.
Proof. now destruct f. Qed.

Lemma client_failure_head f :
  client_failure (Raise (head_exn f)) = false -> head_exn f = SourceNotFound.
Proof.
  destruct f as [code msg|msg|msg]; cbn; try discriminate.
  now destruct (String.eqb code "404").
Qed.

Lemma client_failure_upload e : client_failure (Raise (UploadFailed e)) = true.
Proof. reflexivity. Qed.

Section Settling.

Variable md5 : bytes -> bytes.

(** ** Success settles the destination *)

Lemma success_settles b k w s w' evs :
  replicate_file_attempt md5 b k w = (Return s, w', evs) -> settled b k w'.
Proof.
  intros E. apply attempt_path_run, attempt_path_return in E.
  destruct E as (o & Ho & (Hs3 & _) & [(_ & (blob & hex & Hb & Hd & Ht) & Hg & _)
                                      |(_ & Hm & Hg & _)]).
  - exists o, blob, hex. rewrite Hs3, Hg. auto.
  - exists o, (uploaded_blob md5 o), (Text.hex (md5 (s3_body o))).
    rewrite Hs3, Hg, lookup_insert_eq.
    auto using digest_hex_uploaded_blob, mismatch_false_already_there.
Qed.

Lemma settled_skips b k w :
  settled b k w -> calm w = true ->
  exists w' evs,
    replicate_file_attempt md5 b k w = (Return msg_skip, w', evs)
    /\ gcs_objects w' = gcs_objects w
    /\ calls evs = [HeadObject b k; BlobExists k; BlobReload k].
Proof.
  intros (o & blob & hex & Ho & Hb & Hd & Ht) Hcalm.
  destruct (replicate_file_attempt md5 b k w) as [[r w'] evs] eqn:E.
  pose proof (calm_next_fault w Hcalm) as Hnf.
  apply attempt_path_run in E. inversion E; subst;
    try congruence;
    try (exfalso; eapply calm_not_faulted; eassumption).
  - eauto.
  - match goal with
    | Hp : proceeds _ _ _ _ _ |- _ =>
        destruct Hp as [[Hnone _]|(blob' & hex' & Hb' & Hd' & Ht' & _)]
    end; congruence.
Qed.

End Settling.

(* ===================================================================== *)
(** * Attempts leave the retry bookkeeping alone *)
(* ===================================================================== *)

Lemma quiet_ret {A} (a : A) : quiet (ret a).
Proof. intros w. now apply wp_ret. Qed.

Lemma quiet_raise {A} e : quiet (raise e : M A).
Proof. intros w. now apply wp_raise. Qed.

Lemma quiet_log lvl msg : quiet (log lvl msg).
Proof. intros w. now apply wp_log. Qed.

Lemma quiet_get_world : quiet get_world.
Proof. intros w. now apply wp_get_world. Qed.

Lemma quiet_put_world w' : quiet (put_world w').
Proof. intros w. now apply wp_put_world. Qed.

Lemma quiet_bind {A B} (m : M A) (f : A -> M B) :
  quiet m -> (forall a, quiet (f a)) -> quiet (bind m f).
Proof.
  intros Hm Hf w. apply wp_bind. eapply wp_mono; [apply Hm|].
  intros [a|e] w1 ev1 [H1 H2]; [|now split].
  eapply wp_mono; [apply Hf|]. intros r w2 ev2 [H3 H4].
  trace_simpl. now rewrite H1, H2, H3, H4.
Qed.

Lemma quiet_try_except {A} (m : M A) (h : exn -> M A) :
  quiet m -> (forall e, quiet (h e)) -> quiet (try_except m h).
Proof.
  intros Hm Hh w. apply wp_try_except. eapply wp_mono; [apply Hm|].
  intros [a|e] w1 ev1 [H1 H2]; [now split|].
  eapply wp_mono; [apply Hh|]. intros r w2 ev2 [H3 H4].
  trace_simpl. now rewrite H1, H2, H3, H4.
Qed.

Lemma quiet_client_call {A} c (answer : M A) :
  quiet answer -> quiet (client_call c answer).
Proof.
  intros Ha w. apply wp_client_call; [now intros|].
  intros _. eapply wp_mono; [apply Ha|]. now intros r w2 ev2 [H1 H2].
Qed.

Ltac quiet_step :=
  lazymatch goal with
  | |- quiet (bind _ _) => apply quiet_bind; [|intros ?]
  | |- quiet (ret _) => apply quiet_ret
  | |- quiet (raise _) => apply quiet_raise
  | |- quiet (log _ _) => apply quiet_log
  | |- quiet get_world => apply quiet_get_world
  | |- quiet (put_world _) => apply quiet_put_world
  | |- quiet (try_except _ _) => apply quiet_try_except; [|intros ?]
  | |- quiet (client_call _ _) => apply quiet_client_call
  | |- quiet (tell (EvCall _)) => intros ?; now apply wp_tell
  | |- quiet (tell (EvHashUpdate _)) => intros ?; now apply wp_tell
  | |- quiet (tell (EvSpoolWrite _)) => intros ?; now apply wp_tell
  | |- quiet (if ?b then _ else _) => destruct b
  | |- quiet (match ?x with _ => _ end) => destruct x
  end.

Lemma quiet_read_loop amt fuel : forall body h sp,
  quiet (read_loop fuel amt body h sp).
Proof.
  induction fuel as [|fuel IH]; intros body h sp; cbn [read_loop].
  - apply quiet_raise.
  - unfold body_read. repeat quiet_step. cbn [fst snd]. apply IH.
Qed.

Lemma quiet_attempt md5 b k : quiet (replicate_file_attempt md5 b k).
Proof.
  unfold replicate_file_attempt, uuid4, try_except_ClientError, head_object,
    blob_exists, blob_reload, decode_md5_hash, transfer, get_object,
    read_chunks, blob_upload_from_file, blob_delete.
  repeat first [ apply quiet_read_loop | quiet_step ].
Qed.

Lemma attempt_plain md5 b k w r w' evs :
  replicate_file_attempt md5 b k w = (r, w', evs) ->
  attempts evs = [] /\ sleeps evs = [].
Proof. intros E. exact (wp_run _ _ _ _ _ _ (quiet_attempt md5 b k w) E). Qed.

Section Wrapped.

Variable md5 : bytes -> bytes.

(** ** The wrapped call in terms of its attempts *)

Lemma replicate_file_return b k w s w1 evs :
  replicate_file_attempt md5 b k w = (Return s, w1, evs) ->
  replicate_file md5 b k w = (Return s, w1, EvAttempt 1 :: evs).
Proof. apply retrying_return. Qed.

Lemma replicate_file_reraise b k w e w1 evs :
  replicate_file_attempt md5 b k w = (Raise e, w1, evs) ->
  retry_if_exception_type e = false ->
  replicate_file md5 b k w = (Raise e, w1, EvAttempt 1 :: evs).
Proof. apply retrying_reraise. Qed.

(** The wrapped call starts with attempt 1, and ends there unless that
    attempt raises an exception the wrapper retries. *)
Lemma replicate_file_first_attempt b k w r w' evs :
  replicate_file md5 b k w = (r, w', evs) ->
  exists r1 w1 evs1 rest,
    replicate_file_attempt md5 b k w = (r1, w1, evs1)
    /\ evs = EvAttempt 1 :: evs1 ++ rest
    /\ ((forall e, r1 = Raise e -> retry_if_exception_type e = true)
        \/ (r = r1 /\ w' = w1 /\ rest = [])).
Proof.
  intros E.
  destruct (replicate_file_attempt md5 b k w) as [[r1 w1] evs1] eqn:E1.
  exists r1, w1, evs1. destruct r1 as [s|e].
  - rewrite (replicate_file_return _ _ _ _ _ _ E1) in E. injection E as <- <- <-.
    exists []. rewrite app_nil_r.
      split; [reflexivity|]. split; [reflexivity|]. right. auto.
  - destruct (retry_if_exception_type e) eqn:Hr.
    + unfold replicate_file, retry_decorator in E. cbn [Nat.sub] in E.
      destruct (retrying (wait_exponential 1 2 10) retry_if_exception_type
                  (replicate_file_attempt md5 b k) 1 2 w1)
        as [[r2 w2] evs2] eqn:E2.
      rewrite (retrying_again _ _ _ _ _ _ _ _ _ _ _ _ E1 Hr E2) in E.
      injection E as <- <- <-. eexists. split; [reflexivity|].
      split; [reflexivity|]. left. now intros e' [= <-].
    + rewrite (replicate_file_reraise _ _ _ _ _ _ E1 Hr) in E.
      injection E as <- <- <-. exists []. rewrite app_nil_r.
      split; [reflexivity|]. split; [reflexivity|]. right. auto.
Qed.

(** What every attempt guarantees of its result, the wrapped call
    guarantees of the result of its last attempt. *)
Lemma replicate_file_last_attempt b k (I : World -> Prop)
    (P : outcome string -> World -> Prop) :
  (forall w r w' evs, I w -> replicate_file_attempt md5 b k w = (r, w', evs) ->
                      I w' /\ P r w') ->
  forall w r w' evs,
    I w -> replicate_file md5 b k w = (r, w', evs) ->
    P r w' \/ exists e, r = Raise (RetryError e) /\ P (Raise e) w'.
Proof.
  intros Hfn w r w' evs HI E.
  destruct (retrying_last_attempt _ _ _ I P Hfn _ _ _ _ _ _ HI E)
    as (_ & [HP|(e & -> & _ & HP)]); eauto.
Qed.

End Wrapped.

Lemma attempt_never_RetryError md5 b k w e w' evs :
  attempt_path md5 b k w (Raise (RetryError e)) w' evs -> False.
Proof.
  assert (Hf : forall f, exn_of_fault f <> RetryError e)
    by (intros []; discriminate).
  assert (Hh : forall f, head_exn f <> RetryError e).
  { intros [code m|m|m]; cbn; try discriminate.
    destruct (String.eqb code "404"); discriminate. }
  intros H. inversion H; subst;
    try match goal with
        | Hx : head_exn _ = _ |- _ => now apply Hh in Hx
        | Hx : exn_of_fault _ = _ |- _ => now apply Hf in Hx
        end.
  match goal with
  | Ht : transfer_path _ _ _ _ _ _ _ _ _ |- _ => inversion Ht; subst
  end;
    match goal with
    | Hx : exn_of_fault _ = _ |- _ => now apply Hf in Hx
    end.
Qed.

(** ** The retry budget *)

(** Three attempts that each raise an exception the wrapper retries use
    up the budget: the third is the last, its exception comes back inside
    [RetryError], and the wrapper has slept twice, two seconds each. *)
Lemma retry_budget_exhausted md5 b k w e1 w1 evs1 e2 w2 evs2 e3 w3 evs3 :
  replicate_file_attempt md5 b k w = (Raise e1, w1, evs1) ->
  replicate_file_attempt md5 b k w1 = (Raise e2, w2, evs2) ->
  replicate_file_attempt md5 b k w2 = (Raise e3, w3, evs3) ->
  retry_if_exception_type e1 = true -> retry_if_exception_type e2 = true ->
  retry_if_exception_type e3 = true ->
  exists evs,
    replicate_file md5 b k w = (Raise (RetryError e3), w3, evs)
    /\ attempts evs = [1; 2; 3] /\ sleeps evs = [2%N; 2%N].
Proof.
  intros E1 E2 E3 R1 R2 R3. eexists. split.
  - unfold replicate_file, retry_decorator. cbn [Nat.sub].
    eapply retrying_again; [exact E1 | exact R1|].
    eapply retrying_again; [exact E2 | exact R2|].
    eapply retrying_exhausted; [exact E3 | exact R3].
  - destruct (attempt_plain _ _ _ _ _ _ _ E1) as [A1 S1].
    destruct (attempt_plain _ _ _ _ _ _ _ E2) as [A2 S2].
    destruct (attempt_plain _ _ _ _ _ _ _ E3) as [A3 S3].
    trace_simpl. rewrite A1, A2, A3, S1, S2, S3. now split.
Qed.

(** A failed upload is never retried, whatever made it fail: the handler
    of lines 56-58 turns the exception into a [ValueError], which the
    wrapper re-raises after the first attempt. *)
Lemma upload_failure_not_retried md5 b k w e w1 evs1 :
  replicate_file_attempt md5 b k w = (Raise (UploadFailed e), w1, evs1) ->
  replicate_file md5 b k w = (Raise (UploadFailed e), w1, EvAttempt 1 :: evs1).
Proof. intros E. now apply replicate_file_reraise. Qed.

(** ** A lookup that raises *)

(** An attempt whose lookup raises ends with what the handler of lines
    29-32 makes of the exception, after that one call, with the stores
    as they were and the rest of the schedule still to come. *)
Lemma attempt_head_fault md5 b k w f :
  next_fault w = Some f ->
  exists w1 evs,
    replicate_file_attempt md5 b k w = (Raise (head_exn f), w1, evs)
    /\ s3_objects w1 = s3_objects w /\ gcs_objects w1 = gcs_objects w
    /\ gcs_bucket_name w1 = gcs_bucket_name w
    /\ faults w1 = tail (faults w)
    /\ calls evs = [HeadObject b k].
Proof.
  intros Hf.
  assert (W : wp (replicate_file_attempt md5 b k) w (fun r w1 evs =>
    r = Raise (head_exn f)
    /\ s3_objects w1 = s3_objects w /\ gcs_objects w1 = gcs_objects w
    /\ gcs_bucket_name w1 = gcs_bucket_name w
    /\ faults w1 = tail (faults w)
    /\ calls evs = [HeadObject b k])).
  { unfold replicate_file_attempt. wp_steps.
    unfold try_except_ClientError. wp_steps. apply wp_head_object.
    - intros f' Hf'. change (next_fault w = Some f') in Hf'.
      rewrite Hf in Hf'. injection Hf' as <-.
      apply wp_head_handler. cbn. auto 10.
    - intros Hn. change (next_fault w = None) in Hn. congruence. }
  unfold wp in W.
  destruct (replicate_file_attempt md5 b k w) as [[r w1] evs].
  destruct W as (-> & W). eauto 10.
Qed.

(* ===================================================================== *)
(** * Runs along a schedule *)
(* ===================================================================== *)

(** Calls that find no failure in their slot of the schedule. *)
Lemma pass_next n tl w :
  faults w = repeat None (S n) ++ tl -> next_fault w = None.
Proof. unfold next_fault. now intros ->. Qed.

Lemma pass_consume n tl w :
  faults w = repeat None (S n) ++ tl -> faults (consume w) = repeat None n ++ tl.
Proof. cbn. now intros ->. Qed.

Lemma hit_next f tl w : faults w = Some f :: tl -> next_fault w = Some f.
Proof. unfold next_fault. now intros ->. Qed.

(** ** The number of reads *)

Lemma reads_of_nil amt : (0 < amt)%N -> reads_of amt [] = 1.
Proof.
  intros H. unfold reads_of. cbn [length]. rewrite N.div_small; [reflexivity|].
  lia.
Qed.

Lemma reads_of_drop amt (body : bytes) :
  (0 < amt)%N -> body <> [] ->
  reads_of amt body = S (reads_of amt (drop (N.to_nat amt) body)).
Proof.
  intros H Hne. unfold reads_of. f_equal. rewrite length_drop.
  assert (Hl : (0 < N.of_nat (length body))%N).
  { destruct body; [congruence | cbn [length]; lia]. }
  rewrite Nat2N.inj_sub, N2Nat.id.
  set (L := N.of_nat (length body)) in *.
  rewrite <- N2Nat.inj_succ. f_equal.
  destruct (N.le_gt_cases amt L) as [Hle|Hgt].
  - replace (L + amt - 1)%N with ((L - amt + amt - 1) + 1 * amt)%N by lia.
    rewrite N.div_add by lia. lia.
  - replace (L - amt + amt - 1)%N with (amt - 1)%N by lia.
    rewrite (N.div_small (amt - 1)) by lia.
    symmetry. apply (N.div_unique _ _ _ (L - 1)); lia.
Qed.

(** ** The read loop when every read goes through *)

Lemma wp_read_loop_passes amt : (0 < amt)%N -> forall fuel body h sp w tl,
  length body < fuel ->
  faults w = repeat None (reads_of amt body) ++ tl ->
  wp (read_loop fuel amt body h sp) w (fun r w' evs =>
    faults w' = tl
    /\ s3_objects w' = s3_objects w /\ gcs_objects w' = gcs_objects w
    /\ calls evs = repeat (BodyRead amt) (reads_of amt body)
    /\ hash_updates evs = spool_writes evs
    /\ concat (hash_updates evs) = body
    /\ r = Return (h ++ body, fold_left spool_write (hash_updates evs) sp)).
Proof.
  intros Hamt. induction fuel as [|fuel IH]; intros body h sp w tl Hlen Hf;
    [lia|].
  cbn [read_loop]. wp_step. unfold body_read. apply wp_client_call.
  { intros f Hn. exfalso. unfold reads_of in Hf.
    rewrite (pass_next _ _ _ Hf) in Hn. discriminate Hn. }
  intros _. wp_step. cbn [fst snd].
  destruct (take (N.to_nat amt) body) as [|c chunk] eqn:E.
  - wp_step. apply take_nil_inv in E as [E| ->]; [lia|].
    rewrite reads_of_nil in Hf |- * by exact Hamt.
    apply (pass_consume 0) in Hf. cbn [repeat app] in Hf.
    cbn. rewrite app_nil_r. auto 10.
  - assert (Hne : body <> []) by (intros ->; now rewrite take_nil in E).
    rewrite (reads_of_drop amt body Hamt Hne) in Hf |- *.
    apply pass_consume in Hf.
    wp_steps. eapply wp_mono.
    { apply (IH (drop (N.to_nat amt) body) _ _ _ tl); [|exact Hf].
      rewrite length_drop. destruct body; [congruence | cbn in *; lia]. }
    cbn beta. intros r w' evs (H1 & H2 & H3 & H4 & H5 & H6 & ->).
    assert (Hb : (c :: chunk) ++ drop (N.to_nat amt) body = body)
      by (rewrite <- E; apply take_drop).
    pose proof Hb as Hb'. cbn [app] in Hb'.
    cbn [app calls hash_updates spool_writes concat fold_left repeat].
    rewrite H4, H6, <- H5, <- app_assoc, Hb, Hb'. auto 10.
Qed.

Section FailingUpload.

Variable md5 : bytes -> bytes.

(** ** Lines 43-58 when the upload is the first call that fails *)

Lemma wp_transfer_upload_fault corr_id b k o w f tl :
  s3_objects w !! (b, k) = Some o ->
  faults w
  = repeat None (S (reads_of CHUNK_SIZE (s3_body o))) ++ Some f :: tl ->
  wp (transfer md5 corr_id b k (etag_of o)) w (fun r w' evs =>
    r = Raise (UploadFailed (exn_of_fault f))
    /\ faults w' = tl
    /\ s3_objects w' = s3_objects w /\ gcs_objects w' = gcs_objects w
    /\ calls evs
       = transfer_calls b k o [] (reads_of CHUNK_SIZE (s3_body o))).
Proof.
  intros Ho Hf. unfold transfer.
  wp_step. apply wp_get_object.
  { intros f' Hn. rewrite (pass_next _ _ _ Hf) in Hn. discriminate Hn. }
  intros _. rewrite Ho. cbn [fst snd].
  apply pass_consume in Hf.
  wp_step. unfold read_chunks. eapply wp_mono.
  { apply (wp_read_loop_passes CHUNK_SIZE CHUNK_SIZE_pos _ _ _ _ _
             (Some f :: tl)); [lia | exact Hf]. }
  cbn beta. intros r w1 evs1 (Hf1 & Hs1 & Hg1 & Hc1 & Hh1 & Hcat & ->).
  cbn [fst snd app].
  wp_step. apply wp_try_except. apply wp_blob_upload_from_file.
  2:{ intros Hn. rewrite (hit_next _ _ _ Hf1) in Hn. discriminate Hn. }
  intros f' Hn. rewrite (hit_next _ _ _ Hf1) in Hn. injection Hn as <-.
  wp_steps. rewrite spool_rewind_read, Hcat.
  cbn [faults s3_objects gcs_objects consume set_faults].
  rewrite Hf1, Hs1, Hg1. cbn [tail].
  refine (conj eq_refl (conj eq_refl (conj eq_refl (conj eq_refl _)))).
  unfold transfer_calls. trace_simpl. rewrite Hc1. reflexivity.
Qed.

(** ** An attempt whose upload is the first call that fails *)

Lemma wp_attempt_upload_fault b k w o pre f tl :
  s3_objects w !! (b, k) = Some o ->
  proceeds b k o w pre ->
  faults w = repeat None (upload_slot pre o) ++ Some f :: tl ->
  wp (replicate_file_attempt md5 b k) w (fun r w' evs =>
    r = Raise (UploadFailed (exn_of_fault f))
    /\ faults w' = tl
    /\ s3_objects w' = s3_objects w /\ gcs_objects w' = gcs_objects w
    /\ calls evs
       = transfer_calls b k o pre (reads_of CHUNK_SIZE (s3_body o))).
Proof.
  intros Ho Hp Hf. unfold upload_slot in Hf.
  set (n := reads_of CHUNK_SIZE (s3_body o)) in *.
  unfold replicate_file_attempt. wp_steps.
  set (corr_id := uuid_source w (uuid_count w)).
  set (w0 := set_uuid_count (S (uuid_count w)) w).
  assert (Hlog : forall (w1 : World)
                        (Q : outcome unit -> World -> list event -> Prop),
    (forall evs, calls evs = [] -> Q (Return tt) w1 evs) ->
    wp (if Text.contains Text.dash (etag_of o)
        then log WARNING (tag corr_id "Multi-part ETag detected; using existence check only")
        else ret tt) w1 Q).
  { intros w1 Q HQ. destruct (Text.contains Text.dash (etag_of o)); wp_steps;
      now apply HQ. }
  assert (Hpre : exists m, length pre = S (S m)).
  { destruct Hp as [(_ & ->)|(? & ? & _ & _ & _ & ->)]; cbn; eauto. }
  destruct Hpre as (m & Hm). rewrite Hm in Hf. cbn [Nat.add] in Hf.
  assert (Hf0 : faults w0 = repeat None (S (S m + S n)) ++ Some f :: tl)
    by exact Hf.
  unfold try_except_ClientError. wp_steps. apply wp_head_object.
  { intros f' Hn. rewrite (pass_next _ _ _ Hf0) in Hn. discriminate Hn. }
  intros _. change (s3_objects w0) with (s3_objects w). rewrite Ho.
  fold (etag_of o). apply pass_consume in Hf0.
  wp_step. apply Hlog. intros evl Hl. wp_steps.
  apply wp_blob_exists.
  { intros f' Hn. rewrite (pass_next _ _ _ Hf0) in Hn. discriminate Hn. }
  intros _. change (gcs_objects (consume w0)) with (gcs_objects w).
  apply pass_consume in Hf0.
  destruct Hp as [(Hnone & ->)|(blob & hex & Hb & Hd & Hthere & ->)].
  - rewrite Hnone. injection Hm as <-. cbn [Nat.add] in Hf0.
    wp_steps. eapply wp_mono.
    { apply (wp_transfer_upload_fault corr_id b k o _ f tl); [exact Ho|].
      exact Hf0. }
    cbn beta. intros r w' evs (-> & H1 & H2 & H3 & H4).
    refine (conj eq_refl (conj H1 (conj H2 (conj H3 _)))).
    unfold transfer_calls in *. trace_simpl. rewrite Hl, H4. reflexivity.
  - rewrite Hb. injection Hm as <-. cbn [Nat.add] in Hf0.
    wp_steps. apply wp_blob_reload.
    { intros f' Hn. rewrite (pass_next _ _ _ Hf0) in Hn. discriminate Hn. }
    intros _. change (gcs_objects (consume (consume w0))) with (gcs_objects w).
    rewrite Hb. apply pass_consume in Hf0.
    wp_step. unfold decode_md5_hash. unfold digest_hex in Hd.
    destruct (gcs_md5_hash blob) as [s|]; [|discriminate Hd].
    destruct (Base64.b64decode s) as [raw|]; [|discriminate Hd].
    injection Hd as <-. wp_steps.
    change (String.eqb (Text.hex raw) (etag_of o)
            || Text.contains Text.dash (etag_of o))
      with (already_there o (Text.hex raw)).
    rewrite Hthere. eapply wp_mono.
    { apply (wp_transfer_upload_fault corr_id b k o _ f tl); [exact Ho|].
      exact Hf0. }
    cbn beta. intros r w' evs (-> & H1 & H2 & H3 & H4).
    refine (conj eq_refl (conj H1 (conj H2 (conj H3 _)))).
    unfold transfer_calls in *. trace_simpl. rewrite Hl, H4. reflexivity.
Qed.

End FailingUpload.

(* ===================================================================== *)
(** * The wrapped call delivers what its last attempt delivers *)
(* ===================================================================== *)

(** Integrity through the retry wrapper: when the wrapped call returns the
    "replicated" outcome, however many attempts it took, the blob at the
    destination key holds the bytes of the source object. *)
Lemma replicate_file_replicated md5 b k w w' evs :
  replicate_file md5 b k w
  = (Return (msg_replicated k (gcs_bucket_name w)), w', evs) ->
  exists o,
    s3_objects w !! (b, k) = Some o
    /\ gcs_data <$> gcs_objects w' !! k = Some (s3_body o).
Proof.
  intros E.
  destruct (replicate_file_last_attempt md5 b k
              (fun w0 => frame w w0)
              (fun r w1 =>
                 r = Return (msg_replicated k (gcs_bucket_name w)) ->
                 exists o, s3_objects w !! (b, k) = Some o
                           /\ gcs_data <$> gcs_objects w1 !! k
                              = Some (s3_body o)))
    with (w := w) (r := Return (msg_replicated k (gcs_bucket_name w)))
         (w' := w') (evs := evs) as [H|(e & [=] & _)]; auto using frame_refl.
  intros w0 r w1 evs0 Hfr E0. apply attempt_path_run in E0. split.
  - apply (frame_trans w w0 w1 Hfr). eapply attempt_path_frame; eassumption.
  - intros ->. apply attempt_path_return in E0.
    destruct E0 as (o & Ho & _ & [(Hs & _)|(_ & _ & Hg & _)]).
    + now apply msg_replicated_not_skip in Hs.
    + exists o. destruct Hfr as (Hs3 & _). rewrite <- Hs3, Hg, lookup_insert_eq.
      auto.
Qed.

(* ===================================================================== *)
(** * Properties of the replication protocol *)
(* ===================================================================== *)

(** C1. Integrity: when one run of [replicate_file] returns the
    "replicated" outcome for a source object with content [C], the blob
    at the destination key holds exactly [C]; the one upload issued for
    the key carried [C]; and [C] is the concatenation, in read order, of
    the chunks written to the spool file, which are the very chunks the
    digest was computed over -- so that, for a comparable source digest,
    the MD5 of [C] is the declared digest. *)
Theorem replicated_integrity md5 b k w w' evs :
  replicate_file_attempt md5 b k w
  = (Return (msg_replicated k (gcs_bucket_name w)), w', evs) ->
  exists o,
    s3_objects w !! (b, k) = Some o
    /\ gcs_data <$> gcs_objects w' !! k = Some (s3_body o)
    /\ uploaded_to k (calls evs) = [s3_body o]
    /\ concat (spool_writes evs) = s3_body o
    /\ hash_updates evs = spool_writes evs
    /\ (composite (etag_of o) = false ->
        Text.hex (md5 (s3_body o)) = etag_of o).
Proof.
  intros E. apply attempt_path_run, attempt_path_return in E.
  destruct E as (o & Ho & Hfr & [(Hs & _)|(_ & Hm & Hg & (pre & n & Hp & Hc) & Hh & Hcat)]).
  { now apply msg_replicated_not_skip in Hs. }
  exists o. split; [exact Ho|].
  destruct (proceeds_pre b k o w pre Hp) as (Hu & _).
  rewrite Hg, lookup_insert_eq, Hc, transfer_calls_uploaded by exact Hu.
  rewrite <- Hh. repeat split; trivial.
  now apply mismatch_false_digest.
Qed.

Lemma replicated_integrity_witness :
  Demo.run_logo
  = (Return (msg_replicated "img/logo.png" (gcs_bucket_name (Demo.world []))),
     Demo.run_logo.1.2, Demo.run_logo.2)
  /\ exists o,
       s3_objects (Demo.world []) !! ("src", "img/logo.png") = Some o
       /\ gcs_data <$> gcs_objects Demo.run_logo.1.2 !! "img/logo.png"
          = Some (s3_body o)
       /\ uploaded_to "img/logo.png" (calls Demo.run_logo.2) = [s3_body o]
       /\ concat (spool_writes Demo.run_logo.2) = s3_body o
       /\ hash_updates Demo.run_logo.2 = spool_writes Demo.run_logo.2
       /\ (composite (etag_of o) = false ->
           Text.hex (MD5.digest (s3_body o)) = etag_of o).
Proof.
  assert (E : Demo.run_logo
              = (Return (msg_replicated "img/logo.png"
                           (gcs_bucket_name (Demo.world []))),
                 Demo.run_logo.1.2, Demo.run_logo.2))
    by (vm_compute; reflexivity).
  split; [exact E|].
  exact (replicated_integrity MD5.digest "src" "img/logo.png" (Demo.world [])
           _ _ E).
Defined.

(** C2. Idempotence: when a call of [replicate_file] has returned (skipped
    or replicated) and a second call for the same object follows with
    both stores as the first call left them and no failure scheduled, the
    second call returns the "skipped" outcome after one attempt, without
    a download or an upload, and leaves the destination as it was. *)
Theorem idempotent_skip md5 b k w s1 w1 evs1 :
  replicate_file md5 b k w = (Return s1, w1, evs1) ->
  calm w1 = true ->
  exists w2 evs2,
    replicate_file md5 b k w1 = (Return msg_skip, w2, evs2)
    /\ gcs_objects w2 = gcs_objects w1
    /\ attempts evs2 = [1]
    /\ calls evs2 = [HeadObject b k; BlobExists k; BlobReload k].
Proof.
  intros E Hcalm.
  assert (Hs : settled b k w1).
  { destruct (replicate_file_last_attempt md5 b k (fun _ => True)
               (fun r w' => forall s, r = Return s -> settled b k w'))
      with (w := w) (r := Return s1) (w' := w1) (evs := evs1)
      as [H|(e & [=] & _)]; eauto.
    intros w0 r w' evs _ E0. split; [trivial|]. intros s ->.
    eapply success_settles; eassumption. }
  destruct (settled_skips md5 b k w1 Hs Hcalm) as (w2 & evs2 & E2 & Hg & Hc).
  exists w2, (EvAttempt 1 :: evs2).
  split; [now apply replicate_file_return|]. split; [exact Hg|].
  destruct (attempt_plain _ _ _ _ _ _ _ E2) as [Ha _].
  cbn [attempts calls]. now rewrite Ha, Hc.
Qed.

Lemma idempotent_skip_witness :
  Demo.call_logo
  = (Return (msg_replicated "img/logo.png" "dst"),
     Demo.call_logo.1.2, Demo.call_logo.2)
  /\ calm Demo.call_logo.1.2 = true
  /\ exists w2 evs2,
       replicate_file MD5.digest "src" "img/logo.png" Demo.call_logo.1.2
       = (Return msg_skip, w2, evs2)
       /\ gcs_objects w2 = gcs_objects Demo.call_logo.1.2
       /\ attempts evs2 = [1]
       /\ calls evs2 = [HeadObject "src" "img/logo.png";
                        BlobExists "img/logo.png"; BlobReload "img/logo.png"].
Proof.
  assert (E : Demo.call_logo
              = (Return (msg_replicated "img/logo.png" "dst"),
                 Demo.call_logo.1.2, Demo.call_logo.2))
    by (vm_compute; reflexivity).
  assert (C : calm Demo.call_logo.1.2 = true) by (vm_compute; reflexivity).
  split; [exact E|]. split; [exact C|].
  exact (idempotent_skip MD5.digest "src" "img/logo.png" (Demo.world [])
           _ _ _ E C).
Defined.

(** Whenever a run raises the integrity error, the delete of the key was
    issued right after the upload of the payload, for a source object
    whose comparable digest differs from the MD5 of the payload, and no
    blob is left at the destination key. *)
Lemma integrity_error_leaves_no_blob md5 b k w w' evs :
  replicate_file_attempt md5 b k w = (Raise IntegrityMismatch, w', evs) ->
  gcs_objects w' !! k = None
  /\ exists o cs,
       s3_objects w !! (b, k) = Some o /\ mismatch md5 o = true
       /\ deletes cs = false
       /\ calls evs = cs ++ [BlobUpload k (content_type_of o) (s3_body o);
                             BlobDelete k].
Proof.
  intros E. apply attempt_path_run, attempt_path_mismatch in E.
  destruct E as (o & pre & n & Ho & Hp & Hm & Hg & Hc & _).
  split; [rewrite Hg; apply lookup_delete_eq|].
  exists o, (pre ++ GetObject b k :: repeat (BodyRead CHUNK_SIZE) n).
  split; [exact Ho|]. split; [exact Hm|]. split.
  - destruct (proceeds_pre _ _ _ _ _ Hp) as (_ & Hpd & _).
    rewrite deletes_app, Hpd. cbn. apply deletes_reads.
  - rewrite Hc. unfold transfer_calls.
    now rewrite <- !app_assoc, <- app_comm_cons, <- app_assoc.
Qed.

(** C3. Compensation: in a run for a source object whose digest is
    comparable and differs from the MD5 of the bytes read, once the
    upload has been issued and no client call has failed, the run has
    deleted the blob it uploaded -- the delete of the key is the call
    right after the upload -- and fails with the integrity error, and no
    blob is left at the destination key. *)
Theorem mismatch_compensation md5 b k w o r w' evs :
  replicate_file_attempt md5 b k w = (r, w', evs) ->
  s3_objects w !! (b, k) = Some o ->
  mismatch md5 o = true ->
  transfers (calls evs) = true ->
  client_failure r = false ->
  r = Raise IntegrityMismatch
  /\ gcs_objects w' !! k = None
  /\ exists cs,
       deletes cs = false
       /\ calls evs = cs ++ [BlobUpload k (content_type_of o) (s3_body o);
                             BlobDelete k].
Proof.
  intros E Ho Hm Ht Hcf.
  assert (Hr : r = Raise IntegrityMismatch).
  { apply attempt_path_run in E. inversion E; subst;
      try match goal with
          | Hc : calls evs = _ |- _ => rewrite Hc in Ht; discriminate Ht
          end.
    match goal with
    | Hl : s3_objects w !! (b, k) = Some ?o' |- _ =>
        assert (o' = o) by congruence; subst o'
    end.
    match goal with
    | Hp : transfer_path _ _ _ _ _ _ _ _ _ |- _ => inversion Hp; subst
    end;
      try reflexivity;
      try (rewrite client_failure_fault in Hcf; discriminate Hcf);
      try (rewrite client_failure_upload in Hcf; discriminate Hcf);
      try congruence. }
  subst r. split; [reflexivity|].
  destruct (integrity_error_leaves_no_blob _ _ _ _ _ _ E)
    as (Hnone & o' & cs & Ho' & _ & Hd & Hc).
  split; [exact Hnone|]. exists cs. split; [exact Hd|].
  assert (o' = o) by congruence. now subst o'.
Qed.

Lemma mismatch_compensation_witness :
  Demo.run_damaged
  = (Raise IntegrityMismatch, Demo.run_damaged.1.2, Demo.run_damaged.2)
  /\ s3_objects (Demo.world []) !! ("src", "tmp/damaged.bin")
     = Some Demo.damaged
  /\ mismatch MD5.digest Demo.damaged = true
  /\ transfers (calls Demo.run_damaged.2) = true
  /\ client_failure (Raise IntegrityMismatch) = false
  /\ gcs_objects Demo.run_damaged.1.2 !! "tmp/damaged.bin" = None
  /\ exists cs,
       deletes cs = false
       /\ calls Demo.run_damaged.2
          = cs ++ [BlobUpload "tmp/damaged.bin" (content_type_of Demo.damaged)
                     (s3_body Demo.damaged);
                   BlobDelete "tmp/damaged.bin"].
Proof.
  assert (E : Demo.run_damaged
              = (Raise IntegrityMismatch, Demo.run_damaged.1.2,
                 Demo.run_damaged.2))
    by (vm_compute; reflexivity).
  assert (Ho : s3_objects (Demo.world []) !! ("src", "tmp/damaged.bin")
               = Some Demo.damaged) by (vm_compute; reflexivity).
  assert (Hm : mismatch MD5.digest Demo.damaged = true)
    by (vm_compute; reflexivity).
  assert (Ht : transfers (calls Demo.run_damaged.2) = true)
    by (vm_compute; reflexivity).
  assert (Hcf : client_failure (Raise IntegrityMismatch) = false)
    by reflexivity.
  split; [exact E|]. split; [exact Ho|]. split; [exact Hm|].
  split; [exact Ht|]. split; [exact Hcf|].
  exact (proj2 (mismatch_compensation MD5.digest "src" "tmp/damaged.bin"
                  (Demo.world []) Demo.damaged _ _ _ E Ho Hm Ht Hcf)).
Defined.

(** C4. Composite bypass: for a source object whose declared digest is
    composite, no run raises the integrity error, whatever the MD5 of the
    bytes read: no delete is ever issued, a run whose upload goes through
    returns the "replicated" outcome, and the wrapped call does not fail
    with the integrity error either, bare or inside [RetryError]. *)
Theorem composite_never_mismatch md5 b k w o :
  s3_objects w !! (b, k) = Some o ->
  composite (etag_of o) = true ->
  (forall r w' evs,
     replicate_file_attempt md5 b k w = (r, w', evs) ->
     r <> Raise IntegrityMismatch
     /\ deletes (calls evs) = false
     /\ (transfers (calls evs) = true -> client_failure r = false ->
         r = Return (msg_replicated k (gcs_bucket_name w))))
  /\ (forall r w' evs,
        replicate_file md5 b k w = (r, w', evs) ->
        r <> Raise IntegrityMismatch
        /\ r <> Raise (RetryError IntegrityMismatch)).
Proof.
  intros Ho Hc.
  assert (Hm : mismatch md5 o = false).
  { unfold mismatch. rewrite Hc. apply andb_false_r. }
  assert (Hatt : forall w0 r0 w0' evs0,
            s3_objects w0 = s3_objects w ->
            replicate_file_attempt md5 b k w0 = (r0, w0', evs0) ->
            r0 <> Raise IntegrityMismatch).
  { intros w0 r0 w0' evs0 Hs E -> . apply attempt_path_run in E.
    apply attempt_path_mismatch in E.
    destruct E as (o' & _ & _ & Ho' & _ & Hm' & _).
    rewrite Hs in Ho'. congruence. }
  split.
  - intros r w' evs E. split; [now apply (Hatt w r w' evs)|].
    apply attempt_path_run in E.
    inversion E; subst;
      try match goal with
          | Hcs : calls evs = _ |- _ => rewrite Hcs
          end;
      try (split; [reflexivity | intros Ht; discriminate Ht]).
    match goal with
    | Hp : proceeds _ _ _ _ _ |- _ =>
        destruct (proceeds_pre _ _ _ _ _ Hp) as (_ & Hpd & Hpt & _)
    end.
    match goal with
    | Hl : s3_objects w !! (b, k) = Some ?o' |- _ =>
        assert (o' = o) by congruence; subst o'
    end.
    match goal with
    | Ht : transfer_path _ _ _ _ _ _ _ _ _ |- _ => inversion Ht; subst
    end;
      try congruence;
      match goal with
      | Hcs : calls evs = _ |- _ => rewrite Hcs
      end.
    + split.
      * rewrite deletes_app, Hpd. reflexivity.
      * rewrite client_failure_fault. discriminate.
    + split.
      * rewrite deletes_app, Hpd. cbn. apply deletes_reads.
      * rewrite client_failure_fault. discriminate.
    + split.
      * now apply transfer_calls_deletes.
      * rewrite client_failure_upload. discriminate.
    + split; [now apply transfer_calls_deletes | reflexivity].
  - intros r w' evs E.
    destruct (replicate_file_last_attempt md5 b k
                (fun w0 => s3_objects w0 = s3_objects w)
                (fun r0 _ => r0 <> Raise IntegrityMismatch
                             /\ forall e, r0 <> Raise (RetryError e)))
      with (w := w) (r := r) (w' := w') (evs := evs)
      as [[H1 H2]|(e & -> & H1 & _)]; trivial.
    + intros w0 r0 w0' evs0 Hs E0. split.
      * apply attempt_path_run, attempt_path_frame in E0.
        destruct E0 as (-> & _). exact Hs.
      * split; [now apply (Hatt w0 r0 w0' evs0)|].
        intros e ->. apply attempt_path_run in E0.
        now apply attempt_never_RetryError in E0.
    + split; [exact H1 | apply H2].
    + split; [intros [=] | intros [= ->]; now apply H1].
Qed.

Lemma composite_never_mismatch_witness :
  s3_objects (Demo.world []) !! ("src", "reports/q1.csv") = Some Demo.report
  /\ composite (etag_of Demo.report) = true
  /\ (forall r w' evs,
        replicate_file_attempt MD5.digest "src" "reports/q1.csv"
          (Demo.world []) = (r, w', evs) ->
        r <> Raise IntegrityMismatch
        /\ deletes (calls evs) = false
        /\ (transfers (calls evs) = true -> client_failure r = false ->
            r = Return (msg_replicated "reports/q1.csv"
                          (gcs_bucket_name (Demo.world [])))))
  /\ (forall r w' evs,
        replicate_file MD5.digest "src" "reports/q1.csv" (Demo.world [])
        = (r, w', evs) ->
        r <> Raise IntegrityMismatch
        /\ r <> Raise (RetryError IntegrityMismatch)).
Proof.
  assert (Ho : s3_objects (Demo.world []) !! ("src", "reports/q1.csv")
               = Some Demo.report) by (vm_compute; reflexivity).
  assert (Hc : composite (etag_of Demo.report) = true)
    by (vm_compute; reflexivity).
  split; [exact Ho|]. split; [exact Hc|].
  exact (composite_never_mismatch MD5.digest "src" "reports/q1.csv"
           (Demo.world []) Demo.report Ho Hc).
Defined.

(** C5 (the code departs from it). A 503 from the destination on the
    upload ends the call after a single attempt, as a [ValueError], with
    no sleep and no second attempt; the same 503 on the existence check
    is retried until the budget of three attempts is used up. *)
Theorem upload_transient_failure_single_attempt :
  Demo.call_outage.1.1
  = Raise (UploadFailed (GoogleAPIError "503 Service Unavailable"))
  /\ attempts Demo.call_outage.2 = [1]
  /\ sleeps Demo.call_outage.2 = []
  /\ uploaded_to "img/logo.png" (calls Demo.call_outage.2)
     = [list_byte_of_string "abc"]
  /\ Demo.call_exists_outage.1.1
     = Raise (RetryError (GoogleAPIError "503 Service Unavailable"))
  /\ attempts Demo.call_exists_outage.2 = [1; 2; 3]
  /\ sleeps Demo.call_exists_outage.2 = [2%N; 2%N].
Proof. vm_compute. repeat split; reflexivity. Qed.

(** C6. A missing source object: when the metadata lookup reports
    not-found, the wrapped call fails with the source-not-found error
    after exactly one attempt, having made that one lookup and slept
    never. *)
Theorem source_not_found_single_attempt md5 b k w :
  source_not_found b k w ->
  exists w' evs,
    replicate_file md5 b k w = (Raise SourceNotFound, w', evs)
    /\ attempts evs = [1]
    /\ sleeps evs = []
    /\ calls evs = [HeadObject b k].
Proof.
  intros Hnf.
  destruct (replicate_file_attempt md5 b k w) as [[r w'] evs] eqn:E.
  assert (Hr : r = Raise SourceNotFound /\ calls evs = [HeadObject b k]).
  { pose proof (attempt_path_run _ _ _ _ _ _ _ E) as Hp.
    destruct Hnf as [[Hn Ho]|[msg Hf]]; inversion Hp; subst;
      try congruence; auto.
    match goal with
    | Hx : next_fault w = Some ?f |- _ =>
        assert (f = FClientError "404" msg) by congruence; subst f
    end. auto. }
  destruct Hr as [-> Hc]. exists w', (EvAttempt 1 :: evs).
  split; [now apply replicate_file_reraise|].
  destruct (attempt_plain _ _ _ _ _ _ _ E) as [Ha Hs].
  cbn [attempts sleeps calls]. now rewrite Ha, Hs, Hc.
Qed.

Lemma source_not_found_single_attempt_witness :
  source_not_found "src" "no/such/key" (Demo.world [])
  /\ exists w' evs,
       replicate_file MD5.digest "src" "no/such/key" (Demo.world [])
       = (Raise SourceNotFound, w', evs)
       /\ attempts evs = [1]
       /\ sleeps evs = []
       /\ calls evs = [HeadObject "src" "no/such/key"].
Proof.
  assert (H : source_not_found "src" "no/such/key" (Demo.world []))
    by (left; split; vm_compute; reflexivity).
  split; [exact H|].
  exact (source_not_found_single_attempt MD5.digest "src" "no/such/key"
           (Demo.world []) H).
Defined.

(** C7, as the code has it. A run that transfers and succeeds returns the
    text "Successfully replicated <key> to GCS <bucket>": the outcome
    names the key and the destination bucket and nothing else. *)
Theorem replicated_outcome_names_key_and_bucket md5 b k w s w' evs :
  replicate_file_attempt md5 b k w = (Return s, w', evs) ->
  transfers (calls evs) = true ->
  s = "Successfully replicated " +:+ k +:+ " to GCS " +:+ gcs_bucket_name w.
Proof.
  intros E Ht. apply attempt_path_run, attempt_path_return in E.
  destruct E as (o & _ & _ & [(_ & _ & _ & Hc & _)|(-> & _)]).
  - rewrite Hc in Ht. discriminate Ht.
  - reflexivity.
Qed.

Lemma replicated_outcome_names_key_and_bucket_witness :
  Demo.run_logo
  = (Return "Successfully replicated img/logo.png to GCS dst",
     Demo.run_logo.1.2, Demo.run_logo.2)
  /\ transfers (calls Demo.run_logo.2) = true
  /\ "Successfully replicated img/logo.png to GCS dst"
     = "Successfully replicated " +:+ "img/logo.png" +:+ " to GCS "
         +:+ gcs_bucket_name (Demo.world []).
Proof.
  assert (E : Demo.run_logo
              = (Return "Successfully replicated img/logo.png to GCS dst",
                 Demo.run_logo.1.2, Demo.run_logo.2))
    by (vm_compute; reflexivity).
  assert (T : transfers (calls Demo.run_logo.2) = true)
    by (vm_compute; reflexivity).
  split; [exact E|]. split; [exact T|].
  exact (replicated_outcome_names_key_and_bucket MD5.digest "src"
           "img/logo.png" (Demo.world []) _ _ _ E T).
Defined.

(** C7 as stated fails: no reading of the returned outcome yields the
    number of bytes transferred or the digest computed. Two runs that
    transfer payloads of 3 and of 11 bytes, with different digests,
    return the same outcome. *)
Lemma outcome_carries_count_and_digest_counterexample :
  ~ exists (byte_count : string -> nat) (final_digest : string -> string),
      forall b k w s w' evs o,
        replicate_file_attempt MD5.digest b k w = (Return s, w', evs) ->
        transfers (calls evs) = true ->
        s3_objects w !! (b, k) = Some o ->
        byte_count s = length (s3_body o)
        /\ final_digest s = Text.hex (MD5.digest (s3_body o)).
Proof.
  intros (byte_count & final_digest & H).
  assert (Ea : Demo.run_a
               = (Return "Successfully replicated k to GCS dst",
                  Demo.run_a.1.2, Demo.run_a.2)) by (vm_compute; reflexivity).
  assert (Eb : Demo.run_b
               = (Return "Successfully replicated k to GCS dst",
                  Demo.run_b.1.2, Demo.run_b.2)) by (vm_compute; reflexivity).
  destruct (H "src" "k" Demo.world_a _ _ _ Demo.logo Ea) as [Ha _];
    [vm_compute; reflexivity | vm_compute; reflexivity |].
  destruct (H "src" "k" Demo.world_b _ _ _ Demo.greeting Eb) as [Hb _];
    [vm_compute; reflexivity | vm_compute; reflexivity |].
  rewrite Ha in Hb. vm_compute in Hb. discriminate Hb.
Qed.



(** C9. Composite digest, nothing at the destination: with no failure
    scheduled, the run makes the full transfer -- the lookup, the
    existence check, the download, the reads, the upload of the whole
    payload -- and returns the "replicated" outcome without verifying and
    without deleting, whatever the MD5 of the payload is. A run skips only
    where a blob exists at the destination key. *)
Theorem composite_without_destination_transfers md5 b k w o :
  s3_objects w !! (b, k) = Some o ->
  composite (etag_of o) = true ->
  gcs_objects w !! k = None ->
  calm w = true ->
  (exists w' evs n,
     replicate_file_attempt md5 b k w
     = (Return (msg_replicated k (gcs_bucket_name w)), w', evs)
     /\ gcs_objects w' = <[k := uploaded_blob md5 o]> (gcs_objects w)
     /\ calls evs
        = [HeadObject b k; BlobExists k; GetObject b k]
            ++ repeat (BodyRead CHUNK_SIZE) n
            ++ [BlobUpload k (content_type_of o) (s3_body o)]
     /\ streamed o evs)
  /\ (forall w0 w' evs,
        replicate_file_attempt md5 b k w0 = (Return msg_skip, w', evs) ->
        is_Some (gcs_objects w0 !! k)).
Proof.
  intros Ho Hc Hg Hcalm. split.
  - destruct (replicate_file_attempt md5 b k w) as [[r w'] evs] eqn:E.
    pose proof (calm_next_fault w Hcalm) as Hnf.
    assert (Hm : mismatch md5 o = false).
    { unfold mismatch. rewrite Hc. apply andb_false_r. }
    apply attempt_path_run in E. inversion E; subst;
      try congruence;
      try (exfalso; eapply calm_not_faulted; eassumption).
    match goal with
    | Hl : s3_objects w !! (b, k) = Some ?o' |- _ =>
        assert (o' = o) by congruence; subst o'
    end.
    match goal with
    | Hp : proceeds _ _ _ _ _ |- _ =>
        destruct Hp as [[_ ->]|(blob & hex & Hb & _)]; [|congruence]
    end.
    match goal with
    | Ht : transfer_path _ _ _ _ _ _ _ _ _ |- _ => inversion Ht; subst
    end;
      try congruence;
      try (exfalso; eapply calm_not_faulted; eassumption).
    eexists _, _, _. split; [reflexivity|]. split; [eassumption|].
    split; [|eassumption].
    match goal with
    | Hcs : calls evs = _ |- _ => rewrite Hcs
    end. reflexivity.
  - intros w0 w' evs E. apply attempt_path_run, attempt_path_return in E.
    destruct E as (o' & _ & _ & [(_ & (blob & hex & Hb & _) & _)|(Hs & _)]).
    + rewrite Hb. eauto.
    + symmetry in Hs. now apply msg_replicated_not_skip in Hs.
Qed.

Lemma composite_without_destination_transfers_witness :
  s3_objects (Demo.world []) !! ("src", "reports/q1.csv") = Some Demo.report
  /\ composite (etag_of Demo.report) = true
  /\ gcs_objects (Demo.world []) !! "reports/q1.csv" = None
  /\ calm (Demo.world []) = true
  /\ (exists w' evs n,
        replicate_file_attempt MD5.digest "src" "reports/q1.csv"
          (Demo.world [])
        = (Return (msg_replicated "reports/q1.csv"
                     (gcs_bucket_name (Demo.world []))), w', evs)
        /\ gcs_objects w'
           = <["reports/q1.csv" := uploaded_blob MD5.digest Demo.report]>
               (gcs_objects (Demo.world []))
        /\ calls evs
           = [HeadObject "src" "reports/q1.csv"; BlobExists "reports/q1.csv";
              GetObject "src" "reports/q1.csv"]
               ++ repeat (BodyRead CHUNK_SIZE) n
               ++ [BlobUpload "reports/q1.csv" (content_type_of Demo.report)
                     (s3_body Demo.report)]
        /\ streamed Demo.report evs)
  /\ (forall w0 w' evs,
        replicate_file_attempt MD5.digest "src" "reports/q1.csv" w0
        = (Return msg_skip, w', evs) ->
        is_Some (gcs_objects w0 !! "reports/q1.csv")).
Proof.
  assert (H1 : s3_objects (Demo.world []) !! ("src", "reports/q1.csv")
               = Some Demo.report) by (vm_compute; reflexivity).
  assert (H2 : composite (etag_of Demo.report) = true)
    by (vm_compute; reflexivity).
  assert (H3 : gcs_objects (Demo.world []) !! "reports/q1.csv" = None)
    by (vm_compute; reflexivity).
  assert (H4 : calm (Demo.world []) = true) by (vm_compute; reflexivity).
  split; [exact H1|]. split; [exact H2|]. split; [exact H3|].
  split; [exact H4|].
  exact (composite_without_destination_transfers MD5.digest "src"
           "reports/q1.csv" (Demo.world []) Demo.report H1 H2 H3 H4).
Defined.

(** C10. No delete on a failed upload. When the upload is the call that
    fails -- the calls before it, the checks, the download and the
    reads, go through, and the upload meets the failure [f] -- the call
    raises the upload error that wraps [f] after one attempt, the upload
    is the last call it made, it issued no delete, and the destination
    is as it was. And a run that issues a delete at all does so right
    after the upload, for a source object whose comparable digest differs
    from the MD5 of the payload. *)
Theorem upload_failure_no_delete md5 b k w o pre f tl :
  s3_objects w !! (b, k) = Some o ->
  proceeds b k o w pre ->
  faults w = repeat None (upload_slot pre o) ++ Some f :: tl ->
  (exists w' evs,
     replicate_file md5 b k w
     = (Raise (UploadFailed (exn_of_fault f)), w', evs)
     /\ attempts evs = [1] /\ sleeps evs = []
     /\ calls evs
        = transfer_calls b k o pre (reads_of CHUNK_SIZE (s3_body o))
     /\ deletes (calls evs) = false
     /\ gcs_objects w' = gcs_objects w)
  /\ (forall w0 r0 w0' evs0,
        replicate_file_attempt md5 b k w0 = (r0, w0', evs0) ->
        deletes (calls evs0) = true ->
        exists o0 cs,
          s3_objects w0 !! (b, k) = Some o0 /\ mismatch md5 o0 = true
          /\ deletes cs = false
          /\ calls evs0
             = cs ++ [BlobUpload k (content_type_of o0) (s3_body o0);
                      BlobDelete k]).
Proof.
  intros Ho Hp Hf. split.
  - destruct (replicate_file_attempt md5 b k w) as [[r w'] evs] eqn:E.
    pose proof (wp_run _ _ _ _ _ _
                  (wp_attempt_upload_fault md5 b k w o pre f tl Ho Hp Hf) E)
      as (-> & _ & _ & Hg & Hc).
    exists w', (EvAttempt 1 :: evs).
    split; [now apply replicate_file_reraise|].
    destruct (attempt_plain _ _ _ _ _ _ _ E) as [Ha Hs].
    cbn [attempts sleeps calls]. rewrite Ha, Hs, Hc.
    destruct (proceeds_pre _ _ _ _ _ Hp) as (_ & Hpd & _).
    rewrite transfer_calls_deletes by exact Hpd. auto 10.
  - clear. intros w r w' evs E Hd. apply attempt_path_run in E.
    inversion E; subst;
      try match goal with
          | Hcs : calls evs = _ |- _ => rewrite Hcs in Hd; discriminate Hd
          end.
    match goal with
    | Hp : proceeds _ _ _ _ _ |- _ =>
        destruct (proceeds_pre _ _ _ _ _ Hp) as (_ & Hpd & _)
    end.
    assert (Hcs : forall n,
      deletes (pre ++ GetObject b k :: repeat (BodyRead CHUNK_SIZE) n) = false).
    { intros n. rewrite deletes_app, Hpd. cbn. apply deletes_reads. }
    match goal with
    | Ht : transfer_path _ _ _ _ _ _ _ _ _ |- _ => inversion Ht; subst
    end;
      match goal with
      | Hc : calls evs = _ |- _ => rewrite Hc in Hd |- *
      end.
    + rewrite deletes_app, Hpd in Hd. discriminate Hd.
    + rewrite Hcs in Hd. discriminate Hd.
    + rewrite transfer_calls_deletes in Hd by exact Hpd. discriminate Hd.
    + eexists o, _. split; [eassumption|]. split; [eassumption|].
      split; [apply (Hcs n)|]. unfold transfer_calls.
      now rewrite <- !app_assoc, <- app_comm_cons, <- app_assoc.
    + eexists o, _. split; [eassumption|]. split; [eassumption|].
      split; [apply (Hcs n)|]. unfold transfer_calls.
      now rewrite <- !app_assoc, <- app_comm_cons, <- app_assoc.
    + rewrite transfer_calls_deletes in Hd by exact Hpd. discriminate Hd.
Qed.

Lemma upload_failure_no_delete_witness :
  s3_objects Demo.upload_outage !! ("src", "img/logo.png") = Some Demo.logo
  /\ proceeds "src" "img/logo.png" Demo.logo Demo.upload_outage
       [HeadObject "src" "img/logo.png"; BlobExists "img/logo.png"]
  /\ faults Demo.upload_outage
     = repeat None
         (upload_slot
            [HeadObject "src" "img/logo.png"; BlobExists "img/logo.png"]
            Demo.logo)
       ++ Some Demo.unavailable :: []
  /\ exists w' evs,
       replicate_file MD5.digest "src" "img/logo.png" Demo.upload_outage
       = (Raise (UploadFailed (exn_of_fault Demo.unavailable)), w', evs)
       /\ attempts evs = [1] /\ sleeps evs = []
       /\ calls evs
          = transfer_calls "src" "img/logo.png" Demo.logo
              [HeadObject "src" "img/logo.png"; BlobExists "img/logo.png"]
              (reads_of CHUNK_SIZE (s3_body Demo.logo))
       /\ deletes (calls evs) = false
       /\ gcs_objects w' = gcs_objects Demo.upload_outage.
Proof.
  assert (H1 : s3_objects Demo.upload_outage !! ("src", "img/logo.png")
               = Some Demo.logo) by (vm_compute; reflexivity).
  assert (H2 : proceeds "src" "img/logo.png" Demo.logo Demo.upload_outage
                 [HeadObject "src" "img/logo.png"; BlobExists "img/logo.png"])
    by (left; split; [vm_compute; reflexivity | reflexivity]).
  assert (H3 : faults Demo.upload_outage
               = repeat None
                   (upload_slot
                      [HeadObject "src" "img/logo.png";
                       BlobExists "img/logo.png"] Demo.logo)
                 ++ Some Demo.unavailable :: [])
    by (vm_compute; reflexivity).
  split; [exact H1|]. split; [exact H2|]. split; [exact H3|].
  exact (proj1 (upload_failure_no_delete MD5.digest "src" "img/logo.png"
                  Demo.upload_outage Demo.logo _ Demo.unavailable [] H1 H2 H3)).
Defined.

(* ===================================================================== *)
(** * The two scenarios, run *)
(* ===================================================================== *)

(** Key "img/logo.png", nothing at the destination: replicated. *)
Example scenario_replicated :
  Demo.call_logo.1.1
  = Return "Successfully replicated img/logo.png to GCS dst"
  /\ calls Demo.call_logo.2
     = [HeadObject "src" "img/logo.png"; BlobExists "img/logo.png";
        GetObject "src" "img/logo.png"; BodyRead 65536; BodyRead 65536;
        BlobUpload "img/logo.png" "image/png" (list_byte_of_string "abc")]
  /\ hash_updates Demo.call_logo.2 = [list_byte_of_string "abc"]
  /\ gcs_objects Demo.call_logo.1.2 !! "img/logo.png"
     = Some {| gcs_data := list_byte_of_string "abc";
               gcs_content_type := "image/png";
               gcs_md5_hash := Some "kAFQmDzST7DWlj99KOF/cg==" |}.
Proof. vm_compute. repeat split; reflexivity. Qed.

(** The same key again, the matching digest now at the destination:
    skipped, nothing downloaded, nothing uploaded. *)
Example scenario_skipped :
  Demo.call_logo_again.1.1
  = Return "File already replicated (idempotent skip)"
  /\ calls Demo.call_logo_again.2
     = [HeadObject "src" "img/logo.png"; BlobExists "img/logo.png";
        BlobReload "img/logo.png"]
  /\ gcs_objects Demo.call_logo_again.1.2 = gcs_objects Demo.call_logo.1.2.
Proof. vm_compute. repeat split; reflexivity. Qed.

(** A damaged download: uploaded, found out, deleted. *)
Example scenario_mismatch :
  Demo.run_damaged.1.1 = Raise (ValueError "Checksum mismatch after upload")
  /\ calls Demo.run_damaged.2
     = [HeadObject "src" "tmp/damaged.bin"; BlobExists "tmp/damaged.bin";
        GetObject "src" "tmp/damaged.bin"; BodyRead 65536; BodyRead 65536;
        BlobUpload "tmp/damaged.bin" "text/csv" (list_byte_of_string "abc");
        BlobDelete "tmp/damaged.bin"]
  /\ gcs_objects Demo.run_damaged.1.2 !! "tmp/damaged.bin" = None.
Proof. vm_compute. repeat split; reflexivity. Qed.

(* ===================================================================== *)
(** * The paths of the retry wrapper *)
(* ===================================================================== *)

Section RetryPathsOfRuns.

Context {A : Type}.
Variable wait : nat -> N.
Variable retry : exn -> bool.
Variable fn : M A.

Lemma retry_path_complete more : forall n w r w' evs,
  retrying wait retry fn more n w = (r, w', evs) ->
  retry_path wait retry fn more n w r w' evs.
Proof.
  induction more as [|more IH]; intros n w r w' evs E;
    destruct (fn w) as [[[a|e] w1] evs1] eqn:Efn.
  - erewrite retrying_return in E by eassumption.
    injection E as <- <- <-. now apply RP_return.
  - destruct (retry e) eqn:Hr.
    + erewrite retrying_exhausted in E by eassumption.
      injection E as <- <- <-. now apply RP_exhausted.
    + erewrite retrying_reraise in E by eassumption.
      injection E as <- <- <-. now apply RP_reraise.
  - erewrite retrying_return in E by eassumption.
    injection E as <- <- <-. now apply RP_return.
  - destruct (retry e) eqn:Hr.
    + destruct (retrying wait retry fn more (S n) w1) as [[r2 w2] evs2] eqn:E2.
      erewrite retrying_again in E by eassumption.
      injection E as <- <- <-. eapply RP_again; eauto.
    + erewrite retrying_reraise in E by eassumption.
      injection E as <- <- <-. now apply RP_reraise.
Qed.

Lemma retry_path_sound more n w r w' evs :
  retry_path wait retry fn more n w r w' evs ->
  retrying wait retry fn more n w = (r, w', evs).
Proof.
  induction 1.
  - now apply retrying_return.
  - now apply retrying_reraise.
  - now apply retrying_exhausted.
  - eapply retrying_again; eauto.
Qed.

(** The attempts are numbered from [n] on without a gap, each but the
    last followed by the sleep the policy gives for its number, when
    [fn] keeps no retry bookkeeping of its own. *)
Lemma retry_path_schedule more n w r w' evs :
  (forall w r w' evs, fn w = (r, w', evs) ->
     attempts evs = [] /\ sleeps evs = []) ->
  retry_path wait retry fn more n w r w' evs ->
  exists j, j <= more /\ attempts evs = seq n (S j)
            /\ sleeps evs = map wait (seq n j).
Proof.
  intros Hfn H.
  induction H as [more n w a w1 evs E|more n w e w1 evs E Hr
                 |n w e w1 evs E Hr|more n w e w1 evs r w2 evs2 E Hr H IH];
    destruct (Hfn _ _ _ _ E) as [Ha Hs].
  1-3: exists 0; cbn; rewrite Ha, Hs;
    (split; [apply Nat.le_0_l | split; reflexivity]).
  destruct IH as (j & Hj & Ha2 & Hs2). exists (S j).
  split; [lia|]. trace_simpl. rewrite Ha, Hs, Ha2, Hs2. now cbn.
Qed.

(** A count on the calls that is the same for every run of [fn] is
    multiplied by the number of attempts. *)
Lemma retry_path_count (count : list call -> nat) c more n w r w' evs :
  (forall cs1 cs2, count (cs1 ++ cs2) = count cs1 + count cs2) ->
  (forall w r w' evs, fn w = (r, w', evs) ->
     attempts evs = [] /\ count (calls evs) = c) ->
  retry_path wait retry fn more n w r w' evs ->
  count (calls evs) = length (attempts evs) * c.
Proof.
  intros Happ Hfn H.
  induction H as [more n w a w1 evs E|more n w e w1 evs E Hr
                 |n w e w1 evs E Hr|more n w e w1 evs r w2 evs2 E Hr H IH];
    destruct (Hfn _ _ _ _ E) as [Ha Hc].
  1-3: cbn [calls attempts length]; rewrite Ha, Hc; cbn; lia.
  cbn [calls attempts length]. rewrite calls_app, attempts_app, Happ.
  cbn [calls attempts]. rewrite IH, Hc, Ha. cbn [app length]. lia.
Qed.

End RetryPathsOfRuns.

(* ===================================================================== *)
(** * More on single attempts *)
(* ===================================================================== *)

Lemma lookups_app cs1 cs2 : lookups (cs1 ++ cs2) = lookups cs1 + lookups cs2.
Proof.
  induction cs1 as [|c cs1 IH]; [reflexivity|].
  destruct c; cbn; now rewrite ?IH.
Qed.

Lemma lookups_reads amt n : lookups (repeat (BodyRead amt) n) = 0.
Proof. induction n; cbn; trivial. Qed.

Lemma transfer_calls_lookups b k o pre n :
  lookups (transfer_calls b k o pre n) = lookups pre.
Proof.
  unfold transfer_calls. rewrite lookups_app. cbn [lookups].
  rewrite lookups_app, lookups_reads. cbn. lia.
Qed.

Lemma transfer_path_lookups md5 b k o pre w r w' evs :
  transfer_path md5 b k o pre w r w' evs -> lookups (calls evs) = lookups pre.
Proof.
  intros H. inversion H; subst;
    match goal with Hc : calls evs = _ |- _ => rewrite Hc end;
    rewrite ?lookups_app, ?transfer_calls_lookups; cbn [lookups];
    rewrite ?lookups_reads; lia.
Qed.

(** Every attempt looks the source object up once. *)
Lemma attempt_lookups md5 b k w r w' evs :
  replicate_file_attempt md5 b k w = (r, w', evs) -> lookups (calls evs) = 1.
Proof.
  intros E. apply attempt_path_run in E. inversion E; subst;
    try (match goal with Hc : calls evs = _ |- _ => now rewrite Hc end).
  match goal with Ht : transfer_path _ _ _ _ _ _ _ _ _ |- _ =>
    rewrite (transfer_path_lookups _ _ _ _ _ _ _ _ _ Ht) end.
  match goal with Hp : proceeds _ _ _ _ _ |- _ =>
    destruct Hp as [(_ & ->)|(? & ? & _ & _ & _ & ->)] end; reflexivity.
Qed.

Lemma replicate_file_path md5 b k w r w' evs :
  replicate_file md5 b k w = (r, w', evs) ->
  retry_path (wait_exponential 1 2 10) retry_if_exception_type
    (replicate_file_attempt md5 b k) 2 1 w r w' evs.
Proof. apply retry_path_complete. Qed.

(** ** Attempts when no failure is scheduled *)

Ltac calm_absurd Hc :=
  try (exfalso;
       match goal with
       | H : faulted _ _ |- _ => exact (calm_not_faulted _ _ Hc H)
       | H : next_fault _ = Some _ |- _ =>
           rewrite (calm_next_fault _ Hc) in H; discriminate H
       end).

Lemma calm_transfer_path md5 b k o pre w r w' evs :
  calm w = true -> transfer_path md5 b k o pre w r w' evs ->
  frame w w' /\ exists n,
    if mismatch md5 o
    then r = Raise IntegrityMismatch
         /\ gcs_objects w'
            = delete k (<[k := uploaded_blob md5 o]> (gcs_objects w))
         /\ calls evs = transfer_calls b k o pre n ++ [BlobDelete k]
    else r = Return (msg_replicated k (gcs_bucket_name w))
         /\ gcs_objects w' = <[k := uploaded_blob md5 o]> (gcs_objects w)
         /\ calls evs = transfer_calls b k o pre n.
Proof.
  intros Hc H. inversion H; subst; calm_absurd Hc;
    (split; [assumption|]); exists n;
    match goal with Hm : mismatch _ _ = _ |- _ => rewrite Hm end; auto.
Qed.

(** Without a scheduled failure an attempt ends in a result the wrapper
    hands on, in a world that is calm again. *)
Lemma calm_attempt_terminal md5 b k w r w' evs :
  calm w = true -> replicate_file_attempt md5 b k w = (r, w', evs) ->
  terminal r = true /\ calm w' = true.
Proof.
  intros Hc E. apply attempt_path_run in E. inversion E; subst; calm_absurd Hc;
    try (split; [reflexivity | eapply calm_frame; eassumption]).
  match goal with Ht : transfer_path _ _ _ _ _ _ _ _ _ |- _ =>
    destruct (calm_transfer_path _ _ _ _ _ _ _ _ _ Hc Ht) as (Hfr & n & Hm) end.
  split; [|eapply calm_frame; eassumption].
  destruct (mismatch md5 o); destruct Hm as (-> & _); reflexivity.
Qed.

(* ===================================================================== *)
(** * What every event of a run is *)
(* ===================================================================== *)

Section Emits.

Variable P : event -> Prop.

Lemma emits_ret {A} (a : A) : emits P (ret a).
Proof. intros w. apply wp_ret. constructor. Qed.

Lemma emits_raise {A} e : emits P (raise e : M A).
Proof. intros w. apply wp_raise. constructor. Qed.

Lemma emits_tell ev : P ev -> emits P (tell ev).
Proof. intros H w. apply wp_tell. now repeat constructor. Qed.

Lemma emits_get_world : emits P get_world.
Proof. intros w. apply wp_get_world. constructor. Qed.

Lemma emits_put_world w' : emits P (put_world w').
Proof. intros w. apply wp_put_world. constructor. Qed.

Lemma emits_bind {A B} (m : M A) (f : A -> M B) :
  emits P m -> (forall a, emits P (f a)) -> emits P (bind m f).
Proof.
  intros Hm Hf w. apply wp_bind. eapply wp_mono; [apply Hm|].
  intros [a|e] w1 ev1 H1; [|exact H1].
  eapply wp_mono; [apply Hf|]. intros r w2 ev2 H2.
  apply Forall_app. now split.
Qed.

Lemma emits_try_except {A} (m : M A) (h : exn -> M A) :
  emits P m -> (forall e, emits P (h e)) -> emits P (try_except m h).
Proof.
  intros Hm Hh w. apply wp_try_except. eapply wp_mono; [apply Hm|].
  intros [a|e] w1 ev1 H1; [exact H1|].
  eapply wp_mono; [apply Hh|]. intros r w2 ev2 H2.
  apply Forall_app. now split.
Qed.

Lemma emits_client_call {A} c (answer : M A) :
  P (EvCall c) -> emits P answer -> emits P (client_call c answer).
Proof.
  intros Hc Ha w. apply wp_client_call.
  - intros f _. now repeat constructor.
  - intros _. eapply wp_mono; [apply Ha|]. intros r w2 ev2 H.
    now constructor.
Qed.

Lemma emits_retrying {A} wait retry (fn : M A) :
  emits P fn -> (forall n, P (EvAttempt n)) -> (forall s, P (EvSleep s)) ->
  forall more n, emits P (retrying wait retry fn more n).
Proof.
  intros Hfn Ha Hs more.
  induction more as [|more IH]; intros n; cbn [retrying];
    (apply emits_bind; [now apply emits_tell|]); intros _;
    (apply emits_try_except; [exact Hfn|]); intros e;
    destruct (retry e); try apply emits_raise.
  apply emits_bind; [now apply emits_tell|]. intros _. apply IH.
Qed.

End Emits.

Ltac emits_step :=
  lazymatch goal with
  | |- emits _ (bind _ _) => apply emits_bind; [|intros ?]
  | |- emits _ (ret _) => apply emits_ret
  | |- emits _ (raise _) => apply emits_raise
  | |- emits _ (log _ _) => apply emits_tell; exact I
  | |- emits _ get_world => apply emits_get_world
  | |- emits _ (put_world _) => apply emits_put_world
  | |- emits _ (try_except _ _) => apply emits_try_except; [|intros ?]
  | |- emits _ (client_call _ _) =>
      apply emits_client_call; [cbn; auto|]
  | |- emits _ (if ?b then _ else _) => destruct b
  | |- emits _ (match ?x with _ => _ end) => destruct x
  end.

Lemma emits_read_loop b k amt fuel : forall body h sp,
  emits (proper_event b k amt) (read_loop fuel amt body h sp).
Proof.
  induction fuel as [|fuel IH]; intros body h sp; cbn [read_loop].
  - apply emits_raise.
  - intros w. unfold body_read. apply wp_bind, wp_client_call.
    { intros f _. now repeat constructor. }
    intros _. apply wp_ret. cbn [fst snd].
    destruct (firstn (N.to_nat amt) body) as [|x chunk] eqn:Ec.
    + apply wp_ret. now repeat constructor.
    + assert (Hok : chunk_ok amt (x :: chunk)).
      { split; [discriminate|]. rewrite <- Ec, length_firstn. lia. }
      wp_steps. eapply wp_mono; [apply IH|]. intros r w2 evs2 H.
      cbn beta in H.
      repeat (constructor; [first [exact I | exact Hok]|]). exact H.
Qed.

Lemma emits_attempt md5 b k :
  emits (proper_event b k CHUNK_SIZE) (replicate_file_attempt md5 b k).
Proof.
  unfold replicate_file_attempt, uuid4, try_except_ClientError, head_object,
    blob_exists, blob_reload, decode_md5_hash, transfer, get_object,
    read_chunks, blob_upload_from_file, blob_delete.
  repeat first [ apply emits_read_loop | emits_step ].
Qed.

Lemma emits_replicate_file md5 b k :
  emits (proper_event b k CHUNK_SIZE) (replicate_file md5 b k).
Proof.
  unfold replicate_file, retry_decorator.
  apply emits_retrying; [apply emits_attempt | easy | easy].
Qed.

Lemma proper_calls b k amt evs :
  Forall (proper_event b k amt) evs -> Forall (concerns b k) (calls evs).
Proof.
  induction 1 as [|ev evs H _ IH]; [constructor|].
  destruct ev; cbn [calls]; try exact IH. now constructor.
Qed.

Lemma proper_hash_updates b k amt evs :
  Forall (proper_event b k amt) evs -> Forall (chunk_ok amt) (hash_updates evs).
Proof.
  induction 1 as [|ev evs H _ IH]; [constructor|].
  destruct ev; cbn [hash_updates]; try exact IH. now constructor.
Qed.

Lemma proper_spool_writes b k amt evs :
  Forall (proper_event b k amt) evs -> Forall (chunk_ok amt) (spool_writes evs).
Proof.
  induction 1 as [|ev evs H _ IH]; [constructor|].
  destruct ev; cbn [spool_writes]; try exact IH. now constructor.
Qed.

(* ===================================================================== *)
(** * What an attempt does to the destination *)
(* ===================================================================== *)

Lemma transfer_path_other_keys md5 b k o pre w r w' evs k' :
  transfer_path md5 b k o pre w r w' evs -> k' <> k ->
  gcs_objects w' !! k' = gcs_objects w !! k'.
Proof.
  intros H Hk. assert (Hk' : k <> k') by congruence.
  inversion H; subst;
    match goal with Hg : gcs_objects w' = _ |- _ => rewrite Hg end;
    rewrite ?lookup_delete_ne, ?lookup_insert_ne by exact Hk'; reflexivity.
Qed.

Lemma attempt_path_other_keys md5 b k w r w' evs k' :
  attempt_path md5 b k w r w' evs -> k' <> k ->
  gcs_objects w' !! k' = gcs_objects w !! k'.
Proof.
  intros H Hk. inversion H; subst;
    try (match goal with Hg : gcs_objects w' = _ |- _ => now rewrite Hg end).
  eapply transfer_path_other_keys; eassumption.
Qed.

(** Without a scheduled failure, an attempt that gets past the checks
    ends as the test of line 63 says. *)
Lemma calm_attempt_transfers md5 b k w o pre :
  calm w = true -> s3_objects w !! (b, k) = Some o -> proceeds b k o w pre ->
  exists r w' evs n,
    replicate_file_attempt md5 b k w = (r, w', evs)
    /\ frame w w'
    /\ if mismatch md5 o
       then r = Raise IntegrityMismatch
            /\ gcs_objects w'
               = delete k (<[k := uploaded_blob md5 o]> (gcs_objects w))
            /\ calls evs = transfer_calls b k o pre n ++ [BlobDelete k]
       else r = Return (msg_replicated k (gcs_bucket_name w))
            /\ gcs_objects w' = <[k := uploaded_blob md5 o]> (gcs_objects w)
            /\ calls evs = transfer_calls b k o pre n.
Proof.
  intros Hc Ho Hp.
  destruct (replicate_file_attempt md5 b k w) as [[r w'] evs] eqn:E.
  pose proof (attempt_path_run _ _ _ _ _ _ _ E) as H.
  inversion H; subst; calm_absurd Hc; try congruence.
  - exfalso. destruct Hp as [(Hn & _)|(blob' & hex & Hb & Hd & _)];
      congruence.
  - exfalso. destruct Hp as [(Hn & _)|(blob' & hex' & Hb & Hd & Ha & _)];
      congruence.
  - match goal with Ho' : s3_objects w !! (b, k) = Some _ |- _ =>
      rewrite Ho in Ho'; injection Ho' as <- end.
    match goal with Ht : transfer_path _ _ _ _ _ _ _ _ _ |- _ =>
      destruct (calm_transfer_path _ _ _ _ _ _ _ _ _ Hc Ht) as (Hfr & n & Hm)
    end.
    assert (pre0 = pre) as ->.
    { match goal with Hp' : proceeds _ _ _ _ pre0 |- _ =>
        destruct Hp' as [(Hn' & ->)|(? & ? & Hb' & _ & _ & ->)] end;
        destruct Hp as [(Hn & ->)|(? & ? & Hb & _ & _ & ->)]; congruence. }
    exists r, w', evs, n. auto.
Qed.

(* ===================================================================== *)
(** * The read loop, chunk by chunk *)
(* ===================================================================== *)

(** One more slice of [n] bytes is one more in the rounded-up quotient. *)
Lemma ceil_div_step len n :
  0 < n -> 0 < len ->
  S ((len - n + n - 1) / n) = (len + n - 1) / n.
Proof.
  intros Hn Hlen. destruct (Nat.le_gt_cases n len) as [H|H].
  - replace (len + n - 1) with ((len - n + n - 1) + 1 * n) by lia.
    rewrite Nat.div_add by lia. lia.
  - replace (len - n + n - 1) with (n - 1) by lia.
    rewrite Nat.div_small by lia.
    apply (Nat.div_unique _ _ _ (len - 1)); lia.
Qed.

Lemma wp_read_loop_slices amt : (0 < amt)%N -> forall fuel body h sp w,
  length body < fuel ->
  wp (read_loop fuel amt body h sp) w (fun r _ evs =>
    match r with
    | Return _ =>
        length (hash_updates evs)
        = (length body + N.to_nat amt - 1) / N.to_nat amt
        /\ (forall i c, hash_updates evs !! i = Some c ->
              c = take (N.to_nat amt) (drop (i * N.to_nat amt) body))
        /\ calls evs
           = repeat (BodyRead amt) (S (length (hash_updates evs)))
    | Raise _ => True
    end).
Proof.
  intros Hamt. assert (Hn : 0 < N.to_nat amt) by lia.
  induction fuel as [|fuel IH]; intros body h sp w Hlen; [lia|].
  cbn [read_loop]. wp_step. unfold body_read. apply wp_client_call.
  - intros f Hf. exact I.
  - intros _. wp_step. cbn [fst snd].
    destruct (take (N.to_nat amt) body) as [|x chunk] eqn:E.
    + wp_step. apply take_nil_inv in E as [E| ->]; [lia|].
      cbn. split; [|split; [|reflexivity]].
      * symmetry. apply Nat.div_small. lia.
      * intros i c Hi. discriminate Hi.
    + assert (Hne : 0 < length body).
      { destruct body; [now rewrite take_nil in E | cbn; lia]. }
      wp_steps. eapply wp_mono.
      { apply (IH (drop (N.to_nat amt) body)). rewrite length_drop. lia. }
      cbn beta. intros [hs|e] w' evs; [|trivial]. intros (Hl & Hs & Hc).
      cbn [app calls hash_updates length].
      split; [rewrite Hl, length_drop; now apply ceil_div_step|].
      split; [|now rewrite Hc].
      intros [|i] c Hi.
      * cbn in Hi. injection Hi as <-. now rewrite drop_0.
      * cbn [lookup list_lookup] in Hi. apply Hs in Hi.
        rewrite drop_drop in Hi. exact Hi.
Qed.

(** ** The spool file rolls over once the position has passed the
    limit *)

Lemma spool_writes_rolled chunks : forall sp,
  spool_pos sp = length (spool_data sp) ->
  spool_rolled sp = (spool_max_size sp <? N.of_nat (spool_pos sp))%N ->
  spool_rolled (fold_left spool_write chunks sp)
  = (spool_max_size sp
     <? N.of_nat (length (spool_data sp ++ concat chunks)))%N.
Proof.
  induction chunks as [|c cs IH]; intros sp Hp Hr; cbn [fold_left concat].
  - now rewrite app_nil_r, <- Hp.
  - destruct (spool_write_end sp c Hp) as [Hd Hp'].
    rewrite IH.
    + rewrite Hd, <- app_assoc. reflexivity.
    + congruence.
    + rewrite Hp'. unfold spool_write at 1 2. cbn [spool_rolled spool_max_size].
      rewrite Hr, Hp, length_app.
      destruct (N.ltb_spec (spool_max_size sp)
                  (N.of_nat (length (spool_data sp)))),
               (N.ltb_spec (spool_max_size sp)
                  (N.of_nat (length (spool_data sp) + length c)));
        cbn; trivial; lia.
Qed.

(** The read loop returns when no failure is scheduled. *)
Lemma calm_read_chunks amt body h sp w :
  (0 < amt)%N -> calm w = true ->
  exists hs w' evs,
    read_chunks amt body h sp w = (Return hs, w', evs)
    /\ hash_updates evs = spool_writes evs
    /\ concat (hash_updates evs) = body
    /\ fst hs = h ++ body
    /\ snd hs = fold_left spool_write (hash_updates evs) sp.
Proof.
  intros Hamt Hc. unfold read_chunks.
  destruct (read_loop (S (length body)) amt body h sp w) as [[r w'] evs] eqn:E.
  pose proof (wp_run _ _ _ _ _ _
                (wp_read_loop amt Hamt (S (length body)) body h sp w
                   (Nat.lt_succ_diag_r _)) E) as (_ & _ & _ & Hr).
  destruct r as [hs|e].
  - exists hs, w', evs. auto.
  - exfalso. destruct Hr as (f & Hf & _). exact (calm_not_faulted _ _ Hc Hf).
Qed.

(* ===================================================================== *)
(** * The retry wrapper, seen from the caller *)
(* ===================================================================== *)

(** X1. Every call of [replicate_file], whatever fails, makes one, two or
    three attempts, numbered 1, 2, 3 without a gap; it sleeps 2 seconds
    between two attempts and never after the last; and each attempt
    starts over with the lookup of the source object, so that there are
    as many [head_object] calls as attempts. *)
Theorem retry_schedule md5 b k w r w' evs :
  replicate_file md5 b k w = (r, w', evs) ->
  exists n,
    1 <= n <= 3
    /\ attempts evs = seq 1 n
    /\ sleeps evs = repeat 2%N (n - 1)
    /\ lookups (calls evs) = n.
Proof.
  intros E. apply replicate_file_path in E.
  destruct (retry_path_schedule _ _ _ _ _ _ _ _ _ (attempt_plain md5 b k) E)
    as (j & Hj & Ha & Hs).
  assert (Hl : lookups (calls evs) = length (attempts evs) * 1).
  { eapply (retry_path_count _ _ _ lookups 1); [apply lookups_app| |exact E].
    intros w0 r0 w0' evs0 E0. split.
    - apply (attempt_plain _ _ _ _ _ _ _ E0).
    - apply (attempt_lookups _ _ _ _ _ _ _ E0). }
  exists (S j). rewrite Ha, length_seq, Nat.mul_1_r in Hl.
  split; [lia|]. split; [exact Ha|]. split; [|exact Hl].
  rewrite Hs. destruct j as [|[|[|j]]]; try reflexivity. lia.
Qed.

Lemma retry_schedule_witness :
  Demo.call_exists_outage
  = (Demo.call_exists_outage.1.1, Demo.call_exists_outage.1.2,
     Demo.call_exists_outage.2)
  /\ exists n,
       1 <= n <= 3
       /\ attempts Demo.call_exists_outage.2 = seq 1 n
       /\ sleeps Demo.call_exists_outage.2 = repeat 2%N (n - 1)
       /\ lookups (calls Demo.call_exists_outage.2) = n.
Proof.
  assert (E : Demo.call_exists_outage
              = (Demo.call_exists_outage.1.1, Demo.call_exists_outage.1.2,
                 Demo.call_exists_outage.2))
    by (vm_compute; reflexivity).
  split; [exact E|].
  exact (retry_schedule MD5.digest "src" "img/logo.png" Demo.exists_outage
           _ _ _ E).
Defined.

(** X2. The caller never sees a [ClientError] or a [GoogleAPIError] as it
    was raised: what [replicate_file] raises is not of a retried class.
    Such an error reaches the caller inside [RetryError] only, and then
    three attempts were made. *)
Theorem retried_errors_come_wrapped md5 b k w r w' evs :
  replicate_file md5 b k w = (r, w', evs) ->
  terminal r = true
  /\ forall e, r = Raise (RetryError e) ->
       retry_if_exception_type e = true /\ attempts evs = [1; 2; 3].
Proof.
  intros E. apply replicate_file_path in E. rename E into Hp.
  destruct (retry_path_schedule _ _ _ _ _ _ _ _ _ (attempt_plain md5 b k) Hp)
    as (j & _ & Ha & _).
  assert (G : forall more i w0 r0 w1 evs0,
    retry_path (wait_exponential 1 2 10) retry_if_exception_type
      (replicate_file_attempt md5 b k) more i w0 r0 w1 evs0 ->
    terminal r0 = true
    /\ forall e, r0 = Raise (RetryError e) ->
         retry_if_exception_type e = true
         /\ length (attempts evs0) = S more).
  { clear. intros more i w0 r0 w1 evs0 H.
    assert (Hno : forall w0 e w1 evs1,
      replicate_file_attempt md5 b k w0 = (Raise (RetryError e), w1, evs1) ->
      False).
    { intros w2 e w3 evs1 E0. apply attempt_path_run in E0.
      exact (attempt_never_RetryError _ _ _ _ _ _ _ E0). }
    induction H as [more n w a w1 evs E|more n w e w1 evs E Hr
                   |n w e w1 evs E Hr|more n w e w1 evs r w2 evs2 E Hr H IH].
    - split; [reflexivity | discriminate].
    - split; [cbn; now rewrite Hr|]. intros e' [= ->].
      exfalso. exact (Hno _ _ _ _ E).
    - split; [reflexivity|]. intros e' [= <-]. split; [exact Hr|].
      cbn [attempts length].
      now rewrite (proj1 (attempt_plain _ _ _ _ _ _ _ E)).
    - destruct IH as [IH1 IH2]. split; [exact IH1|]. intros e' He'.
      destruct (IH2 _ He') as [R L]. split; [exact R|].
      cbn [attempts length]. rewrite attempts_app.
      rewrite (proj1 (attempt_plain _ _ _ _ _ _ _ E)). cbn. now rewrite L. }
  destruct (G _ _ _ _ _ _ Hp) as [G1 G2]. split; [exact G1|].
  intros e He. destruct (G2 _ He) as [R L]. split; [exact R|].
  rewrite Ha in L |- *. rewrite length_seq in L.
  injection L as ->. reflexivity.
Qed.

Lemma retried_errors_come_wrapped_witness :
  Demo.call_exists_outage
  = (Demo.call_exists_outage.1.1, Demo.call_exists_outage.1.2,
     Demo.call_exists_outage.2)
  /\ terminal Demo.call_exists_outage.1.1 = true
  /\ forall e, Demo.call_exists_outage.1.1 = Raise (RetryError e) ->
       retry_if_exception_type e = true
       /\ attempts Demo.call_exists_outage.2 = [1; 2; 3].
Proof.
  assert (E : Demo.call_exists_outage
              = (Demo.call_exists_outage.1.1, Demo.call_exists_outage.1.2,
                 Demo.call_exists_outage.2))
    by (vm_compute; reflexivity).
  split; [exact E|].
  exact (retried_errors_come_wrapped MD5.digest "src" "img/logo.png"
           Demo.exists_outage _ _ _ E).
Defined.

(** X3. When no failure is scheduled, [replicate_file] makes exactly one
    attempt and never sleeps, whatever the stores hold: its result is
    that of its body, and no failure is scheduled afterwards either. *)
Theorem no_failure_one_attempt md5 b k w r w' evs :
  calm w = true ->
  replicate_file md5 b k w = (r, w', evs) ->
  exists evs1,
    replicate_file_attempt md5 b k w = (r, w', evs1)
    /\ evs = EvAttempt 1 :: evs1
    /\ attempts evs = [1] /\ sleeps evs = []
    /\ calm w' = true.
Proof.
  intros Hc E.
  destruct (replicate_file_attempt md5 b k w) as [[r1 w1] evs1] eqn:E1.
  destruct (calm_attempt_terminal _ _ _ _ _ _ _ Hc E1) as [Ht Hc1].
  destruct (attempt_plain _ _ _ _ _ _ _ E1) as [Ha Hs].
  assert (E2 : replicate_file md5 b k w = (r1, w1, EvAttempt 1 :: evs1)).
  { destruct r1 as [s|e].
    - now apply replicate_file_return.
    - apply replicate_file_reraise; [exact E1|].
      cbn in Ht. now apply negb_true_iff in Ht. }
  rewrite E2 in E. injection E as <- <- <-.
  exists evs1. cbn [attempts sleeps]. rewrite Ha, Hs. auto.
Qed.

Lemma no_failure_one_attempt_witness :
  calm (Demo.world []) = true
  /\ Demo.call_logo = (Demo.call_logo.1.1, Demo.call_logo.1.2, Demo.call_logo.2)
  /\ exists evs1,
       replicate_file_attempt MD5.digest "src" "img/logo.png" (Demo.world [])
       = (Demo.call_logo.1.1, Demo.call_logo.1.2, evs1)
       /\ Demo.call_logo.2 = EvAttempt 1 :: evs1
       /\ attempts Demo.call_logo.2 = [1] /\ sleeps Demo.call_logo.2 = []
       /\ calm Demo.call_logo.1.2 = true.
Proof.
  assert (Hc : calm (Demo.world []) = true) by reflexivity.
  assert (E : Demo.call_logo
              = (Demo.call_logo.1.1, Demo.call_logo.1.2, Demo.call_logo.2))
    by (vm_compute; reflexivity).
  split; [exact Hc|]. split; [exact E|].
  exact (no_failure_one_attempt MD5.digest "src" "img/logo.png"
           (Demo.world []) _ _ _ Hc E).
Defined.

(** X4. A failure of the first lookup that the wrapper retries (a
    [ClientError] other than 404, or a [GoogleAPIError]) costs one attempt
    and one sleep of 2 seconds: when nothing else fails, the source
    object is there with a digest that matches its bytes and the
    destination key is free, the call replicates on its second attempt. *)
Theorem lookup_failure_recovered md5 b k w f o :
  next_fault w = Some f ->
  retry_if_exception_type (head_exn f) = true ->
  calm (consume w) = true ->
  s3_objects w !! (b, k) = Some o ->
  gcs_objects w !! k = None ->
  mismatch md5 o = false ->
  exists w' evs,
    replicate_file md5 b k w
    = (Return (msg_replicated k (gcs_bucket_name w)), w', evs)
    /\ attempts evs = [1; 2] /\ sleeps evs = [2%N]
    /\ lookups (calls evs) = 2
    /\ gcs_objects w' = <[k := uploaded_blob md5 o]> (gcs_objects w).
Proof.
  intros Hf Hr Hc Ho Hg Hm.
  destruct (attempt_head_fault md5 b k w f Hf)
    as (w1 & evs1 & E1 & Hs1 & Hg1 & Hn1 & Hf1 & Hc1).
  assert (Hcalm1 : calm w1 = true).
  { unfold calm in *. rewrite Hf1. exact Hc. }
  destruct (calm_attempt_transfers md5 b k w1 o [HeadObject b k; BlobExists k]
              Hcalm1) as (r & w' & evs2 & n & E2 & Hfr & Hres).
  { now rewrite Hs1. }
  { left. split; [now rewrite Hg1 | reflexivity]. }
  rewrite Hm in Hres. destruct Hres as (-> & Hg2 & Hc2).
  rewrite Hn1 in E2.
  exists w', (EvAttempt 1 :: evs1
               ++ EvSleep (wait_exponential 1 2 10 1) :: EvAttempt 2 :: evs2).
  split.
  { unfold replicate_file, retry_decorator. cbn [Nat.sub].
    eapply retrying_again; [exact E1 | exact Hr |].
    apply retrying_return. exact E2. }
  destruct (attempt_plain _ _ _ _ _ _ _ E1) as [Ha1 Hsl1].
  destruct (attempt_plain _ _ _ _ _ _ _ E2) as [Ha2 Hsl2].
  trace_simpl. rewrite Ha1, Ha2, Hsl1, Hsl2, Hc1, Hc2, Hg2, Hg1.
  cbn [app lookups]. rewrite transfer_calls_lookups.
  repeat split; reflexivity.
Qed.

Lemma lookup_failure_recovered_witness :
  next_fault Tour.flaky = Some Demo.slow_down
  /\ retry_if_exception_type (head_exn Demo.slow_down) = true
  /\ calm (consume Tour.flaky) = true
  /\ s3_objects Tour.flaky !! ("src", "img/logo.png") = Some Demo.logo
  /\ gcs_objects Tour.flaky !! "img/logo.png" = None
  /\ mismatch MD5.digest Demo.logo = false
  /\ exists w' evs,
       replicate_file MD5.digest "src" "img/logo.png" Tour.flaky
       = (Return (msg_replicated "img/logo.png" (gcs_bucket_name Tour.flaky)),
          w', evs)
       /\ attempts evs = [1; 2] /\ sleeps evs = [2%N]
       /\ lookups (calls evs) = 2
       /\ gcs_objects w'
          = <["img/logo.png" := uploaded_blob MD5.digest Demo.logo]>
              (gcs_objects Tour.flaky).
Proof.
  assert (H1 : next_fault Tour.flaky = Some Demo.slow_down) by reflexivity.
  assert (H2 : retry_if_exception_type (head_exn Demo.slow_down) = true)
    by reflexivity.
  assert (H3 : calm (consume Tour.flaky) = true) by reflexivity.
  assert (H4 : s3_objects Tour.flaky !! ("src", "img/logo.png")
               = Some Demo.logo) by (vm_compute; reflexivity).
  assert (H5 : gcs_objects Tour.flaky !! "img/logo.png" = None)
    by (vm_compute; reflexivity).
  assert (H6 : mismatch MD5.digest Demo.logo = false)
    by (vm_compute; reflexivity).
  repeat (split; [assumption|]).
  exact (lookup_failure_recovered MD5.digest "src" "img/logo.png" Tour.flaky
           Demo.slow_down Demo.logo H1 H2 H3 H4 H5 H6).
Defined.

(* ===================================================================== *)
(** * What a call does to the two stores *)
(* ===================================================================== *)

(** X5. A call of [replicate_file] on bucket [b] and key [k], whatever
    fails and however often it is retried, leaves the source store and
    the name of the destination bucket as they were, leaves every
    destination blob under another key as it was, and makes no client
    call on another bucket or key. *)
Theorem other_objects_untouched md5 b k w r w' evs :
  replicate_file md5 b k w = (r, w', evs) ->
  s3_objects w' = s3_objects w
  /\ gcs_bucket_name w' = gcs_bucket_name w
  /\ (forall k', k' <> k -> gcs_objects w' !! k' = gcs_objects w !! k')
  /\ Forall (concerns b k) (calls evs).
Proof.
  intros E.
  assert (I' : s3_objects w' = s3_objects w
               /\ gcs_bucket_name w' = gcs_bucket_name w
               /\ (forall k', k' <> k ->
                     gcs_objects w' !! k' = gcs_objects w !! k')).
  { set (I := fun w0 : World =>
        s3_objects w0 = s3_objects w
        /\ gcs_bucket_name w0 = gcs_bucket_name w
        /\ (forall k', k' <> k -> gcs_objects w0 !! k' = gcs_objects w !! k')).
    destruct (replicate_file_last_attempt md5 b k I (fun _ w1 => I w1))
      with (w := w) (r := r) (w' := w') (evs := evs) as [H|(e & _ & H)];
      try exact H; try exact E; [|subst I; cbn; auto].
    intros w0 r0 w1 evs0 (H1 & H2 & H3) E0. apply attempt_path_run in E0.
    assert (HI : I w1).
    { destruct (attempt_path_frame _ _ _ _ _ _ _ E0) as (F1 & F2 & _).
      split; [congruence|]. split; [congruence|]. intros k' Hk.
      rewrite (attempt_path_other_keys _ _ _ _ _ _ _ k' E0 Hk). now apply H3. }
    now split. }
  destruct I' as (H1 & H2 & H3). repeat (split; [assumption|]).
  apply (proper_calls b k CHUNK_SIZE).
  exact (wp_run _ _ _ _ _ _ (emits_replicate_file md5 b k w) E).
Qed.

Lemma other_objects_untouched_witness :
  Tour.call_stale
  = (Tour.call_stale.1.1, Tour.call_stale.1.2, Tour.call_stale.2)
  /\ s3_objects Tour.call_stale.1.2 = s3_objects Tour.stale
  /\ gcs_bucket_name Tour.call_stale.1.2 = gcs_bucket_name Tour.stale
  /\ (forall k', k' <> "img/logo.png" ->
        gcs_objects Tour.call_stale.1.2 !! k' = gcs_objects Tour.stale !! k')
  /\ Forall (concerns "src" "img/logo.png") (calls Tour.call_stale.2).
Proof.
  assert (E : Tour.call_stale
              = (Tour.call_stale.1.1, Tour.call_stale.1.2, Tour.call_stale.2))
    by (vm_compute; reflexivity).
  split; [exact E|].
  exact (other_objects_untouched MD5.digest "src" "img/logo.png" Tour.stale
           _ _ _ E).
Defined.

(** X6. A blob that is at the destination key with a digest other than
    the source's does not stop the call: when nothing fails and the bytes
    read match the source digest, the blob is overwritten by one upload
    of the source bytes, in one attempt. *)
Theorem stale_blob_overwritten md5 b k w o blob hex :
  calm w = true ->
  s3_objects w !! (b, k) = Some o ->
  gcs_objects w !! k = Some blob ->
  digest_hex blob = Some hex ->
  already_there o hex = false ->
  mismatch md5 o = false ->
  exists w' evs,
    replicate_file md5 b k w
    = (Return (msg_replicated k (gcs_bucket_name w)), w', evs)
    /\ attempts evs = [1]
    /\ uploaded_to k (calls evs) = [s3_body o]
    /\ deletes (calls evs) = false
    /\ gcs_objects w' !! k = Some (uploaded_blob md5 o).
Proof.
  intros Hc Ho Hb Hd Ha Hm.
  destruct (calm_attempt_transfers md5 b k w o
              [HeadObject b k; BlobExists k; BlobReload k] Hc Ho)
    as (r & w' & evs & n & E & Hfr & Hres).
  { right. exists blob, hex. auto. }
  rewrite Hm in Hres. destruct Hres as (-> & Hg & Hcalls).
  exists w', (EvAttempt 1 :: evs). split; [now apply replicate_file_return|].
  cbn [attempts calls]. rewrite (proj1 (attempt_plain _ _ _ _ _ _ _ E)), Hcalls.
  split; [reflexivity|].
  rewrite transfer_calls_uploaded by reflexivity.
  rewrite transfer_calls_deletes by reflexivity.
  rewrite Hg, lookup_insert_eq. auto.
Qed.

Lemma stale_blob_overwritten_witness :
  calm Tour.stale = true
  /\ s3_objects Tour.stale !! ("src", "img/logo.png") = Some Demo.logo
  /\ gcs_objects Tour.stale !! "img/logo.png" = Some Tour.stale_blob
  /\ digest_hex Tour.stale_blob = Some "5eb63bbbe01eeed093cb22bb8f5acdc3"
  /\ already_there Demo.logo "5eb63bbbe01eeed093cb22bb8f5acdc3" = false
  /\ mismatch MD5.digest Demo.logo = false
  /\ exists w' evs,
       replicate_file MD5.digest "src" "img/logo.png" Tour.stale
       = (Return (msg_replicated "img/logo.png" (gcs_bucket_name Tour.stale)),
          w', evs)
       /\ attempts evs = [1]
       /\ uploaded_to "img/logo.png" (calls evs) = [s3_body Demo.logo]
       /\ deletes (calls evs) = false
       /\ gcs_objects w' !! "img/logo.png"
          = Some (uploaded_blob MD5.digest Demo.logo).
Proof.
  assert (H1 : calm Tour.stale = true) by reflexivity.
  assert (H2 : s3_objects Tour.stale !! ("src", "img/logo.png")
               = Some Demo.logo) by (vm_compute; reflexivity).
  assert (H3 : gcs_objects Tour.stale !! "img/logo.png" = Some Tour.stale_blob)
    by (vm_compute; reflexivity).
  assert (H4 : digest_hex Tour.stale_blob
               = Some "5eb63bbbe01eeed093cb22bb8f5acdc3")
    by (vm_compute; reflexivity).
  assert (H5 : already_there Demo.logo "5eb63bbbe01eeed093cb22bb8f5acdc3"
               = false) by (vm_compute; reflexivity).
  assert (H6 : mismatch MD5.digest Demo.logo = false)
    by (vm_compute; reflexivity).
  repeat (split; [assumption|]).
  exact (stale_blob_overwritten MD5.digest "src" "img/logo.png" Tour.stale
           Demo.logo Tour.stale_blob _ H1 H2 H3 H4 H5 H6).
Defined.

(** X7. The compensating delete does not bring back what the upload
    overwrote: when a blob is at the destination key with a digest other
    than the source's, nothing fails, and the bytes read do not match
    the source digest, the call raises the checksum error after one
    attempt and no blob at all is left at the key. *)
Theorem failed_verification_loses_stale_blob md5 b k w o blob hex :
  calm w = true ->
  s3_objects w !! (b, k) = Some o ->
  gcs_objects w !! k = Some blob ->
  digest_hex blob = Some hex ->
  already_there o hex = false ->
  mismatch md5 o = true ->
  exists w' evs,
    replicate_file md5 b k w = (Raise IntegrityMismatch, w', evs)
    /\ attempts evs = [1]
    /\ uploaded_to k (calls evs) = [s3_body o]
    /\ gcs_objects w' !! k = None.
Proof.
  intros Hc Ho Hb Hd Ha Hm.
  destruct (calm_attempt_transfers md5 b k w o
              [HeadObject b k; BlobExists k; BlobReload k] Hc Ho)
    as (r & w' & evs & n & E & Hfr & Hres).
  { right. exists blob, hex. auto. }
  rewrite Hm in Hres. destruct Hres as (-> & Hg & Hcalls).
  exists w', (EvAttempt 1 :: evs).
  split; [now apply replicate_file_reraise|].
  cbn [attempts calls]. rewrite (proj1 (attempt_plain _ _ _ _ _ _ _ E)), Hcalls.
  split; [reflexivity|].
  rewrite uploaded_to_app, transfer_calls_uploaded by reflexivity.
  rewrite Hg, lookup_delete_eq. auto.
Qed.

Lemma failed_verification_loses_stale_blob_witness :
  calm Tour.stale = true
  /\ s3_objects Tour.stale !! ("src", "tmp/damaged.bin") = Some Demo.damaged
  /\ gcs_objects Tour.stale !! "tmp/damaged.bin" = Some Tour.stale_blob
  /\ digest_hex Tour.stale_blob = Some "5eb63bbbe01eeed093cb22bb8f5acdc3"
  /\ already_there Demo.damaged "5eb63bbbe01eeed093cb22bb8f5acdc3" = false
  /\ mismatch MD5.digest Demo.damaged = true
  /\ exists w' evs,
       replicate_file MD5.digest "src" "tmp/damaged.bin" Tour.stale
       = (Raise IntegrityMismatch, w', evs)
       /\ attempts evs = [1]
       /\ uploaded_to "tmp/damaged.bin" (calls evs) = [s3_body Demo.damaged]
       /\ gcs_objects w' !! "tmp/damaged.bin" = None.
Proof.
  assert (H1 : calm Tour.stale = true) by reflexivity.
  assert (H2 : s3_objects Tour.stale !! ("src", "tmp/damaged.bin")
               = Some Demo.damaged) by (vm_compute; reflexivity).
  assert (H3 : gcs_objects Tour.stale !! "tmp/damaged.bin"
               = Some Tour.stale_blob) by (vm_compute; reflexivity).
  assert (H4 : digest_hex Tour.stale_blob
               = Some "5eb63bbbe01eeed093cb22bb8f5acdc3")
    by (vm_compute; reflexivity).
  assert (H5 : already_there Demo.damaged "5eb63bbbe01eeed093cb22bb8f5acdc3"
               = false) by (vm_compute; reflexivity).
  assert (H6 : mismatch MD5.digest Demo.damaged = true)
    by (vm_compute; reflexivity).
  repeat (split; [assumption|]).
  exact (failed_verification_loses_stale_blob MD5.digest "src"
           "tmp/damaged.bin" Tour.stale Demo.damaged Tour.stale_blob _
           H1 H2 H3 H4 H5 H6).
Defined.

Lemma wp_attempt_missing_digest md5 b k w o blob :
  calm w = true ->
  s3_objects w !! (b, k) = Some o ->
  gcs_objects w !! k = Some blob ->
  gcs_md5_hash blob = None ->
  wp (replicate_file_attempt md5 b k) w (fun r w' evs =>
    r = Raise TypeError_NoneType
    /\ gcs_objects w' = gcs_objects w
    /\ calls evs = [HeadObject b k; BlobExists k; BlobReload k]).
Proof.
  intros Hc Ho Hb Hm. unfold replicate_file_attempt. wp_steps.
  set (corr_id := uuid_source w (uuid_count w)).
  set (w0 := set_uuid_count (S (uuid_count w)) w).
  assert (Hc0 : calm w0 = true) by exact Hc.
  assert (Hc1 : calm (consume w0) = true)
    by (apply (calm_frame w0); [frames | exact Hc0]).
  assert (Hc2 : calm (consume (consume w0)) = true)
    by (apply (calm_frame (consume w0)); [frames | exact Hc1]).
  assert (Hlog : forall (w1 : World)
                        (Q : outcome unit -> World -> list event -> Prop),
    (forall evs, calls evs = [] -> Q (Return tt) w1 evs) ->
    wp (if Text.contains Text.dash (etag_of o)
        then log WARNING (tag corr_id "Multi-part ETag detected; using existence check only")
        else ret tt) w1 Q).
  { intros w1 Q HQ. destruct (Text.contains Text.dash (etag_of o)); wp_steps;
      now apply HQ. }
  unfold try_except_ClientError. wp_steps. apply wp_head_object.
  { intros f Hn. rewrite (calm_next_fault _ Hc0) in Hn. discriminate Hn. }
  intros _. change (s3_objects w0) with (s3_objects w). rewrite Ho.
  fold (etag_of o). wp_step. apply Hlog. intros evl Hl. wp_steps.
  apply wp_blob_exists.
  { intros f Hn. rewrite (calm_next_fault _ Hc1) in Hn. discriminate Hn. }
  intros _. change (gcs_objects (consume w0)) with (gcs_objects w).
  rewrite Hb. wp_steps. apply wp_blob_reload.
  { intros f Hn. rewrite (calm_next_fault _ Hc2) in Hn. discriminate Hn. }
  intros _. change (gcs_objects (consume (consume w0))) with (gcs_objects w).
  rewrite Hb, Hm. wp_steps.
  split; [reflexivity|]. split; [reflexivity|].
  trace_simpl. now rewrite Hl.
Qed.

(** X8. When the blob at the destination key has no [md5_hash] (the store
    reports none for a composed blob), the call fails on line 37 with the
    [TypeError] that [base64.b64decode] raises for [None]: after one
    attempt, right after the reload, before anything is downloaded, with
    the destination as it was. This holds for a source object with a
    composite ETag too, which line 38 would otherwise skip. *)
Theorem missing_destination_digest md5 b k w o blob :
  calm w = true ->
  s3_objects w !! (b, k) = Some o ->
  gcs_objects w !! k = Some blob ->
  gcs_md5_hash blob = None ->
  exists w' evs,
    replicate_file md5 b k w = (Raise TypeError_NoneType, w', evs)
    /\ attempts evs = [1]
    /\ calls evs = [HeadObject b k; BlobExists k; BlobReload k]
    /\ gcs_objects w' = gcs_objects w.
Proof.
  intros Hc Ho Hb Hm.
  destruct (replicate_file_attempt md5 b k w) as [[r w'] evs] eqn:E.
  pose proof (wp_run _ _ _ _ _ _
                (wp_attempt_missing_digest md5 b k w o blob Hc Ho Hb Hm) E)
    as (-> & Hg & Hcalls).
  exists w', (EvAttempt 1 :: evs).
  split; [now apply replicate_file_reraise|].
  cbn [attempts calls]. rewrite (proj1 (attempt_plain _ _ _ _ _ _ _ E)).
  auto.
Qed.

Lemma missing_destination_digest_witness :
  calm Tour.composed = true
  /\ s3_objects Tour.composed !! ("src", "reports/q1.csv") = Some Demo.report
  /\ gcs_objects Tour.composed !! "reports/q1.csv" = Some Tour.composed_blob
  /\ gcs_md5_hash Tour.composed_blob = None
  /\ composite (etag_of Demo.report) = true
  /\ exists w' evs,
       replicate_file MD5.digest "src" "reports/q1.csv" Tour.composed
       = (Raise TypeError_NoneType, w', evs)
       /\ attempts evs = [1]
       /\ calls evs = [HeadObject "src" "reports/q1.csv";
                       BlobExists "reports/q1.csv";
                       BlobReload "reports/q1.csv"]
       /\ gcs_objects w' = gcs_objects Tour.composed.
Proof.
  assert (H1 : calm Tour.composed = true) by reflexivity.
  assert (H2 : s3_objects Tour.composed !! ("src", "reports/q1.csv")
               = Some Demo.report) by (vm_compute; reflexivity).
  assert (H3 : gcs_objects Tour.composed !! "reports/q1.csv"
               = Some Tour.composed_blob) by (vm_compute; reflexivity).
  assert (H4 : gcs_md5_hash Tour.composed_blob = None) by reflexivity.
  assert (H5 : composite (etag_of Demo.report) = true)
    by (vm_compute; reflexivity).
  repeat (split; [assumption|]).
  exact (missing_destination_digest MD5.digest "src" "reports/q1.csv"
           Tour.composed Demo.report Tour.composed_blob H1 H2 H3 H4).
Defined.

(* ===================================================================== *)
(** * The two outcomes that return, through the retry wrapper *)
(* ===================================================================== *)

(** X9. A call that returns the skip message has moved nothing, whatever
    failed on the way and however often it was retried: its calls are
    lookups, existence checks and reloads only, the destination is as it
    was, and the blob that was at the key from the start has the source
    digest (or the source digest is composite). *)
Theorem skip_moves_nothing md5 b k w w' evs :
  replicate_file md5 b k w = (Return msg_skip, w', evs) ->
  gcs_objects w' = gcs_objects w
  /\ forallb is_check (calls evs) = true
  /\ exists o blob hex,
       s3_objects w !! (b, k) = Some o
       /\ gcs_objects w !! k = Some blob
       /\ digest_hex blob = Some hex
       /\ already_there o hex = true.
Proof.
  intros E. apply replicate_file_path in E.
  enough (G : forall more n w r w' evs,
    retry_path (wait_exponential 1 2 10) retry_if_exception_type
      (replicate_file_attempt md5 b k) more n w r w' evs ->
    r = Return msg_skip ->
    gcs_objects w' = gcs_objects w
    /\ forallb is_check (calls evs) = true
    /\ exists o blob hex,
         s3_objects w !! (b, k) = Some o
         /\ gcs_objects w !! k = Some blob
         /\ digest_hex blob = Some hex
         /\ already_there o hex = true)
    by exact (G _ _ _ _ _ _ E eq_refl).
  clear. intros more n w r w' evs E.
  induction E as [more n w a w1 evs E|more n w e w1 evs E Hr0
                 |n w e w1 evs E Hr0|more n w e w1 evs r w2 evs2 E Hr0 H IH];
    intros Hr; try discriminate Hr.
  - injection Hr as ->. apply attempt_path_run, attempt_path_return in E.
    destruct E as (o & Ho & _ & [(_ & (blob & hex & Hb & Hd & Ha) & Hg & Hc & _)
                               |(Hs & _)]).
    + cbn [calls]. rewrite Hc. split; [exact Hg|]. split; [reflexivity|].
      exists o, blob, hex. auto.
    + symmetry in Hs. now apply msg_replicated_not_skip in Hs.
  - destruct (IH Hr) as (Hg & Hc & o & blob & hex & Ho & Hb & Hd & Ha).
    clear IH. apply attempt_path_run in E.
    assert (Hs3 : s3_objects w1 = s3_objects w)
      by apply (attempt_path_frame _ _ _ _ _ _ _ E).
    rewrite Hs3 in Ho.
    assert (G : gcs_objects w1 = gcs_objects w
                /\ forallb is_check (calls evs) = true).
    { inversion E; subst; try discriminate Hr0;
        try (match goal with Hcs : calls evs = _ |- _ => rewrite Hcs end;
             now split).
      exfalso.
      match goal with Ho' : s3_objects w !! (b, k) = Some _ |- _ =>
        rewrite Ho in Ho'; injection Ho' as <- end.
      match goal with Ht : transfer_path _ _ _ _ _ _ _ _ _ |- _ =>
        inversion Ht; subst; try discriminate Hr0 end.
      1-2: match goal with
           | Hg1 : gcs_objects _ = gcs_objects _,
             Hp : proceeds _ _ _ _ _ |- _ =>
               rewrite Hg1 in Hb;
               destruct Hp as [(Hn & _)|(blob' & hex' & Hb' & Hd' & Ha' & _)];
               congruence
           end.
      match goal with Hg1 : gcs_objects _ = <[_ := _]> _ |- _ =>
        rewrite Hg1, lookup_insert_eq in Hb; injection Hb as <- end.
      rewrite digest_hex_uploaded_blob in Hd. injection Hd as <-.
      match goal with Hm : mismatch _ _ = true |- _ =>
        unfold mismatch in Hm; unfold already_there in Ha;
        destruct (String.eqb _ _), (composite _); discriminate end. }
    destruct G as [G1 G2]. split; [congruence|]. split.
    + cbn [calls]. rewrite calls_app, forallb_app, G2. cbn [calls]. exact Hc.
    + exists o, blob, hex. rewrite <- G1. auto.
Qed.

Lemma skip_moves_nothing_witness :
  Demo.call_logo_again
  = (Return msg_skip, Demo.call_logo_again.1.2, Demo.call_logo_again.2)
  /\ gcs_objects Demo.call_logo_again.1.2 = gcs_objects Demo.call_logo.1.2
  /\ forallb is_check (calls Demo.call_logo_again.2) = true
  /\ exists o blob hex,
       s3_objects Demo.call_logo.1.2 !! ("src", "img/logo.png") = Some o
       /\ gcs_objects Demo.call_logo.1.2 !! "img/logo.png" = Some blob
       /\ digest_hex blob = Some hex
       /\ already_there o hex = true.
Proof.
  assert (E : Demo.call_logo_again
              = (Return msg_skip, Demo.call_logo_again.1.2,
                 Demo.call_logo_again.2))
    by (vm_compute; reflexivity).
  split; [exact E|].
  exact (skip_moves_nothing MD5.digest "src" "img/logo.png"
           Demo.call_logo.1.2 _ _ E).
Defined.

(** X10. When a call returns the "replicated" outcome, however many
    attempts it took, the blob at the destination key has the bytes of
    the source object, the content type of the source object or
    "application/octet-stream" when the source has none, and the MD5 of
    those bytes, which is the source digest unless that is composite. *)
Theorem replicated_blob md5 b k w w' evs :
  replicate_file md5 b k w
  = (Return (msg_replicated k (gcs_bucket_name w)), w', evs) ->
  exists o blob,
    s3_objects w !! (b, k) = Some o
    /\ gcs_objects w' !! k = Some blob
    /\ gcs_data blob = s3_body o
    /\ gcs_content_type blob
       = default "application/octet-stream" (s3_content_type o)
    /\ digest_hex blob = Some (Text.hex (md5 (s3_body o)))
    /\ (composite (etag_of o) = false -> digest_hex blob = Some (etag_of o)).
Proof.
  intros E.
  destruct (replicate_file_last_attempt md5 b k
              (fun w0 => frame w w0)
              (fun r w1 =>
                 r = Return (msg_replicated k (gcs_bucket_name w)) ->
                 exists o, s3_objects w !! (b, k) = Some o
                           /\ mismatch md5 o = false
                           /\ gcs_objects w1 !! k
                              = Some (uploaded_blob md5 o)))
    with (w := w) (r := Return (msg_replicated k (gcs_bucket_name w)))
         (w' := w') (evs := evs) as [H|(e & [=] & _)]; auto using frame_refl.
  - intros w0 r w1 evs0 Hfr E0. apply attempt_path_run in E0. split.
    + apply (frame_trans w w0 w1 Hfr). eapply attempt_path_frame; eassumption.
    + intros ->. apply attempt_path_return in E0.
      destruct E0 as (o & Ho & _ & [(Hs & _)|(_ & Hm & Hg & _)]).
      * now apply msg_replicated_not_skip in Hs.
      * exists o. destruct Hfr as (Hs3 & _).
        rewrite <- Hs3, Hg, lookup_insert_eq. auto.
  - destruct (H eq_refl) as (o & Ho & Hm & Hg).
    exists o, (uploaded_blob md5 o).
    rewrite digest_hex_uploaded_blob. repeat (split; [trivial|]).
    intros Hc. now rewrite (mismatch_false_digest md5 o Hm Hc).
Qed.

Lemma replicated_blob_witness :
  Tour.call_flaky
  = (Return (msg_replicated "img/logo.png" (gcs_bucket_name Tour.flaky)),
     Tour.call_flaky.1.2, Tour.call_flaky.2)
  /\ exists o blob,
       s3_objects Tour.flaky !! ("src", "img/logo.png") = Some o
       /\ gcs_objects Tour.call_flaky.1.2 !! "img/logo.png" = Some blob
       /\ gcs_data blob = s3_body o
       /\ gcs_content_type blob
          = default "application/octet-stream" (s3_content_type o)
       /\ digest_hex blob = Some (Text.hex (MD5.digest (s3_body o)))
       /\ (composite (etag_of o) = false ->
           digest_hex blob = Some (etag_of o)).
Proof.
  assert (E : Tour.call_flaky
              = (Return (msg_replicated "img/logo.png"
                           (gcs_bucket_name Tour.flaky)),
                 Tour.call_flaky.1.2, Tour.call_flaky.2))
    by (vm_compute; reflexivity).
  split; [exact E|].
  exact (replicated_blob MD5.digest "src" "img/logo.png" Tour.flaky _ _ E).
Defined.

(* ===================================================================== *)
(** * A failure of the lookup *)
(* ===================================================================== *)

(** X11. When [head_object] raises a [ClientError] whose code is not
    "404", the attempt re-raises that same error, code and message
    unchanged, after the lookup alone: no other call is made and the
    destination is as it was. *)
Theorem lookup_error_reraised md5 b k w code msg :
  next_fault w = Some (FClientError code msg) ->
  code <> "404" ->
  exists w' evs,
    replicate_file_attempt md5 b k w = (Raise (ClientError code msg), w', evs)
    /\ calls evs = [HeadObject b k]
    /\ gcs_objects w' = gcs_objects w
    /\ retry_if_exception_type (ClientError code msg) = true.
Proof.
  intros Hf Hcode.
  destruct (attempt_head_fault md5 b k w _ Hf)
    as (w1 & evs & E & _ & Hg & _ & _ & Hc).
  exists w1, evs. cbn [head_exn] in E.
  apply String.eqb_neq in Hcode. rewrite Hcode in E. auto.
Qed.

Lemma lookup_error_reraised_witness :
  next_fault Tour.flaky = Some Demo.slow_down
  /\ "SlowDown" <> "404"
  /\ exists w' evs,
       replicate_file_attempt MD5.digest "src" "img/logo.png" Tour.flaky
       = (Raise (exn_of_fault Demo.slow_down), w', evs)
       /\ calls evs = [HeadObject "src" "img/logo.png"]
       /\ gcs_objects w' = gcs_objects Tour.flaky
       /\ retry_if_exception_type (exn_of_fault Demo.slow_down) = true.
Proof.
  assert (H1 : next_fault Tour.flaky = Some Demo.slow_down) by reflexivity.
  assert (H2 : "SlowDown" <> "404") by discriminate.
  split; [exact H1|]. split; [exact H2|].
  exact (lookup_error_reraised MD5.digest "src" "img/logo.png" Tour.flaky
           "SlowDown" _ H1 H2).
Defined.

(* ===================================================================== *)
(** * Streaming: chunks, reads, the spool file *)
(* ===================================================================== *)

(** X12. In every call of [replicate_file], whatever fails and however
    often it is retried, each chunk fed to the hasher and each chunk
    written to the spool file is non-empty and at most 64 KiB long: the
    payload is never handled in one piece. *)
Theorem chunks_bounded md5 b k w r w' evs :
  replicate_file md5 b k w = (r, w', evs) ->
  Forall (chunk_ok CHUNK_SIZE) (hash_updates evs)
  /\ Forall (chunk_ok CHUNK_SIZE) (spool_writes evs).
Proof.
  intros E.
  pose proof (wp_run _ _ _ _ _ _ (emits_replicate_file md5 b k w) E) as H.
  cbn beta in H. split.
  - exact (proper_hash_updates _ _ _ _ H).
  - exact (proper_spool_writes _ _ _ _ H).
Qed.

Lemma chunks_bounded_witness :
  Demo.call_logo = (Demo.call_logo.1.1, Demo.call_logo.1.2, Demo.call_logo.2)
  /\ Forall (chunk_ok CHUNK_SIZE) (hash_updates Demo.call_logo.2)
  /\ Forall (chunk_ok CHUNK_SIZE) (spool_writes Demo.call_logo.2).
Proof.
  assert (E : Demo.call_logo
              = (Demo.call_logo.1.1, Demo.call_logo.1.2, Demo.call_logo.2))
    by (vm_compute; reflexivity).
  split; [exact E|].
  exact (chunks_bounded MD5.digest "src" "img/logo.png" (Demo.world [])
           _ _ _ E).
Defined.

(** X13. The read loop of lines 49-51 on a body stream that delivers
    [amt] bytes per read until it runs out: when no read fails the loop
    returns, and it has cut the payload into consecutive slices of [amt]
    bytes. Chunk [i] is the bytes from [i * amt] up to [amt] further,
    there are as many chunks as the length divided by [amt], rounded up,
    and one more read than chunks (the last read returns the empty bytes
    that end the loop). The hasher has then been fed the whole payload,
    and the spool file was written the same chunks. *)
Theorem read_loop_slices amt body h sp w :
  (0 < amt)%N ->
  calm w = true ->
  exists hs w' evs,
    read_chunks amt body h sp w = (Return hs, w', evs)
    /\ fst hs = h ++ body
    /\ length (hash_updates evs)
       = (length body + N.to_nat amt - 1) / N.to_nat amt
    /\ (forall i c, hash_updates evs !! i = Some c ->
          c = take (N.to_nat amt) (drop (i * N.to_nat amt) body))
    /\ spool_writes evs = hash_updates evs
    /\ calls evs = repeat (BodyRead amt) (S (length (hash_updates evs))).
Proof.
  intros Hamt Hc.
  destruct (calm_read_chunks amt body h sp w Hamt Hc)
    as (hs & w' & evs & E & Hhs & _ & Hh & _).
  exists hs, w', evs. split; [exact E|]. split; [exact Hh|].
  pose proof (wp_run _ _ _ _ _ _
                (wp_read_loop_slices amt Hamt (S (length body)) body h sp w
                   (Nat.lt_succ_diag_r _)) E) as (Hl & Hs & Hcalls).
  auto.
Qed.

Lemma read_loop_slices_witness :
  (0 < 2)%N
  /\ calm (Demo.world []) = true
  /\ exists hs w' evs,
       read_chunks 2 (list_byte_of_string "abcde") []
         (SpooledTemporaryFile 4) (Demo.world [])
       = (Return hs, w', evs)
       /\ fst hs = [] ++ list_byte_of_string "abcde"
       /\ length (hash_updates evs)
          = (length (list_byte_of_string "abcde") + N.to_nat 2 - 1)
            / N.to_nat 2
       /\ (forall i c, hash_updates evs !! i = Some c ->
             c = take (N.to_nat 2)
                   (drop (i * N.to_nat 2) (list_byte_of_string "abcde")))
       /\ spool_writes evs = hash_updates evs
       /\ calls evs = repeat (BodyRead 2) (S (length (hash_updates evs))).
Proof.
  assert (H1 : (0 < 2)%N) by reflexivity.
  assert (H2 : calm (Demo.world []) = true) by reflexivity.
  split; [exact H1|]. split; [exact H2|].
  exact (read_loop_slices 2 (list_byte_of_string "abcde") []
           (SpooledTemporaryFile 4) (Demo.world []) H1 H2).
Defined.

(** X14. What the read loop leaves in a fresh spool file with a positive
    [max_size] (as the 5 MiB of line 48), when no read fails: the whole
    payload, which a reader gets back after the rewind of line 52; and
    the file has rolled over from memory to disk exactly when the payload
    is longer than [max_size]. *)
Theorem spool_rolls_over_beyond_max_size amt max_size body h w :
  (0 < amt)%N ->
  (0 < max_size)%N ->
  calm w = true ->
  exists hs w' evs,
    read_chunks amt body h (SpooledTemporaryFile max_size) w
    = (Return hs, w', evs)
    /\ spool_read_all (spool_seek (snd hs) 0) = body
    /\ spool_pos (snd hs) = length body
    /\ spool_rolled (snd hs) = (max_size <? N.of_nat (length body))%N.
Proof.
  intros Hamt _ Hc.
  destruct (calm_read_chunks amt body h (SpooledTemporaryFile max_size) w
              Hamt Hc) as (hs & w' & evs & E & _ & Hcat & _ & Hsp).
  exists hs, w', evs. split; [exact E|]. rewrite Hsp.
  split; [now rewrite spool_rewind_read|].
  destruct (spool_writes_end (hash_updates evs)
              (SpooledTemporaryFile max_size) eq_refl) as [_ Hp].
  rewrite Hp, spool_writes_rolled, Hcat; [auto | reflexivity |].
  symmetry. apply N.ltb_ge, N.le_0_l.
Qed.

Lemma spool_rolls_over_beyond_max_size_witness :
  (0 < 2)%N
  /\ (0 < 4)%N
  /\ calm (Demo.world []) = true
  /\ exists hs w' evs,
       read_chunks 2 (list_byte_of_string "abcde") []
         (SpooledTemporaryFile 4) (Demo.world [])
       = (Return hs, w', evs)
       /\ spool_read_all (spool_seek (snd hs) 0) = list_byte_of_string "abcde"
       /\ spool_pos (snd hs) = length (list_byte_of_string "abcde")
       /\ spool_rolled (snd hs)
          = (4 <? N.of_nat (length (list_byte_of_string "abcde")))%N.
Proof.
  assert (H1 : (0 < 2)%N) by reflexivity.
  assert (H2 : (0 < 4)%N) by reflexivity.
  assert (H3 : calm (Demo.world []) = true) by reflexivity.
  split; [exact H1|]. split; [exact H2|]. split; [exact H3|].
  exact (spool_rolls_over_beyond_max_size 2 4 (list_byte_of_string "abcde") []
           (Demo.world []) H1 H2 H3).
Defined.

(* ===================================================================== *)
(** * Digests as text *)
(* ===================================================================== *)

Lemma string_app_cons a (s1 s2 : string) :
  String a s1 +:+ s2 = String a (s1 +:+ s2).
Proof. reflexivity. Qed.

Lemma string_app_nil_l (s : string) : "" +:+ s = s.
Proof. reflexivity. Qed.

Lemma string_app_assoc (s1 s2 s3 : string) :
  (s1 +:+ s2) +:+ s3 = s1 +:+ (s2 +:+ s3).
Proof.
  induction s1 as [|a s1 IH]; [reflexivity|].
  now rewrite !string_app_cons, IH.
Qed.

Lemma string_rev_app_spec s1 : forall s2,
  String.rev_app s1 s2 = String.rev s1 +:+ s2.
Proof.
  unfold String.rev. induction s1 as [|a s1 IH]; intros s2;
    cbn [String.rev_app]; [reflexivity|].
  rewrite (IH (String a s2)), (IH (String a "")), string_app_assoc.
  reflexivity.
Qed.

Lemma string_rev_cons a s :
  String.rev (String a s) = String.rev s +:+ String a "".
Proof.
  unfold String.rev at 1. cbn [String.rev_app]. apply string_rev_app_spec.
Qed.

Lemma string_rev_snoc s a :
  String.rev (s +:+ String a "") = String a (String.rev s).
Proof.
  induction s as [|x s IH]; [reflexivity|].
  now rewrite string_app_cons, !string_rev_cons, IH.
Qed.

Lemma string_rev_involutive s : String.rev (String.rev s) = s.
Proof.
  induction s as [|a s IH]; [reflexivity|].
  now rewrite string_rev_cons, string_rev_snoc, IH.
Qed.

Lemma contains_app c s1 s2 :
  Text.contains c (s1 +:+ s2) = Text.contains c s1 || Text.contains c s2.
Proof.
  induction s1 as [|a s1 IH]; [reflexivity|].
  rewrite string_app_cons. cbn [Text.contains]. now rewrite IH, orb_assoc.
Qed.

Lemma contains_rev c s : Text.contains c (String.rev s) = Text.contains c s.
Proof.
  induction s as [|a s IH]; [reflexivity|].
  rewrite string_rev_cons, contains_app, IH. cbn [Text.contains].
  rewrite orb_false_r. apply orb_comm.
Qed.

Lemma lstrip_without c s : Text.contains c s = false -> Text.lstrip c s = s.
Proof.
  destruct s as [|a s]; [reflexivity|]. cbn. intros H.
  apply orb_false_iff in H as [-> _]. reflexivity.
Qed.

Lemma hex_digit_not_dash n : Ascii.eqb (Text.hex_digit n) Text.dash = false.
Proof.
  destruct n as [|p]; [reflexivity|].
  do 4 (destruct p as [p|p|]; try reflexivity).
Qed.

(** X15. Hexadecimal text never contains a dash, so the digest computed
    from the bytes read is never composite and never equal to a composite
    source digest: for a source object with a composite ETag, the tests
    of lines 38 and 63 are decided by the dash alone. *)
Theorem composite_etag_never_equals_digest md5 o :
  composite (etag_of o) = true ->
  composite (Text.hex (md5 (s3_body o))) = false
  /\ Text.hex (md5 (s3_body o)) <> etag_of o
  /\ mismatch md5 o = false
  /\ forall hex, already_there o hex = true.
Proof.
  intros Hc.
  assert (H : forall bs, composite (Text.hex bs) = false).
  { induction bs as [|x bs IH]; [reflexivity|].
    unfold composite in *. cbn [Text.hex Text.contains].
    now rewrite !hex_digit_not_dash, IH. }
  split; [apply H|]. split.
  - intros E. specialize (H (md5 (s3_body o))). congruence.
  - unfold mismatch, already_there. rewrite Hc. split.
    + now rewrite andb_false_r.
    + intros hex. now rewrite orb_true_r.
Qed.

Lemma composite_etag_never_equals_digest_witness :
  composite (etag_of Demo.report) = true
  /\ composite (Text.hex (MD5.digest (s3_body Demo.report))) = false
  /\ Text.hex (MD5.digest (s3_body Demo.report)) <> etag_of Demo.report
  /\ mismatch MD5.digest Demo.report = false
  /\ forall hex, already_there Demo.report hex = true.
Proof.
  assert (H : composite (etag_of Demo.report) = true)
    by (vm_compute; reflexivity).
  split; [exact H|].
  exact (composite_etag_never_equals_digest MD5.digest Demo.report H).
Defined.

(** X16. Line 37 on what the destination store reports for the blobs it
    holds: the base64 text of an MD5 digest decodes to the hexadecimal
    text of that digest, which is the form the source ETag has. Decoding
    makes no call and changes nothing. *)
Theorem md5_hash_round_trip (digest : bytes) w :
  decode_md5_hash (Some (Base64.b64encode digest)) w
  = (Return (Text.hex digest), w, []).
Proof.
  unfold decode_md5_hash. now rewrite b64decode_b64encode.
Qed.

(** X17. The normalisation of line 26: an ETag text without a double
    quote inside comes out of the strip as it is, whether the header
    has it wrapped in double quotes, as S3 sends it, or bare. *)
Theorem etag_quotes_stripped o s :
  Text.contains Text.dquote s = false ->
  s3_etag o = String Text.dquote (s +:+ String Text.dquote "")
  \/ s3_etag o = s ->
  etag_of o = s.
Proof.
  intros Hs H. unfold etag_of, Text.strip. destruct H as [-> | ->].
  - cbn [Text.lstrip]. rewrite Ascii.eqb_refl.
    destruct s as [|a s'] eqn:Es; [reflexivity|]. rewrite <- Es in *.
    assert (Hl : Text.lstrip Text.dquote (s +:+ String Text.dquote "")
                 = s +:+ String Text.dquote "").
    { subst s. rewrite string_app_cons. cbn [Text.contains Text.lstrip] in *.
      apply orb_false_iff in Hs as [-> _]. reflexivity. }
    rewrite Hl, string_rev_snoc. cbn [Text.lstrip]. rewrite Ascii.eqb_refl.
    rewrite lstrip_without by now rewrite contains_rev.
    apply string_rev_involutive.
  - rewrite (lstrip_without _ s Hs).
    rewrite lstrip_without by now rewrite contains_rev.
    apply string_rev_involutive.
Qed.

Lemma etag_quotes_stripped_witness :
  Text.contains Text.dquote "900150983cd24fb0d6963f7d28e17f72" = false
  /\ (s3_etag Demo.logo
      = String Text.dquote
          ("900150983cd24fb0d6963f7d28e17f72" +:+ String Text.dquote "")
      \/ s3_etag Demo.logo = "900150983cd24fb0d6963f7d28e17f72")
  /\ etag_of Demo.logo = "900150983cd24fb0d6963f7d28e17f72".
Proof.
  assert (H1 : Text.contains Text.dquote "900150983cd24fb0d6963f7d28e17f72"
               = false) by reflexivity.
  assert (H2 : s3_etag Demo.logo
               = String Text.dquote
                   ("900150983cd24fb0d6963f7d28e17f72"
                    +:+ String Text.dquote "")
               \/ s3_etag Demo.logo = "900150983cd24fb0d6963f7d28e17f72")
    by (left; reflexivity).
  split; [exact H1|]. split; [exact H2|].
  exact (etag_quotes_stripped Demo.logo _ H1 H2).
Defined.

(* ===================================================================== *)
(** * [app/config.py]: what importing the module checks *)
(* ===================================================================== *)

Lemma check_required_cases environ vars :
  (Config.check_required environ vars = Return tt
   /\ Forall (fun var => Config.truthy (Config.getenv environ var) = true) vars)
  \/ exists pre var post,
       vars = pre ++ var :: post
       /\ Forall (fun var => Config.truthy (Config.getenv environ var) = true)
            pre
       /\ Config.truthy (Config.getenv environ var) = false
       /\ Config.check_required environ vars = Raise (Config.missing_var var).
Proof.
  induction vars as [|v vars IH]; [left; split; [reflexivity|constructor]|].
  cbn [Config.check_required].
  destruct (Config.truthy (Config.getenv environ v)) eqn:Hv; cbn [negb].
  - destruct IH as [(E & H)|(pre & var & post & -> & Hpre & Hvar & E)].
    + left. split; [exact E|]. now constructor.
    + right. exists (v :: pre), var, post. repeat split; trivial.
      now constructor.
  - right. exists [], v, vars. repeat split; trivial.
Qed.

Lemma check_required_first_missing environ pre var post :
  Forall (fun var => Config.truthy (Config.getenv environ var) = true) pre ->
  Config.truthy (Config.getenv environ var) = false ->
  Config.check_required environ (pre ++ var :: post)
  = Raise (Config.missing_var var).
Proof.
  intros Hpre Hvar. induction Hpre as [|v pre Hv _ IH];
    cbn [app Config.check_required].
  - now rewrite Hvar.
  - now rewrite Hv.
Qed.

Lemma check_required_passes environ vars :
  Forall (fun var => Config.truthy (Config.getenv environ var) = true) vars ->
  Config.check_required environ vars = Return tt.
Proof.
  intros H. destruct (check_required_cases environ vars)
    as [(E & _)|(pre & var & post & Hv & _ & Hvar & _)]; [exact E|].
  exfalso. rewrite Hv in H. apply Forall_app in H as [_ H].
  apply Forall_cons in H as [H _]. congruence.
Qed.

Lemma getenv_load_dotenv dotenv environ var :
  Config.getenv (Config.load_dotenv dotenv environ) var
  = Config.setting dotenv environ var.
Proof.
  unfold Config.getenv, Config.load_dotenv, Config.setting.
  rewrite lookup_union.
  destruct (environ !! var), (dotenv !! var); reflexivity.
Qed.

(** X18. Importing the configuration runs to its end exactly when each
    of the five required variables has a non-empty value, in the
    environment or else in the [.env] file, boto3 builds the S3 client
    from the three AWS values, the path given for the service account
    file exists, and the three calls into the Google libraries (the
    credentials from that file, the storage client, the bucket of the
    target name) return. *)
Theorem load_succeeds_iff lib dotenv environ files :
  (exists s, Config.load lib dotenv environ files = Return s)
  <-> (Forall (fun var =>
                 Config.truthy (Config.setting dotenv environ var) = true)
         Config.REQUIRED_VARS
       /\ Config.boto3_client lib
            (Config.setting dotenv environ "AWS_ACCESS_KEY_ID")
            (Config.setting dotenv environ "AWS_SECRET_ACCESS_KEY")
            (Config.setting dotenv environ "AWS_REGION") = None
       /\ exists path,
            Config.setting dotenv environ "GCP_SERVICE_ACCOUNT_JSON"
            = Some path
            /\ path ∈ files
            /\ Config.from_service_account_file lib path = None
            /\ Config.storage_client lib path = None
            /\ Config.bucket lib
                 (Config.setting dotenv environ "TARGET_GCS_BUCKET") = None).
Proof.
  unfold Config.load. rewrite !getenv_load_dotenv.
  assert (Hall : Forall (fun var =>
            Config.truthy
              (Config.getenv (Config.load_dotenv dotenv environ) var) = true)
            Config.REQUIRED_VARS
          <-> Forall (fun var =>
                Config.truthy (Config.setting dotenv environ var) = true)
                Config.REQUIRED_VARS).
  { apply Forall_iff. intros var. now rewrite getenv_load_dotenv. }
  rewrite <- Hall. clear Hall.
  destruct (check_required_cases (Config.load_dotenv dotenv environ)
              Config.REQUIRED_VARS)
    as [(E & H)|(pre & var & post & Hv & Hpre & Hvar & E)]; rewrite E.
  2:{ split; [intros (s & [=])|]. intros (H & _). exfalso.
      rewrite Hv in H. apply Forall_app in H as [_ H].
      apply Forall_cons in H as [H _]. congruence. }
  destruct (Config.boto3_client lib _ _ _) as [e|] eqn:Hb.
  { split; [intros (s & [=])|]. intros (_ & [=] & _). }
  destruct (Config.setting dotenv environ "GCP_SERVICE_ACCOUNT_JSON")
    as [path|] eqn:Hp.
  2:{ split; [intros (s & [=])|]. intros (_ & _ & path & [=] & _). }
  destruct (bool_decide (path ∈ files)) eqn:Hf; cbn [negb].
  2:{ apply bool_decide_eq_false in Hf. split; [intros (s & [=])|].
      intros (_ & _ & path' & [= <-] & Hin & _). contradiction. }
  apply bool_decide_eq_true in Hf.
  destruct (Config.from_service_account_file lib path) as [e|] eqn:Hc.
  { split; [intros (s & [=])|].
    intros (_ & _ & path' & [= <-] & _ & Hc' & _). congruence. }
  destruct (Config.storage_client lib path) as [e|] eqn:Hs.
  { split; [intros (s & [=])|].
    intros (_ & _ & path' & [= <-] & _ & _ & Hs' & _). congruence. }
  destruct (Config.bucket lib _) as [e|] eqn:Hk.
  { split; [intros (s & [=])|].
    intros (_ & _ & path' & [= <-] & _ & _ & _ & [=]). }
  split; [|eauto]. intros _. split; [exact H|]. split; [reflexivity|].
  exists path. auto.
Qed.

(** X19. The import fails at the first required variable, in the order
    of [REQUIRED_VARS], that has no non-empty value: one that the
    environment sets to the empty string (whatever the [.env] file says),
    or that the environment does not set and the [.env] file leaves unset
    or empty. The error names that variable, whether or not the service
    account file exists. *)
Theorem first_missing_variable_reported lib dotenv environ files pre var post :
  Config.REQUIRED_VARS = pre ++ var :: post ->
  Forall (fun var =>
            Config.truthy
              (Config.getenv (Config.load_dotenv dotenv environ) var) = true)
    pre ->
  environ !! var = Some ""
  \/ (environ !! var = None /\ Config.truthy (dotenv !! var) = false) ->
  Config.load lib dotenv environ files = Raise (Config.missing_var var).
Proof.
  intros Hv Hpre Hvar. unfold Config.load. rewrite Hv.
  rewrite check_required_first_missing; trivial.
  rewrite getenv_load_dotenv. unfold Config.setting.
  destruct Hvar as [-> | [-> H]]; trivial.
Qed.

Lemma first_missing_variable_reported_witness :
  Config.REQUIRED_VARS
  = ["AWS_ACCESS_KEY_ID"; "AWS_SECRET_ACCESS_KEY"] ++ "AWS_REGION"
    :: ["GCP_SERVICE_ACCOUNT_JSON"; "TARGET_GCS_BUCKET"]
  /\ Forall (fun var =>
               Config.truthy
                 (Config.getenv
                    (Config.load_dotenv Tour.dotenv Tour.blank_region)
                    var) = true)
       ["AWS_ACCESS_KEY_ID"; "AWS_SECRET_ACCESS_KEY"]
  /\ (Tour.blank_region !! "AWS_REGION" = Some ""
      \/ (Tour.blank_region !! "AWS_REGION" = None
          /\ Config.truthy (Tour.dotenv !! "AWS_REGION") = false))
  /\ Config.load Tour.libraries Tour.dotenv Tour.blank_region Tour.files
     = Raise (Config.missing_var "AWS_REGION").
Proof.
  assert (H1 : Config.REQUIRED_VARS
               = ["AWS_ACCESS_KEY_ID"; "AWS_SECRET_ACCESS_KEY"] ++ "AWS_REGION"
                 :: ["GCP_SERVICE_ACCOUNT_JSON"; "TARGET_GCS_BUCKET"])
    by reflexivity.
  assert (H2 : Forall (fun var =>
               Config.truthy
                 (Config.getenv
                    (Config.load_dotenv Tour.dotenv Tour.blank_region)
                    var) = true)
       ["AWS_ACCESS_KEY_ID"; "AWS_SECRET_ACCESS_KEY"])
    by (repeat (constructor; [vm_compute; reflexivity|]); constructor).
  assert (H3 : Tour.blank_region !! "AWS_REGION"
               = Some ""
               \/ (Tour.blank_region
                     !! "AWS_REGION" = None
                   /\ Config.truthy (Tour.dotenv !! "AWS_REGION") = false))
    by (left; vm_compute; reflexivity).
  split; [exact H1|]. split; [exact H2|]. split; [exact H3|].
  exact (first_missing_variable_reported Tour.libraries Tour.dotenv
           Tour.blank_region Tour.files _ _ _ H1 H2 H3).
Defined.

(** X20. When the five variables have values and boto3 has built the S3
    client from them (lines 18-23 come first), the import fails if no
    file is at the path of the service account JSON, with an error that
    names the path; the Google libraries are not called. *)
Theorem credentials_file_must_exist lib dotenv environ files path :
  Forall (fun var =>
            Config.truthy
              (Config.getenv (Config.load_dotenv dotenv environ) var) = true)
    Config.REQUIRED_VARS ->
  Config.boto3_client lib
    (Config.getenv (Config.load_dotenv dotenv environ) "AWS_ACCESS_KEY_ID")
    (Config.getenv (Config.load_dotenv dotenv environ)
       "AWS_SECRET_ACCESS_KEY")
    (Config.getenv (Config.load_dotenv dotenv environ) "AWS_REGION") = None ->
  Config.getenv (Config.load_dotenv dotenv environ) "GCP_SERVICE_ACCOUNT_JSON"
  = Some path ->
  path ∉ files ->
  Config.load lib dotenv environ files = Raise (Config.creds_not_found path).
Proof.
  intros H Hb Hp Hf. unfold Config.load.
  rewrite (check_required_passes _ _ H), Hb, Hp.
  now rewrite bool_decide_eq_false_2.
Qed.

Lemma credentials_file_must_exist_witness :
  Forall (fun var =>
            Config.truthy
              (Config.getenv (Config.load_dotenv Tour.dotenv ∅) var) = true)
    Config.REQUIRED_VARS
  /\ Config.boto3_client Tour.picky
       (Config.getenv (Config.load_dotenv Tour.dotenv ∅) "AWS_ACCESS_KEY_ID")
       (Config.getenv (Config.load_dotenv Tour.dotenv ∅)
          "AWS_SECRET_ACCESS_KEY")
       (Config.getenv (Config.load_dotenv Tour.dotenv ∅) "AWS_REGION") = None
  /\ Config.getenv (Config.load_dotenv Tour.dotenv ∅)
       "GCP_SERVICE_ACCOUNT_JSON" = Some "/etc/sync/sa.json"
  /\ ("/etc/sync/sa.json" ∉ (∅ : gset string))
  /\ Config.load Tour.picky Tour.dotenv ∅ ∅
     = Raise (Config.creds_not_found "/etc/sync/sa.json").
Proof.
  assert (H1 : Forall (fun var =>
            Config.truthy
              (Config.getenv (Config.load_dotenv Tour.dotenv ∅) var) = true)
    Config.REQUIRED_VARS)
    by (repeat (constructor; [vm_compute; reflexivity|]); constructor).
  assert (Hb : Config.boto3_client Tour.picky
       (Config.getenv (Config.load_dotenv Tour.dotenv ∅) "AWS_ACCESS_KEY_ID")
       (Config.getenv (Config.load_dotenv Tour.dotenv ∅)
          "AWS_SECRET_ACCESS_KEY")
       (Config.getenv (Config.load_dotenv Tour.dotenv ∅) "AWS_REGION") = None)
    by (vm_compute; reflexivity).
  assert (H2 : Config.getenv (Config.load_dotenv Tour.dotenv ∅)
                 "GCP_SERVICE_ACCOUNT_JSON" = Some "/etc/sync/sa.json")
    by (vm_compute; reflexivity).
  assert (H3 : "/etc/sync/sa.json" ∉ (∅ : gset string))
    by apply not_elem_of_empty.
  split; [exact H1|]. split; [exact Hb|]. split; [exact H2|].
  split; [exact H3|].
  exact (credentials_file_must_exist Tour.picky Tour.dotenv ∅ ∅ _
           H1 Hb H2 H3).
Defined.

(** X21. What a successful import hands to the client constructors: for
    each of the five variables the value the environment sets, or else
    the one of the [.env] file; none of them is empty, and the service
    account file exists. *)
Theorem loaded_settings lib dotenv environ files s :
  Config.load lib dotenv environ files = Return s ->
  Config.aws_access_key_id s
  = Config.setting dotenv environ "AWS_ACCESS_KEY_ID"
  /\ Config.aws_secret_access_key s
     = Config.setting dotenv environ "AWS_SECRET_ACCESS_KEY"
  /\ Config.region_name s = Config.setting dotenv environ "AWS_REGION"
  /\ Some (Config.gcp_creds_path s)
     = Config.setting dotenv environ "GCP_SERVICE_ACCOUNT_JSON"
  /\ Config.target_bucket s
     = Config.setting dotenv environ "TARGET_GCS_BUCKET"
  /\ Config.gcp_creds_path s ∈ files
  /\ Forall (fun var =>
               exists v, Config.setting dotenv environ var = Some v /\ v <> "")
       Config.REQUIRED_VARS.
Proof.
  intros E.
  assert (Hval : forall var,
    Config.getenv (Config.load_dotenv dotenv environ) var
    = Config.setting dotenv environ var)
    by (intros var; apply getenv_load_dotenv).
  unfold Config.load in E.
  destruct (check_required_cases (Config.load_dotenv dotenv environ)
              Config.REQUIRED_VARS)
    as [(Ec & H)|(pre & var & post & _ & _ & _ & Ec)]; rewrite Ec in E;
    [|discriminate E].
  rewrite !Hval in E.
  destruct (Config.boto3_client lib _ _ _); [discriminate E|].
  destruct (Config.setting dotenv environ "GCP_SERVICE_ACCOUNT_JSON")
    as [path|] eqn:Hp; [|discriminate E].
  destruct (bool_decide (path ∈ files)) eqn:Hf; cbn [negb] in E;
    [|discriminate E].
  destruct (Config.from_service_account_file lib path); [discriminate E|].
  destruct (Config.storage_client lib path); [discriminate E|].
  destruct (Config.bucket lib _); [discriminate E|].
  apply bool_decide_eq_true in Hf. injection E as <-.
  cbn [Config.aws_access_key_id Config.aws_secret_access_key
       Config.region_name Config.gcp_creds_path Config.target_bucket].
  repeat (split; [trivial|]).
  eapply Forall_impl; [exact H|]. intros var Hv. cbn beta in Hv.
  rewrite Hval in Hv.
  destruct (Config.setting dotenv environ var) as [[|a v]|];
    try discriminate Hv.
  eexists. split; [reflexivity | discriminate].
Qed.

Lemma loaded_settings_witness :
  Config.load Tour.libraries Tour.dotenv Tour.environ Tour.files
  = Return Tour.settings
  /\ Config.aws_access_key_id Tour.settings
     = Config.setting Tour.dotenv Tour.environ "AWS_ACCESS_KEY_ID"
  /\ Config.aws_secret_access_key Tour.settings
     = Config.setting Tour.dotenv Tour.environ "AWS_SECRET_ACCESS_KEY"
  /\ Config.region_name Tour.settings
     = Config.setting Tour.dotenv Tour.environ "AWS_REGION"
  /\ Some (Config.gcp_creds_path Tour.settings)
     = Config.setting Tour.dotenv Tour.environ "GCP_SERVICE_ACCOUNT_JSON"
  /\ Config.target_bucket Tour.settings
     = Config.setting Tour.dotenv Tour.environ "TARGET_GCS_BUCKET"
  /\ Config.gcp_creds_path Tour.settings ∈ Tour.files
  /\ Forall (fun var =>
               exists v, Config.setting Tour.dotenv Tour.environ var = Some v
                         /\ v <> "")
       Config.REQUIRED_VARS.
Proof.
  assert (E : Config.load Tour.libraries Tour.dotenv Tour.environ Tour.files
              = Return Tour.settings) by (vm_compute; reflexivity).
  split; [exact E|].
  exact (loaded_settings Tour.libraries Tour.dotenv Tour.environ Tour.files
           Tour.settings E).
Defined.

(** X25. The S3 client is built before the service account file is
    looked at: when the five variables have values and boto3 raises on
    the three AWS values (a region name it rejects, say), the import
    fails with what boto3 raised, whether or not the file exists, and
    the error about the path is never reached. *)
Theorem s3_client_failure_comes_first lib dotenv environ files e :
  Forall (fun var =>
            Config.truthy
              (Config.getenv (Config.load_dotenv dotenv environ) var) = true)
    Config.REQUIRED_VARS ->
  Config.boto3_client lib
    (Config.getenv (Config.load_dotenv dotenv environ) "AWS_ACCESS_KEY_ID")
    (Config.getenv (Config.load_dotenv dotenv environ)
       "AWS_SECRET_ACCESS_KEY")
    (Config.getenv (Config.load_dotenv dotenv environ) "AWS_REGION")
  = Some e ->
  Config.load lib dotenv environ files = Raise e.
Proof.
  intros H Hb. unfold Config.load.
  now rewrite (check_required_passes _ _ H), Hb.
Qed.

Lemma s3_client_failure_comes_first_witness :
  Forall (fun var =>
            Config.truthy
              (Config.getenv (Config.load_dotenv Tour.dotenv Tour.spaced) var)
            = true)
    Config.REQUIRED_VARS
  /\ Config.boto3_client Tour.picky
       (Config.getenv (Config.load_dotenv Tour.dotenv Tour.spaced)
          "AWS_ACCESS_KEY_ID")
       (Config.getenv (Config.load_dotenv Tour.dotenv Tour.spaced)
          "AWS_SECRET_ACCESS_KEY")
       (Config.getenv (Config.load_dotenv Tour.dotenv Tour.spaced)
          "AWS_REGION")
     = Some Tour.invalid_region
  /\ Config.load Tour.picky Tour.dotenv Tour.spaced ∅
     = Raise Tour.invalid_region.
Proof.
  assert (H1 : Forall (fun var =>
            Config.truthy
              (Config.getenv (Config.load_dotenv Tour.dotenv Tour.spaced) var)
            = true)
    Config.REQUIRED_VARS)
    by (repeat (constructor; [vm_compute; reflexivity|]); constructor).
  assert (H2 : Config.boto3_client Tour.picky
       (Config.getenv (Config.load_dotenv Tour.dotenv Tour.spaced)
          "AWS_ACCESS_KEY_ID")
       (Config.getenv (Config.load_dotenv Tour.dotenv Tour.spaced)
          "AWS_SECRET_ACCESS_KEY")
       (Config.getenv (Config.load_dotenv Tour.dotenv Tour.spaced)
          "AWS_REGION")
     = Some Tour.invalid_region) by (vm_compute; reflexivity).
  split; [exact H1|]. split; [exact H2|].
  exact (s3_client_failure_comes_first Tour.picky Tour.dotenv Tour.spaced ∅
           _ H1 H2).
Defined.

(* ===================================================================== *)
(** * More edges of one attempt *)
(* ===================================================================== *)

Lemma calm_attempt_skips md5 b k w o blob hex :
  calm w = true ->
  s3_objects w !! (b, k) = Some o ->
  gcs_objects w !! k = Some blob ->
  digest_hex blob = Some hex ->
  already_there o hex = true ->
  exists w' evs,
    replicate_file_attempt md5 b k w = (Return msg_skip, w', evs)
    /\ gcs_objects w' = gcs_objects w
    /\ calls evs = [HeadObject b k; BlobExists k; BlobReload k].
Proof.
  intros Hc Ho Hb Hd Ha.
  destruct (replicate_file_attempt md5 b k w) as [[r w'] evs] eqn:E.
  pose proof (attempt_path_run _ _ _ _ _ _ _ E) as H.
  inversion H; subst; calm_absurd Hc; try congruence.
  - exists w', evs. auto.
  - exfalso.
    match goal with Hp : proceeds _ _ _ _ _ |- _ =>
      destruct Hp as [(Hn & _)|(blob' & hex' & Hb' & Hd' & Ha' & _)] end;
      congruence.
Qed.

(** X22. For a source object with a composite ETag, a blob at the
    destination key whose [md5_hash] decodes ends the call with the skip
    message, whatever bytes that blob holds: nothing fails, nothing is
    downloaded, and the blob stays as it is. *)
Theorem composite_skips_whatever_blob md5 b k w o blob hex :
  calm w = true ->
  s3_objects w !! (b, k) = Some o ->
  composite (etag_of o) = true ->
  gcs_objects w !! k = Some blob ->
  digest_hex blob = Some hex ->
  exists w' evs,
    replicate_file md5 b k w = (Return msg_skip, w', evs)
    /\ attempts evs = [1]
    /\ calls evs = [HeadObject b k; BlobExists k; BlobReload k]
    /\ gcs_objects w' !! k = Some blob.
Proof.
  intros Hc Ho Hcomp Hb Hd.
  destruct (calm_attempt_skips md5 b k w o blob hex Hc Ho Hb Hd)
    as (w' & evs & E & Hg & Hcalls).
  { unfold already_there. rewrite Hcomp. apply orb_true_r. }
  exists w', (EvAttempt 1 :: evs). split; [now apply replicate_file_return|].
  cbn [attempts calls]. rewrite (proj1 (attempt_plain _ _ _ _ _ _ _ E)).
  rewrite Hg. auto.
Qed.

Lemma composite_skips_whatever_blob_witness :
  calm Tour.outdated = true
  /\ s3_objects Tour.outdated !! ("src", "reports/q1.csv") = Some Demo.report
  /\ composite (etag_of Demo.report) = true
  /\ gcs_objects Tour.outdated !! "reports/q1.csv" = Some Tour.neighbour
  /\ digest_hex Tour.neighbour = Some "3d78bd70997b3cfd7494a1c3ce5e6463"
  /\ gcs_data Tour.neighbour <> s3_body Demo.report
  /\ exists w' evs,
       replicate_file MD5.digest "src" "reports/q1.csv" Tour.outdated
       = (Return msg_skip, w', evs)
       /\ attempts evs = [1]
       /\ calls evs = [HeadObject "src" "reports/q1.csv";
                       BlobExists "reports/q1.csv";
                       BlobReload "reports/q1.csv"]
       /\ gcs_objects w' !! "reports/q1.csv" = Some Tour.neighbour.
Proof.
  assert (H1 : calm Tour.outdated = true) by reflexivity.
  assert (H2 : s3_objects Tour.outdated !! ("src", "reports/q1.csv")
               = Some Demo.report) by (vm_compute; reflexivity).
  assert (H3 : composite (etag_of Demo.report) = true)
    by (vm_compute; reflexivity).
  assert (H4 : gcs_objects Tour.outdated !! "reports/q1.csv"
               = Some Tour.neighbour) by (vm_compute; reflexivity).
  assert (H5 : digest_hex Tour.neighbour
               = Some "3d78bd70997b3cfd7494a1c3ce5e6463")
    by (vm_compute; reflexivity).
  assert (H6 : gcs_data Tour.neighbour <> s3_body Demo.report)
    by (vm_compute; discriminate).
  repeat (split; [assumption|]).
  exact (composite_skips_whatever_blob MD5.digest "src" "reports/q1.csv"
           Tour.outdated Demo.report Tour.neighbour _ H1 H2 H3 H4 H5).
Defined.



(* ===================================================================== *)
(** * Log lines *)
(* ===================================================================== *)

Lemma emits_read_loop_any (P : event -> Prop) amt fuel :
  (forall c, P (EvCall c)) -> (forall c, P (EvHashUpdate c)) ->
  (forall c, P (EvSpoolWrite c)) ->
  forall body h sp, emits P (read_loop fuel amt body h sp).
Proof.
  intros Hc Hh Hs. induction fuel as [|fuel IH]; intros body h sp;
    cbn [read_loop].
  - apply emits_raise.
  - unfold body_read. apply emits_bind.
    + apply emits_client_call; [apply Hc | apply emits_ret].
    + intros r. destruct (fst r); [apply emits_ret|].
      apply emits_bind; [apply emits_tell, Hh|]. intros _.
      apply emits_bind; [apply emits_tell, Hs|]. intros _. apply IH.
Qed.

Ltac tagged_step :=
  lazymatch goal with
  | |- emits _ (bind _ _) => apply emits_bind; [|intros ?]
  | |- emits _ (ret _) => apply emits_ret
  | |- emits _ (raise _) => apply emits_raise
  | |- emits _ (log _ _) => apply emits_tell; eexists; reflexivity
  | |- emits _ get_world => apply emits_get_world
  | |- emits _ (put_world _) => apply emits_put_world
  | |- emits _ (try_except _ _) => apply emits_try_except; [|intros ?]
  | |- emits _ (client_call _ _) => apply emits_client_call; [exact I|]
  | |- emits _ (read_loop _ _ _ _ _) =>
      apply emits_read_loop_any; intros; exact I
  | |- emits _ (if ?b then _ else _) => destruct b
  | |- emits _ (match ?x with _ => _ end) => destruct x
  end.

(** X24. Every message an attempt logs carries, in square brackets at its
    start, the correlation id the attempt drew when it began (line 20);
    no line is logged without it, whichever way the attempt ends. *)
Theorem log_lines_carry_correlation_id md5 b k w r w' evs :
  replicate_file_attempt md5 b k w = (r, w', evs) ->
  Forall (fun msg => exists text,
            msg = tag (uuid_source w (uuid_count w)) text)
    (logs evs).
Proof.
  intros E.
  assert (W : wp (replicate_file_attempt md5 b k) w (fun _ _ evs =>
            Forall (tagged (uuid_source w (uuid_count w))) evs)).
  { unfold replicate_file_attempt. apply wp_bind, wp_uuid4. cbn beta iota.
    eapply wp_mono; [|intros r0 w0 evs0 H; exact H].
    match goal with |- wp ?m ?w0 _ =>
      enough (Hm : emits (tagged (uuid_source w (uuid_count w))) m)
        by exact (Hm w0)
    end.
    unfold try_except_ClientError, head_object, blob_exists, blob_reload,
      decode_md5_hash, transfer, get_object, read_chunks,
      blob_upload_from_file, blob_delete.
    repeat tagged_step. }
  pose proof (wp_run _ _ _ _ _ _ W E) as H. cbn beta in H.
  clear -H. induction H as [|ev evs Hev _ IH]; [constructor|].
  destruct ev; cbn [logs]; try exact IH. constructor; [exact Hev | exact IH].
Qed.

Lemma log_lines_carry_correlation_id_witness :
  Demo.run_damaged
  = (Demo.run_damaged.1.1, Demo.run_damaged.1.2, Demo.run_damaged.2)
  /\ Forall (fun msg => exists text,
               msg = tag (uuid_source (Demo.world [])
                            (uuid_count (Demo.world []))) text)
       (logs Demo.run_damaged.2).
Proof.
  assert (E : Demo.run_damaged
              = (Demo.run_damaged.1.1, Demo.run_damaged.1.2,
                 Demo.run_damaged.2)) by (vm_compute; reflexivity).
  split; [exact E|].
  exact (log_lines_carry_correlation_id MD5.digest "src" "tmp/damaged.bin"
           (Demo.world []) _ _ _ E).
Defined.
